(** * CodeFlow IDE: the page component, its hierarchy store and its
      document collection SDK

    A shallow embedding of [app/page.tsx].  Strings are Rocq strings read
    as UTF-8 text, JavaScript objects with free-form keys are finite maps
    from key to value ([gmap string JsVal]), arrays are lists.  An event
    handler of the component is one transition of [State]: React applies
    the updaters a handler queues before the next render, and a handler
    closes over the state of the render it was created in, which is the
    state the event meets.  A script can keep a handle of the SDK across
    renders; a [Handle] carries the project of the render that made it.

    [uid] draws from [Math.random]; the sequence of drawn ids is the
    field [uid_source] of the state, [uid_next] counts the draws.

    A handler that calls [descendants] or [listTree] recurses over the
    parent links; the embedding gives these two a fuel argument, and
    [None] stands for a call that never returns. *)

From stdpp Require Import gmap strings list fin_maps relations pretty.
From Stdlib Require Import Sorted Ascii.
From Stdlib Require OrdersEx.

Open Scope string_scope.
Open Scope list_scope.

(** ** Data model *)

Inductive Kind := KFile | KFolder.

Global Instance Kind_eq_dec : EqDecision Kind.
Proof. solve_decision. Defined.

(** [FileItem]: [parentId] is [string | null]. *)
Record FileItem := mkFile {
  f_id : string;
  f_name : string;
  f_kind : Kind;
  f_content : string;
  f_parentId : option string
}.

Global Instance FileItem_eq_dec : EqDecision FileItem.
Proof. solve_decision. Defined.

(** Values of type [unknown] that a document field or a channel message
    carries.  Numbers are the integers. *)
Inductive JsVal :=
  | VUndefined
  | VNull
  | VBool (b : bool)
  | VNum (z : Z)
  | VStr (s : string).

Global Instance JsVal_eq_dec : EqDecision JsVal.
Proof. solve_decision. Defined.

(** [CollectionDoc] and the object posted on the broadcast channel. *)
Abbreviation JsObj := (gmap string JsVal).

Inductive ProjectType := P2d | P3d.
Inductive LogLevel := Info | Success | Error.
Inductive Auth := Guest | User.

Global Instance Auth_eq_dec : EqDecision Auth.
Proof. solve_decision. Defined.

(** [Project].  The scene and the version-control records take no part
    in the operations below and are left out. *)
Record Project := mkProject {
  p_id : string;
  p_name : string;
  p_type : ProjectType;
  p_files : list FileItem;
  p_connected : list string;
  p_collaborators : list string;
  p_collections : gmap string (list JsObj);
  p_apiKeys : list (string * string)
}.

Record TerminalEntry := mkEntry {
  t_id : string;
  t_level : LogLevel;
  t_message : string
}.

(** The blob stored under the key [codeflow-v1], as [JSON.parse] returns it. *)
Record Persisted := mkPersisted {
  s_auth : Auth;
  s_projects : list Project;
  s_activeProjectId : string
}.

(** The state of [Page], the [Math.random] source, the messages posted on
    the channel [codeflow-collab] and the local storage entry. *)
Record State := mkState {
  auth : Auth;
  projects : list Project;
  activeProjectId : string;
  activeFileId : string;
  openTabs : list string;
  search : string;
  selectedIds : list string;
  moveTarget : option string;
  termInput : string;
  logs : list TerminalEntry;
  uid_source : nat → string;
  uid_next : nat;
  outbox : list (string * JsObj);
  storage : option Persisted
}.

(** Field updates ([{ ...f, content: v }] and the state setters). *)
Definition with_name (n : string) (f : FileItem) : FileItem :=
  mkFile (f_id f) n (f_kind f) (f_content f) (f_parentId f).
Definition with_content (c : string) (f : FileItem) : FileItem :=
  mkFile (f_id f) (f_name f) (f_kind f) c (f_parentId f).
Definition with_parentId (p : option string) (f : FileItem) : FileItem :=
  mkFile (f_id f) (f_name f) (f_kind f) (f_content f) p.

Definition with_files (fs : list FileItem) (p : Project) : Project :=
  mkProject (p_id p) (p_name p) (p_type p) fs (p_connected p)
    (p_collaborators p) (p_collections p) (p_apiKeys p).
Definition with_collections (c : gmap string (list JsObj)) (p : Project) : Project :=
  mkProject (p_id p) (p_name p) (p_type p) (p_files p) (p_connected p)
    (p_collaborators p) c (p_apiKeys p).

Definition setProjects (ps : list Project) (st : State) : State :=
  mkState (auth st) ps (activeProjectId st) (activeFileId st) (openTabs st)
    (search st) (selectedIds st) (moveTarget st) (termInput st) (logs st)
    (uid_source st) (uid_next st) (outbox st) (storage st).
Definition setActiveProjectId (i : string) (st : State) : State :=
  mkState (auth st) (projects st) i (activeFileId st) (openTabs st)
    (search st) (selectedIds st) (moveTarget st) (termInput st) (logs st)
    (uid_source st) (uid_next st) (outbox st) (storage st).
Definition setActiveFileId (i : string) (st : State) : State :=
  mkState (auth st) (projects st) (activeProjectId st) i (openTabs st)
    (search st) (selectedIds st) (moveTarget st) (termInput st) (logs st)
    (uid_source st) (uid_next st) (outbox st) (storage st).
Definition setOpenTabs (t : list string) (st : State) : State :=
  mkState (auth st) (projects st) (activeProjectId st) (activeFileId st) t
    (search st) (selectedIds st) (moveTarget st) (termInput st) (logs st)
    (uid_source st) (uid_next st) (outbox st) (storage st).
Definition setSelectedIds (s : list string) (st : State) : State :=
  mkState (auth st) (projects st) (activeProjectId st) (activeFileId st)
    (openTabs st) (search st) s (moveTarget st) (termInput st) (logs st)
    (uid_source st) (uid_next st) (outbox st) (storage st).
Definition setMoveTarget (m : option string) (st : State) : State :=
  mkState (auth st) (projects st) (activeProjectId st) (activeFileId st)
    (openTabs st) (search st) (selectedIds st) m (termInput st) (logs st)
    (uid_source st) (uid_next st) (outbox st) (storage st).
Definition setTermInput (s : string) (st : State) : State :=
  mkState (auth st) (projects st) (activeProjectId st) (activeFileId st)
    (openTabs st) (search st) (selectedIds st) (moveTarget st) s (logs st)
    (uid_source st) (uid_next st) (outbox st) (storage st).
Definition setLogs (l : list TerminalEntry) (st : State) : State :=
  mkState (auth st) (projects st) (activeProjectId st) (activeFileId st)
    (openTabs st) (search st) (selectedIds st) (moveTarget st) (termInput st) l
    (uid_source st) (uid_next st) (outbox st) (storage st).
Definition setAuth (a : Auth) (st : State) : State :=
  mkState a (projects st) (activeProjectId st) (activeFileId st)
    (openTabs st) (search st) (selectedIds st) (moveTarget st) (termInput st)
    (logs st) (uid_source st) (uid_next st) (outbox st) (storage st).
Definition postMessage (m : JsObj) (st : State) : State :=
  mkState (auth st) (projects st) (activeProjectId st) (activeFileId st)
    (openTabs st) (search st) (selectedIds st) (moveTarget st) (termInput st)
    (logs st) (uid_source st) (uid_next st)
    (outbox st ++ [("codeflow-collab", m)]) (storage st).

(** [const uid = () => Math.random().toString(36).slice(2, 10)]: the next
    id of the source. *)
Definition uid (st : State) : string * State :=
  (uid_source st (uid_next st),
   mkState (auth st) (projects st) (activeProjectId st) (activeFileId st)
     (openTabs st) (search st) (selectedIds st) (moveTarget st) (termInput st)
     (logs st) (uid_source st) (S (uid_next st)) (outbox st) (storage st)).

(** ** Hierarchy store *)

(** [files.filter((f) => f.parentId === id).map((f) => f.id)] *)
Definition kids (files : list FileItem) (id : string) : list string :=
  f_id <$> filter (λ f, f_parentId f = Some id) files.

(** [descendants]: [kids.flatMap((k) => [k, ...descendants(files, k)])]. *)
Fixpoint descendants (fuel : nat) (files : list FileItem) (id : string)
    : option (list string) :=
  match fuel with
  | 0 => None
  | S n =>
      mjoin <$> mapM (λ k, ds ← descendants n files k; Some (k :: ds))
                      (kids files id)
  end.

(** [project = projects.find((p) => p.id === activeProjectId) ?? projects[0]] *)
Definition project (st : State) : option Project :=
  match list_find (λ p, p_id p = activeProjectId st) (projects st) with
  | Some (_, p) => Some p
  | None => head (projects st)
  end.

(** [activeFile]: the first file of the project whose id is the active
    file id and whose kind is [file]. *)
Definition activeFile (st : State) : option FileItem :=
  pr ← project st;
  snd <$> list_find (λ f, f_id f = activeFileId st ∧ f_kind f = KFile) (p_files pr).

(** [patchProject]: [projects.map((p) => p.id === project.id ? cb(p) : p)].
    Without a project the list is empty and the map visits nothing. *)
Definition patchProject (cb : Project → Project) (st : State) : State :=
  match project st with
  | Some pr =>
      setProjects ((λ p, if decide (p_id p = p_id pr) then cb p else p) <$> projects st) st
  | None => st
  end.

(** The three updates of the file list that the handlers pass to
    [patchProject]. *)
Definition rename_in (id next : string) (files : list FileItem) : list FileItem :=
  (λ f, if decide (f_id f = id) then with_name next f else f) <$> files.

Definition reparent (id : string) (target : option string) (files : list FileItem)
    : list FileItem :=
  (λ f, if decide (f_id f = id) then with_parentId target f else f) <$> files.

Definition remove_ids (toDelete : list string) (files : list FileItem)
    : list FileItem :=
  filter (λ f, f_id f ∉ toDelete) files.

(** [moveFile]'s target: the id of the first folder other than [id], or
    [null]. *)
Definition move_target (files : list FileItem) (id : string) : option string :=
  (f_id ∘ snd) <$> list_find (λ f, f_kind f = KFolder ∧ f_id f ≠ id) files.

(** [renameFile], with the answer of [prompt] ([None] for [null]). *)
Definition renameFile (id : string) (answer : option string) (st : State)
    : option State :=
  pr ← project st;
  match list_find (λ f, f_id f = id) (p_files pr) with
  | None => Some st
  | Some _ =>
      match answer with
      | None | Some "" => Some st
      | Some next =>
          Some (patchProject (λ p, with_files (rename_in id next (p_files p)) p) st)
      end
  end.

(** [moveFile] *)
Definition moveFile (id : string) (st : State) : option State :=
  pr ← project st;
  let target := move_target (p_files pr) id in
  Some (patchProject (λ p, with_files (reparent id target (p_files p)) p) st).

(** [deleteFile] *)
Definition deleteFile (fuel : nat) (id : string) (st : State) : option State :=
  pr ← project st;
  ds ← descendants fuel (p_files pr) id;
  let toDelete := id :: ds in
  let st1 := patchProject (λ p, with_files (remove_ids toDelete (p_files p)) p) st in
  let st2 := setOpenTabs (filter (λ x, x ∉ toDelete) (openTabs st1)) st1 in
  Some (if decide (activeFileId st ∈ toDelete) then setActiveFileId "" st2 else st2).

(** [patchProject] with a callback that calls [uid] [k] times: every
    project the map rewrites draws its own ids. *)
Fixpoint patch_drawing (k : nat) (cb : list string → Project → Project)
    (target : string) (src : nat → string) (n : nat) (ps : list Project)
    : list Project * nat :=
  match ps with
  | [] => ([], n)
  | p :: ps' =>
      if decide (p_id p = target) then
        let '(r, n') := patch_drawing k cb target src (n + k) ps' in
        (cb (src <$> seq n k) p :: r, n')
      else
        let '(r, n') := patch_drawing k cb target src n ps' in
        (p :: r, n')
  end.

Definition patchProjectU (k : nat) (cb : list string → Project → Project)
    (st : State) : State :=
  match project st with
  | Some pr =>
      let '(ps, n) := patch_drawing k cb (p_id pr) (uid_source st) (uid_next st)
                        (projects st) in
      mkState (auth st) ps (activeProjectId st) (activeFileId st) (openTabs st)
        (search st) (selectedIds st) (moveTarget st) (termInput st) (logs st)
        (uid_source st) n (outbox st) (storage st)
  | None => st
  end.

(** The buttons [New file] and [New folder]: a node at the root, its id
    drawn first and the id in its name second. *)
Definition newNode (k : Kind) (mkname : string → string) (st : State) : State :=
  patchProjectU 2 (λ ids p,
    with_files (p_files p ++
      [mkFile (default "" (ids !! 0)) (mkname (default "" (ids !! 1))) k "" None]) p) st.

Definition newFile : State → State := newNode KFile (λ n, "new-" +:+ n +:+ ".js").
Definition newFolder : State → State := newNode KFolder (λ n, "folder-" +:+ n).

(** [Move selected] arms the target, [Drop into folder] re-parents the
    selected nodes. *)
Definition moveSelected (st : State) : option State :=
  pr ← project st;
  Some (setMoveTarget
          ((f_id ∘ snd) <$> list_find (λ f, f_kind f = KFolder) (p_files pr)) st).

Definition reparent_selected (sel : list string) (target : option string)
    (files : list FileItem) : list FileItem :=
  (λ f, if decide (f_id f ∈ sel) then with_parentId target f else f) <$> files.

Definition dropIntoFolder (st : State) : State :=
  match moveTarget st with
  | None | Some "" => st
  | Some t =>
      let st1 := patchProject (λ p,
        with_files (reparent_selected (selectedIds st) (Some t) (p_files p)) p) st in
      setMoveTarget None (setSelectedIds [] st1)
  end.

(** ** Document collection SDK ([window.db.collection(name)])

    [p.collections] is a plain object used as a map: [p.collections[name]]
    finds the collection the workspace owns under the name or, failing
    that, the property that [Object.prototype] has under it. *)

(** [String(v)] *)
Definition toString (v : JsVal) : string :=
  match v with
  | VUndefined => "undefined"
  | VNull => "null"
  | VBool true => "true"
  | VBool false => "false"
  | VNum z => pretty z
  | VStr s => s
  end.

(** [v ?? d] *)
Definition nullish (v d : JsVal) : JsVal :=
  match v with
  | VUndefined | VNull => d
  | _ => v
  end.

(** [o.k], [undefined] for a key the object lacks.  The keys the page
    reads ([id], [name], [published] and the keys of a message) are none
    of [Object.prototype]. *)
Definition get (o : JsObj) (k : string) : JsVal := default VUndefined (o !! k).

(** The property names of [Object.prototype]. *)
Definition object_prototype_names : list string :=
  ["constructor"; "hasOwnProperty"; "isPrototypeOf"; "propertyIsEnumerable";
   "toLocaleString"; "toString"; "valueOf"; "__proto__";
   "__defineGetter__"; "__defineSetter__"; "__lookupGetter__"; "__lookupSetter__"].

(** [p.collections[name]] is not a collection of the workspace but the
    property of [Object.prototype]: a function or an object, not an array,
    and not nullish. *)
Definition inherited (name : string) (p : Project) : Prop :=
  p_collections p !! name = None ∧ name ∈ object_prototype_names.

Global Instance inherited_dec name p : Decision (inherited name p).
Proof. unfold inherited. apply _. Defined.

(** [p.collections[name] ?? []] where the property is not [inherited]:
    the records of the collection, none when the workspace has no such
    collection. *)
Definition docs_of (name : string) (p : Project) : list JsObj :=
  default [] (p_collections p !! name).

(** [{ id: uid(), name: String(data.name ?? "doc"), ...data }]: the keys of
    [data] are written last. *)
Definition newDoc (i : string) (data : JsObj) : JsObj :=
  data ∪ <["id" := VStr i]>
           (<["name" := VStr (toString (nullish (get data "name") (VStr "doc")))]> ∅).

(** What a call of the SDK evaluates to; [RetProperty name] is the
    property of [Object.prototype] under [name]. *)
Inductive Returned :=
  | RetUndefined
  | RetDoc (d : JsObj)
  | RetDocs (l : list JsObj)
  | RetProperty (name : string).

(** A handle [window.db.collection(name)].  Its methods close over [name]
    and over [project] and [patchProject] of the render whose effect
    installed [window.db]; the effect runs again after every render that
    has another [project]. *)
Record Handle := mkHandle { h_name : string; h_project : option Project }.

(** [window.db.collection(name)], evaluated in the render of [st]. *)
Definition collection (name : string) (st : State) : Handle :=
  mkHandle name (project st).

(** [patchProject] as the closure a handle keeps: [closure] is [project]
    of the render that made the handle, [st] the state the updater meets.
    For a handler of the page the two are the same render, and this is
    [patchProject]. *)
Definition patchProjectOf (closure : option Project) (cb : Project → Project)
    (st : State) : State :=
  match closure with
  | Some pr =>
      setProjects ((λ p, if decide (p_id p = p_id pr) then cb p else p) <$> projects st) st
  | None => st
  end.

Definition patchProjectUOf (closure : option Project) (k : nat)
    (cb : list string → Project → Project) (st : State) : State :=
  match closure with
  | Some pr =>
      let '(ps, n) := patch_drawing k cb (p_id pr) (uid_source st) (uid_next st)
                        (projects st) in
      mkState (auth st) ps (activeProjectId st) (activeFileId st) (openTabs st)
        (search st) (selectedIds st) (moveTarget st) (termInput st) (logs st)
        (uid_source st) n (outbox st) (storage st)
  | None => st
  end.

(** The updaters of [addDoc], [updateDoc] and [deleteDoc] spread, map or
    filter [p.collections[name] ?? []] for every workspace they rewrite;
    on an inherited property that throws a [TypeError].  When the render
    of the handle had no project, reading [project.id] throws at the first
    workspace the map visits. *)
Definition sdk_throws (h : Handle) (st : State) : Prop :=
  match h_project h with
  | Some pr => Exists (λ p, p_id p = p_id pr ∧ inherited (h_name h) p) (projects st)
  | None => 0 < length (projects st)
  end.

Global Instance sdk_throws_dec h st : Decision (sdk_throws h st).
Proof. unfold sdk_throws. destruct (h_project h); apply _. Defined.

(** [getDocs: () => project.collections[name] ?? []], on the project of
    the handle's render.  [None]: that render had no project, and reading
    [project.collections] throws. *)
Definition getDocs (h : Handle) : option Returned :=
  pr ← h_project h;
  Some (match p_collections pr !! h_name h with
        | Some docs => RetDocs docs
        | None =>
            if decide (h_name h ∈ object_prototype_names)
            then RetProperty (h_name h) else RetDocs []
        end).

(** [addDoc]; [patchProject] has a block body without [return], so the
    call evaluates to [undefined].  [None] here and below: the updater
    throws (see [sdk_throws]) and the page goes down with it. *)
Definition addDoc (h : Handle) (data : JsObj) (st : State)
    : option (Returned * State) :=
  if decide (sdk_throws h st) then None else
  Some (RetUndefined,
        patchProjectUOf (h_project h) 1 (λ ids p,
          with_collections
            (<[h_name h :=
                 docs_of (h_name h) p ++ [newDoc (default "" (ids !! 0)) data]]>
               (p_collections p)) p) st).

(** [updateDoc]: [{ ...d, ...data }] for the records with [d.id === id]. *)
Definition updateDoc (h : Handle) (id : string) (data : JsObj) (st : State)
    : option (Returned * State) :=
  if decide (sdk_throws h st) then None else
  Some (RetUndefined,
        patchProjectOf (h_project h) (λ p,
          with_collections
            (<[h_name h :=
                 (λ d, if decide (get d "id" = VStr id) then data ∪ d else d)
                   <$> docs_of (h_name h) p]> (p_collections p)) p) st).

(** [deleteDoc]: keeps the records with [d.id !== id]. *)
Definition deleteDoc (h : Handle) (id : string) (st : State)
    : option (Returned * State) :=
  if decide (sdk_throws h st) then None else
  Some (RetUndefined,
        patchProjectOf (h_project h) (λ p,
          with_collections
            (<[h_name h := filter (λ d, get d "id" ≠ VStr id) (docs_of (h_name h) p)]>
               (p_collections p)) p) st).

(** ** Terminal *)

(** [String.prototype.trim] removes the white space and line terminator
    code points from both ends.  In UTF-8 they are the one-byte codes 9 to
    13 and 32, the two bytes of U+00A0, and the three bytes of U+1680,
    U+2000 to U+200A, U+2028, U+2029, U+202F, U+205F, U+3000 and U+FEFF. *)
Definition ws1 (a : ascii) : bool :=
  let n := nat_of_ascii a in
  (((9 <=? n) && (n <=? 13)) || (n =? 32))%nat.

Definition ws2 (a b : ascii) : bool :=
  ((nat_of_ascii a =? 194) && (nat_of_ascii b =? 160))%nat.

Definition ws3 (a b c : ascii) : bool :=
  let '(x, y, z) := (nat_of_ascii a, nat_of_ascii b, nat_of_ascii c) in
  (((x =? 225) && (y =? 154) && (z =? 128)) ||
   ((x =? 226) && (y =? 128) &&
      (((128 <=? z) && (z <=? 138)) || (z =? 168) || (z =? 169) || (z =? 175))) ||
   ((x =? 226) && (y =? 129) && (z =? 159)) ||
   ((x =? 227) && (y =? 128) && (z =? 128)) ||
   ((x =? 239) && (y =? 187) && (z =? 191)))%nat.

Fixpoint trimStart (s : string) : string :=
  match s with
  | String a r1 =>
      if ws1 a then trimStart r1 else
      match r1 with
      | String b r2 =>
          if ws2 a b then trimStart r2 else
          match r2 with
          | String c r3 => if ws3 a b c then trimStart r3 else s
          | EmptyString => s
          end
      | EmptyString => s
      end
  | EmptyString => s
  end.

(** The same from the end, on the reversed bytes. *)
Fixpoint trimStart_rev (s : string) : string :=
  match s with
  | String a r1 =>
      if ws1 a then trimStart_rev r1 else
      match r1 with
      | String b r2 =>
          if ws2 b a then trimStart_rev r2 else
          match r2 with
          | String c r3 => if ws3 c b a then trimStart_rev r3 else s
          | EmptyString => s
          end
      | EmptyString => s
      end
  | EmptyString => s
  end.

Definition trimEnd (s : string) : string :=
  String.rev (trimStart_rev (String.rev s)).

Definition trim (s : string) : string := trimEnd (trimStart s).

(** [s.replaceAll(pat, rep)] for a non-empty [pat]: the occurrences of
    [pat] are found from the left, each search starting after the previous
    occurrence.  [skip] counts the bytes of an occurrence still to pass. *)
Fixpoint replaceAll_from (skip : nat) (pat rep s : string) : string :=
  match s with
  | EmptyString => EmptyString
  | String a r =>
      match skip with
      | S k => replaceAll_from k pat rep r
      | 0 =>
          if String.prefix pat s
          then rep +:+ replaceAll_from (String.length pat - 1) pat rep r
          else String a (replaceAll_from 0 pat rep r)
      end
  end.

Definition replaceAll (pat rep s : string) : string := replaceAll_from 0 pat rep s.

(** [addLog]: [setLogs((p) => [...p, { id: uid(), level, message }])] *)
Definition addLog (level : LogLevel) (message : string) (st : State) : State :=
  let '(i, st1) := uid st in
  setLogs (logs st1 ++ [mkEntry i level message]) st1.

(** [names.join(", ")] *)
Definition join (sep : string) (l : list string) : string := String.concat sep l.

(** [runTerminal] *)
Definition runTerminal (st : State) : option State :=
  let cmd := trim (termInput st) in
  if decide (cmd = "") then Some st else
  let st1 := addLog Info ("> " +:+ cmd) st in
  st2 ←
    (if decide (cmd = "!help") then
       Some (addLog Success "!run !fix code !list !clear !help" st1)
     else if decide (cmd = "!run") then
       Some (addLog Success "Preview executed." st1)
     else if decide (cmd = "!fix code") then
       match activeFile st with
       | None => Some (addLog Error "No active file." st1)
       | Some af =>
           Some (addLog Success "Applied quick fix: var -> const"
                   (patchProject (λ p, with_files
                      ((λ f, if decide (f_id f = f_id af)
                             then with_content (replaceAll "var " "const " (f_content f)) f
                             else f) <$> p_files p) p) st1))
       end
     else if decide (cmd = "!list") then
       pr ← project st;
       Some (addLog Info (join ", " (f_name <$> p_files pr)) st1)
     else if decide (cmd = "!clear") then Some (setLogs [] st1)
     else Some (addLog Error "Unknown command" st1));
  Some (setTermInput "" st2).

(** ** File tree *)

(** [s.includes(t)] *)
Fixpoint includes (s t : string) : bool :=
  String.prefix t s ||
  match s with
  | EmptyString => false
  | String _ s' => includes s' t
  end.

(** [s.repeat(n)] *)
Fixpoint repeat_string (s : string) (n : nat) : string :=
  match n with
  | 0 => ""
  | S k => s +:+ repeat_string s k
  end.

(** A row of the tree: [{ ...f, label }]. *)
Record Row := mkRow { r_file : FileItem; r_label : string }.

Definition label (depth : nat) (f : FileItem) : string :=
  repeat_string "  " depth +:+
  (match f_kind f with KFolder => "📁" | KFile => "📄" end) +:+ " " +:+ f_name f.

(** [Number(f.kind === "file")] *)
Definition is_file (f : FileItem) : Z :=
  if decide (f_kind f = KFile) then 1%Z else 0%Z.

(** [Array.prototype.sort] is stable; for a comparator that orders the
    elements consistently every stable sort returns the same array, the
    one insertion from the right builds. *)
Fixpoint insert_sorted {A} (cmp : A → A → Z) (x : A) (l : list A) : list A :=
  match l with
  | [] => [x]
  | y :: l' =>
      if decide (cmp x y ≤ 0)%Z then x :: l else y :: insert_sorted cmp x l'
  end.

Definition sort {A} (cmp : A → A → Z) (l : list A) : list A :=
  foldr (insert_sorted cmp) [] l.

(** The arrays of file items live in a heap and are passed by reference:
    [filter] allocates a new array, [sort] writes the array it is given,
    [flatMap] reads the array it walks at every index.  The arrays of rows
    that [flatMap] builds are never written and are returned as values. *)
Abbreviation Heap := (list (list FileItem)).

Definition array_filter (P : FileItem → Prop) `{∀ f, Decision (P f)}
    (r : nat) (h : Heap) : option (nat * Heap) :=
  a ← h !! r; Some (length h, h ++ [filter P a]).

Definition array_sort (cmp : FileItem → FileItem → Z) (r : nat) (h : Heap)
    : option (nat * Heap) :=
  a ← h !! r; Some (r, <[r := sort cmp a]> h).

Fixpoint flatMap_from {B} (cb : FileItem → Heap → option (list B * Heap))
    (r i todo : nat) (h : Heap) : option (list B * Heap) :=
  match todo with
  | 0 => Some ([], h)
  | S todo' =>
      a ← h !! r;
      match a !! i with
      | None => flatMap_from cb r (S i) todo' h
      | Some x =>
          '(ys, h1) ← cb x h;
          '(zs, h2) ← flatMap_from cb r (S i) todo' h1;
          Some (ys ++ zs, h2)
      end
  end.

Definition array_flatMap {B} (cb : FileItem → Heap → option (list B * Heap))
    (r : nat) (h : Heap) : option (list B * Heap) :=
  a ← h !! r; flatMap_from cb r 0 (length a) h.

Section Tree.
(** [String.prototype.localeCompare] and [toLowerCase] of the host. *)
Variable localeCompare : string → string → Z.
Variable toLowerCase : string → string.

(** [Number(a.kind === "file") - Number(b.kind === "file")
     || a.name.localeCompare(b.name)] *)
Definition compareRows (a b : FileItem) : Z :=
  let k := (is_file a - is_file b)%Z in
  if decide (k = 0%Z) then localeCompare (f_name a) (f_name b) else k.

(** [f.name.toLowerCase().includes(search.toLowerCase())] *)
Definition matches (search : string) (f : FileItem) : bool :=
  includes (toLowerCase (f_name f)) (toLowerCase search).

(** [listTree(parentId, depth)] over the array [filtered]. *)
Fixpoint listTree (fuel : nat) (filtered : nat) (parentId : option string)
    (depth : nat) (h : Heap) : option (list Row * Heap) :=
  match fuel with
  | 0 => None
  | S n =>
      '(r1, h1) ← array_filter (λ f, f_parentId f = parentId) filtered h;
      '(r2, h2) ← array_sort compareRows r1 h1;
      array_flatMap (λ f h',
        match f_kind f with
        | KFolder =>
            '(rest, h'') ← listTree n filtered (Some (f_id f)) (S depth) h';
            Some (mkRow f (label depth f) :: rest, h'')
        | KFile => Some ([mkRow f (label depth f)], h')
        end) r2 h2
  end.

(** The tree a render shows: [filtered] is computed from the files of the
    project, then [listTree(null)] runs. *)
Definition renderTree (fuel : nat) (st : State) : option (list Row) :=
  pr ← project st;
  '(filtered, h) ← array_filter (λ f, matches (search st) f = true) 0 [p_files pr];
  fst <$> listTree fuel filtered None 0 h.

(** The rows of [listTree] as a function of the content of [filtered]. *)
Fixpoint tree_rows (fuel : nat) (fl : list FileItem) (parentId : option string)
    (depth : nat) : option (list Row) :=
  match fuel with
  | 0 => None
  | S n =>
      mjoin <$> mapM (λ f,
        match f_kind f with
        | KFolder =>
            rest ← tree_rows n fl (Some (f_id f)) (S depth);
            Some (mkRow f (label depth f) :: rest)
        | KFile => Some [mkRow f (label depth f)]
        end) (sort compareRows (filter (λ f, f_parentId f = parentId) fl))
  end.
End Tree.

(** A collation for the examples: the order of the bytes. *)
Definition byte_order (a b : string) : Z :=
  match String.compare a b with
  | Lt => (-1)%Z
  | Eq => 0%Z
  | Gt => 1%Z
  end.

(** Lower case for the letters A to Z. *)
Fixpoint ascii_lower (s : string) : string :=
  match s with
  | EmptyString => EmptyString
  | String c r =>
      let n := nat_of_ascii c in
      String (if ((65 <=? n) && (n <=? 90))%nat then ascii_of_nat (n + 32) else c)
             (ascii_lower r)
  end.

(** ** Editor and cross-tab channel *)

Definition set_content (id v : string) (files : list FileItem) : list FileItem :=
  (λ f, if decide (f_id f = id) then with_content v f else f) <$> files.

(** [{ type: "sync", projectId: project.id, fileId: activeFile.id,
       content: v, actor: "remote" }] *)
Definition sync_message (projectId fileId v : string) : JsObj :=
  {[ "type" := VStr "sync"; "projectId" := VStr projectId;
     "fileId" := VStr fileId; "content" := VStr v; "actor" := VStr "remote" ]}.

(** [onChange] of the editor with the new text [v].  The handler also sets
    the cursor display, which nothing else reads; it is left out. *)
Definition editorChange (v : string) (st : State) : State :=
  match activeFile st, project st with
  | Some af, Some pr =>
      let st1 := patchProject (λ p,
        with_files (set_content (f_id af) v (p_files p)) p) st in
      if decide (auth st = User)
      then postMessage (sync_message (p_id pr) (f_id af) v) st1
      else st1
  | _, _ => st
  end.

(** [onmessage] of the channel.  [None]: the content of the message is not
    a string, which the type of the message excludes. *)
Definition onMessage (msg : JsObj) (st : State) : option State :=
  if decide (get msg "type" ≠ VStr "sync" ∨ get msg "actor" ≠ VStr "remote")
  then Some st
  else
    match get msg "content" with
    | VStr c =>
        let st1 := setProjects
          ((λ p, if decide (VStr (p_id p) ≠ get msg "projectId") then p
                 else with_files
                        ((λ f, if decide (VStr (f_id f) = get msg "fileId")
                               then with_content c f else f) <$> p_files p) p)
             <$> projects st) st in
        Some (addLog Info "Collab update received" st1)
    | _ => None
    end.

(** Clicking a row of the tree. *)
Definition openFile (f : FileItem) (st : State) : State :=
  match f_kind f with
  | KFile =>
      setOpenTabs (if decide (f_id f ∈ openTabs st) then openTabs st
                   else openTabs st ++ [f_id f])
        (setActiveFileId (f_id f) st)
  | KFolder => st
  end.

(** ** Workspaces *)

(** [makeDefaultFiles] *)
Definition makeDefaultFiles (st : State) : list FileItem * State :=
  let '(src, st) := uid st in
  let '(i1, st) := uid st in
  let '(i2, st) := uid st in
  let '(i3, st) := uid st in
  let '(i4, st) := uid st in
  let '(i5, st) := uid st in
  let '(i6, st) := uid st in
  ([ mkFile src "src" KFolder "" None;
     mkFile i1 "CodeSpace.cs" KFile "// Core scripts" (Some src);
     mkFile i2 "React Hooks.rh" KFile "// Hooks registry" (Some src);
     mkFile i3 "Server Utilities.su" KFile "// Server utilities" (Some src);
     mkFile i4 "index.html" KFile "<h1>CodeFlow IDE v1</h1>" None;
     mkFile i5 "styles.css" KFile
       "body{font-family:Inter,sans-serif;background:#111827;color:#e5e7eb}" None;
     mkFile i6 "main.js" KFile "console.log('CodeFlow v1 loaded')" None ],
   st).

(** [makeProject(name, type)]; the defaults are [Main Workspace] and [2d].
    The two scene objects draw an id each. *)
Definition makeProject (name : string) (type : ProjectType) (st : State)
    : Project * State :=
  let '(i, st) := uid st in
  let '(files, st) := makeDefaultFiles st in
  let '(_, st) := uid st in
  let '(_, st) := uid st in
  (mkProject i name type files [] []
     {[ "3D Models" := []; "appData" := [] ]} [], st).

(** The button that adds a workspace, with the answers of [prompt] and
    [confirm]. *)
Definition newWorkspace (answer : option string) (is3d : bool) (st : State) : State :=
  let fallback := "Workspace " +:+ pretty (length (projects st) + 1) in
  let name := match answer with
              | None | Some "" => fallback
              | Some n => n
              end in
  let '(p, st1) := makeProject name (if is3d then P3d else P2d) st in
  setActiveProjectId (p_id p) (setProjects (projects st1 ++ [p]) st1).

(** How a handler ends: it returns, or it throws after it has queued
    updates; either way React applies the queued updates, and [st] is the
    state they give. *)
Inductive Outcome :=
  | Returns (st : State)
  | Throws (st : State).

Definition state_of (o : Outcome) : State :=
  match o with Returns st | Throws st => st end.

(** The button that deletes the active workspace.  When [remaining] is
    empty, [setProjects(remaining)] is queued before reading
    [remaining[0].id] throws. *)
Definition deleteWorkspace (st : State) : Outcome :=
  if decide (length (projects st) = 1) then Returns st else
  let remaining :=
    match project st with
    | Some pr => filter (λ p, p_id p ≠ p_id pr) (projects st)
    | None => []
    end in
  let st1 := setProjects remaining st in
  match remaining with
  | [] => Throws st1
  | r :: _ => Returns (setActiveProjectId (p_id r) st1)
  end.

(** [a || b] on strings *)
Definition or_else (a b : string) : string := if decide (a = "") then b else a.

(** The effect that runs once at startup and reads the local storage.
    [None]: there is neither a stored blob nor a workspace, and reading
    [projects[0].id] throws. *)
Definition startup (st : State) : option State :=
  match storage st with
  | Some parsed =>
      let st1 := setAuth (s_auth parsed) st in
      let st2 :=
        match s_projects parsed with
        | [] => let '(p, s) := makeProject "Main Workspace" P2d st1 in setProjects [p] s
        | ps => setProjects ps st1
        end in
      Some (setActiveProjectId
              (or_else (s_activeProjectId parsed)
                 (or_else (default "" (p_id <$> head (s_projects parsed))) "")) st2)
  | None =>
      if decide (activeProjectId st = "") then
        p ← head (projects st); Some (setActiveProjectId (p_id p) st)
      else Some st
  end.

(** The state of the first render: one default workspace. *)
Definition initial (src : nat → string) (stored : option Persisted) : State :=
  let st0 := mkState Guest [] "" "" [] "" [] None ""
               [mkEntry (src 10) Info "!help for commands"] src 0 [] stored in
  let '(p, st1) := makeProject "Main Workspace" P2d st0 in
  let '(_, st2) := uid st1 in
  setProjects [p] st2.

(** ** The handlers as the actions of the page *)

Inductive Action :=
  | Startup
  | ToggleAuth
  | NewWorkspace (answer : option string) (is3d : bool)
  | DeleteWorkspace
  | SwitchWorkspace (id : string)
  | NewFile
  | NewFolder
  | OpenFile (f : FileItem)
  | Select (ids : list string)
  | RenameFile (id : string) (answer : option string)
  | MoveFile (id : string)
  | DeleteFile (fuel : nat) (id : string)
  | MoveSelected
  | DropIntoFolder
  | TypeTerminal (s : string)
  | RunTerminal
  | EditorChange (v : string)
  | ReceiveMessage (msg : JsObj)
  | AddDoc (name : string) (data : JsObj)
  | UpdateDoc (name id : string) (data : JsObj)
  | DeleteDoc (name id : string).

(** The state after a handler.  [None]: the handler does not return
    ([descendants] recurses without end), or an updater it queued throws,
    and no state follows.  The delete button can throw after it queued its
    updates; they are applied all the same and give the next state (see
    [Outcome]).  A script that calls the SDK takes its handle from
    [window.db] at that moment. *)
Definition step (a : Action) (st : State) : option State :=
  match a with
  | Startup => startup st
  | ToggleAuth => Some (setAuth (match auth st with Guest => User | User => Guest end) st)
  | NewWorkspace answer is3d => Some (newWorkspace answer is3d st)
  | DeleteWorkspace => Some (state_of (deleteWorkspace st))
  | SwitchWorkspace id => Some (setActiveProjectId id st)
  | NewFile => Some (newFile st)
  | NewFolder => Some (newFolder st)
  | OpenFile f => Some (openFile f st)
  | Select ids => Some (setSelectedIds ids st)
  | RenameFile id answer => renameFile id answer st
  | MoveFile id => moveFile id st
  | DeleteFile fuel id => deleteFile fuel id st
  | MoveSelected => moveSelected st
  | DropIntoFolder => Some (dropIntoFolder st)
  | TypeTerminal s => Some (setTermInput s st)
  | RunTerminal => runTerminal st
  | EditorChange v => Some (editorChange v st)
  | ReceiveMessage msg => onMessage msg st
  | AddDoc name data => snd <$> addDoc (collection name st) data st
  | UpdateDoc name id data => snd <$> updateDoc (collection name st) id data st
  | DeleteDoc name id => snd <$> deleteDoc (collection name st) id st
  end.

(** ** Further handlers of the page *)

Definition with_connected (c : list string) (p : Project) : Project :=
  mkProject (p_id p) (p_name p) (p_type p) (p_files p) c
    (p_collaborators p) (p_collections p) (p_apiKeys p).

(** [runFindReplace], with the find text, the replace text and the
    replace switch of the component.  [None]: the replacement contains a
    [$], which [replaceAll] reads as a pattern; that is outside the
    embedding. *)
Definition runFindReplace (findText replaceText : string) (replaceEnabled : bool)
    (st : State) : option State :=
  match activeFile st with
  | None => Some st
  | Some af =>
      if decide (findText = "") then Some st else
      let rep := if replaceEnabled then replaceText else findText in
      if includes rep "$" then None else
      Some (patchProject (λ p, with_files
              ((λ f, if decide (f_id f = f_id af)
                     then with_content (replaceAll findText rep (f_content f)) f
                     else f) <$> p_files p) p) st)
  end.

(** The button [Bulk delete]. *)
Definition bulkDelete (fuel : nat) (st : State) : option State :=
  pr ← project st;
  dss ← mapM (λ id, ds ← descendants fuel (p_files pr) id; Some (id :: ds))
             (selectedIds st);
  let all := mjoin dss in
  Some (setSelectedIds []
          (patchProject (λ p, with_files (remove_ids all (p_files p)) p) st)).

(** The check box of a row in selection mode. *)
Definition toggleSelected (id : string) (checked : bool) (st : State) : State :=
  setSelectedIds (if checked then selectedIds st ++ [id]
                  else filter (λ x, x ≠ id) (selectedIds st)) st.

(** [Upload], once the text of the file has arrived. *)
Definition uploadFile (name text : string) (st : State) : State :=
  patchProjectU 1 (λ ids p,
    with_files (p_files p ++ [mkFile (default "" (ids !! 0)) name KFile text None]) p) st.

(** [Array.from(new Set(l))]: the first occurrence of every element. *)
Definition dedupe (l : list string) : list string :=
  foldl (λ acc x, if decide (x ∈ acc) then acc else acc ++ [x]) [] l.

(** The button [Connect]. *)
Definition connectWorkspace (st : State) : State :=
  match project st with
  | None => st
  | Some pr =>
      match list_find (λ p, p_id p ≠ p_id pr) (projects st) with
      | None => st
      | Some (_, target) =>
          patchProject (λ p,
            with_connected (dedupe (p_connected p ++ [p_id target])) p) st
      end
  end.

(** [syncConnected]: every connected workspace receives a copy of the
    source files, each copy under an id of its own. *)
Fixpoint sync_into (sourceFiles : list FileItem) (connected : list string)
    (src : nat → string) (n : nat) (ps : list Project) : list Project * nat :=
  match ps with
  | [] => ([], n)
  | p :: ps' =>
      if decide (p_id p ∈ connected) then
        let copies :=
          zip_with (λ f i, mkFile i (f_name f) (f_kind f) (f_content f) (f_parentId f))
                   sourceFiles (src <$> seq n (length sourceFiles)) in
        let '(r, n') := sync_into sourceFiles connected src
                          (n + length sourceFiles) ps' in
        (with_files (p_files p ++ copies) p :: r, n')
      else
        let '(r, n') := sync_into sourceFiles connected src n ps' in
        (p :: r, n')
  end.

Definition sync_sources (files : list FileItem) : list FileItem :=
  let srcId := (f_id ∘ snd) <$> list_find (λ x, f_name x = "src") files in
  filter (λ f, f_parentId f = None ∨ f_parentId f = srcId) files.

Definition syncConnected (st : State) : option State :=
  pr ← project st;
  if decide (p_connected pr = []) then Some st else
  let '(ps, n) := sync_into (sync_sources (p_files pr)) (p_connected pr)
                    (uid_source st) (uid_next st) (projects st) in
  Some (addLog Success "Synced resources to connected workspaces."
          (mkState (auth st) ps (activeProjectId st) (activeFileId st) (openTabs st)
             (search st) (selectedIds st) (moveTarget st) (termInput st) (logs st)
             (uid_source st) n (outbox st) (storage st))).

(** The button [Add] of the collections panel.  [None]: the name is an
    inherited property for a workspace the handler rewrites; the handler
    stores that property as the collection, and the render that follows
    selects it and throws at [.map]. *)
Definition addCollection (newCollection : string) (st : State) : option State :=
  if decide (newCollection = "") then Some st else
  if decide (sdk_throws (collection newCollection st) st) then None else
  Some (patchProject (λ p, with_collections
    (<[newCollection := docs_of newCollection p]> (p_collections p)) p) st).

(** [!v] *)
Definition falsy (v : JsVal) : bool :=
  match v with
  | VUndefined | VNull | VBool false => true
  | VNum z => bool_decide (z = 0%Z)
  | VStr s => bool_decide (s = "")
  | VBool true => false
  end.

(** [publishModel]: [{ ...m, published: !m.published }] for the models
    with [m.id === id]. *)
Definition toggle_published (id : string) (m : JsObj) : JsObj :=
  if decide (get m "id" = VStr id)
  then <["published" := VBool (falsy (get m "published"))]> m
  else m.

Definition publishModel (id : string) (st : State) : State :=
  patchProject (λ p, with_collections
    (<["3D Models" := toggle_published id <$> docs_of "3D Models" p]>
       (p_collections p)) p) st.

(** [s.endsWith(suffix)] *)
Definition endsWith (s suffix : string) : bool :=
  String.prefix (String.rev suffix) (String.rev s).

(** [files.find((f) => f.name.endsWith(ext))?.content ?? ""] *)
Definition first_content (ext : string) (files : list FileItem) : string :=
  default "" ((f_content ∘ snd) <$> list_find (λ f, endsWith (f_name f) ext = true) files).

(** [preview] *)
Definition preview (files : list FileItem) : string :=
  "<!doctype html><html><head><style>" +:+ first_content ".css" files +:+
  "</style></head><body>" +:+ first_content ".html" files +:+
  "<script>" +:+ first_content ".js" files +:+ "</script></body></html>".

(** ** The forest invariant *)

(** [child_of files p c]: some node with id [c] has parent reference [p]. *)
Definition child_of (files : list FileItem) (p c : string) : Prop :=
  ∃ f, f ∈ files ∧ f_id f = c ∧ f_parentId f = Some p.

(** [ancestor files a d]: [a] is on the parent chain of [d]. *)
Definition ancestor (files : list FileItem) : relation string := tc (child_of files).

(** No node is on its own parent chain. *)
Definition forest (files : list FileItem) : Prop := ∀ x, ¬ ancestor files x x.

(** ** Auxiliary notions for the statements *)

(** The commands of the terminal. *)
Definition terminal_tokens : list string :=
  ["!run"; "!fix code"; "!list"; "!clear"; "!help"].

(** [!fix code] on the file list, for the active file [af]. *)
Definition quick_fix (af : FileItem) (files : list FileItem) : list FileItem :=
  (λ f, if decide (f_id f = f_id af)
        then with_content (replaceAll "var " "const " (f_content f)) f
        else f) <$> files.

(** The file list of the active project. *)
Definition active_files (st : State) : list FileItem :=
  match project st with
  | Some pr => p_files pr
  | None => []
  end.

(** [s.slice(k)] *)
Fixpoint string_drop (k : nat) (s : string) : string :=
  match k, s with
  | S k', String _ r => string_drop k' r
  | _, _ => s
  end.

(** Strings made of the one-byte white space only. *)
Fixpoint blank (s : string) : bool :=
  match s with
  | EmptyString => true
  | String a r => ws1 a && blank r
  end.

(** A string that starts with an ASCII character other than white space. *)
Definition starts_plain (s : string) : bool :=
  match s with
  | EmptyString => false
  | String a _ => (nat_of_ascii a <? 128)%nat && negb (ws1 a)
  end.

(** *** The listing in the words of the specification

    [before]: a folder comes before a file, and two nodes of one kind are
    in the order of their names. *)
Definition before (localeCompare : string → string → Z) (a b : FileItem) : Prop :=
  (f_kind a = KFile → f_kind b = KFile) ∧
  (f_kind a = f_kind b → (localeCompare (f_name a) (f_name b) ≤ 0)%Z).

(** [spec_listing fl parentId depth rows]: [rows] list the nodes of [fl]
    below [parentId] depth first.  They are the sibling group of
    [parentId] in an order that respects [before], each node as its row,
    followed for a folder by the listing of the group under it and for a
    file by nothing. *)
#[local] Unset Elimination Schemes.
Inductive spec_listing (localeCompare : string → string → Z) (fl : list FileItem)
    : option string → nat → list Row → Prop :=
  | spec_listing_group parentId depth group blocks :
      group ≡ₚ filter (λ f, f_parentId f = parentId) fl →
      (∀ i j a b, i < j → group !! i = Some a → group !! j = Some b →
         before localeCompare a b) →
      Forall2 (λ f block, ∃ rest,
                 block = mkRow f (label depth f) :: rest ∧
                 (f_kind f = KFolder →
                    spec_listing localeCompare fl (Some (f_id f)) (S depth) rest) ∧
                 (f_kind f = KFile → rest = []))
              group blocks →
      spec_listing localeCompare fl parentId depth (mjoin blocks).
#[local] Set Elimination Schemes.

(** ** Example states *)

(** A source of ids: [x7k2m100], [x7k2m101], ... *)
Definition sample_ids : nat → string := λ n, "x7k2m" +:+ pretty (100 + n).

(** A page with one workspace [w0rkspc1] owning [files] and the
    collections [colls]. *)
Definition page_with (files : list FileItem) (colls : gmap string (list JsObj))
    : State :=
  mkState Guest
    [mkProject "w0rkspc1" "Main Workspace" P2d files [] [] colls []]
    "w0rkspc1" "" [] "" [] None "" [] sample_ids 0 [] None.

(** The same page after the files [tabs] were opened, [active] last. *)
Definition opened (tabs : list string) (active : string) (st : State) : State :=
  setActiveFileId active (setOpenTabs tabs st).

(** The record that [addDoc("notes", {text: "hi"})] stores on a fresh
    workspace, and the page after the call. *)
Definition first_note : JsObj :=
  {[ "id" := VStr "x7k2m100"; "name" := VStr "doc"; "text" := VStr "hi" ]}.

Definition page_one_note : State :=
  mkState Guest
    [mkProject "w0rkspc1" "Main Workspace" P2d [] [] [] {[ "notes" := [first_note] ]} []]
    "w0rkspc1" "" [] "" [] None "" [] sample_ids 1 [] None.

(** The first render without a stored blob, and the same after a second
    workspace was added. *)
Definition fresh_page : State := initial sample_ids None.
Definition two_workspaces : State := newWorkspace (Some "Second") false fresh_page.

(** A first render that finds a stored blob without workspaces. *)
Definition page_stored_empty : State :=
  initial sample_ids (Some (mkPersisted User [] "")).

(** The same page, logged in. *)
Definition logged_in (st : State) : State := setAuth User st.

(** The message of the cross-tab channel in the words of the specification. *)
Definition spec_sync_message (workspaceId fileId v actor : string) : JsObj :=
  {[ "kind" := VStr "sync"; "workspaceId" := VStr workspaceId;
     "fileId" := VStr fileId; "content" := VStr v; "actor" := VStr actor ]}.

(** A page with the collection [3D Models] holding one unpublished model. *)
Definition page_one_model : State :=
  page_with []
    {[ "3D Models" := [ {[ "id" := VStr "m0de1001"; "name" := VStr "Model-1";
                            "published" := VBool false ]} ] ]}.

(** The page with [s] typed into the terminal. *)
Definition typed (s : string) (st : State) : State := setTermInput s st.

(** Two folders and three files, out of order. *)
Definition mixed_tree : list FileItem :=
  [ mkFile "f1f1f1f1" "zeta.js" KFile "" None;
    mkFile "d1d1d1d1" "lib" KFolder "" None;
    mkFile "f2f2f2f2" "alpha.js" KFile "" None;
    mkFile "d2d2d2d2" "app" KFolder "" None;
    mkFile "f3f3f3f3" "util.js" KFile "" (Some "d1d1d1d1");
    mkFile "d3d3d3d3" "core" KFolder "" (Some "d1d1d1d1") ].

(** A folder [app] at the root holding a folder [lib]. *)
Definition nested_folders : list FileItem :=
  [ mkFile "q1w2e3r4" "app" KFolder "" None;
    mkFile "a5s6d7f8" "lib" KFolder "" (Some "q1w2e3r4") ].

(** A folder [src] with a file, and a file at the root. *)
Definition small_tree : list FileItem :=
  [ mkFile "s0s0s0s0" "src" KFolder "" None;
    mkFile "m1m1m1m1" "main.js" KFile "var x = 1" (Some "s0s0s0s0");
    mkFile "h2h2h2h2" "index.html" KFile "<h1>hi</h1>" None ].


(** The position of the active project depends on the ids only. *)
Definition project_idx (ids : list string) (active : string) : nat :=
  match list_find (λ i, i = active) ids with
  | Some (i, _) => i
  | None => 0
  end.

(** Two workspaces, the second one active. *)
Definition two_small_workspaces : State :=
  mkState Guest
    [ mkProject "w0rkspc1" "Main Workspace" P2d small_tree [] [] ∅ [];
      mkProject "w0rkspc2" "Second" P3d nested_folders [] [] ∅ [] ]
    "w0rkspc2" "" [] "" [] None "" [] sample_ids 0 [] None.

(** Two workspaces, the first one active and connected to the second. *)
Definition two_linked_workspaces : State :=
  mkState Guest
    [ mkProject "w0rkspc1" "Main Workspace" P2d small_tree ["w0rkspc2"] [] ∅ [];
      mkProject "w0rkspc2" "Second" P3d nested_folders [] [] ∅ [] ]
    "w0rkspc1" "" [] "" [] None "" [] sample_ids 0 [] None.

(** The files of [nested_folders] after [Move] on the folder [app]: the
    two folders are each other's parent. *)
Definition folder_cycle : list FileItem :=
  [ mkFile "q1w2e3r4" "app" KFolder "" (Some "a5s6d7f8");
    mkFile "a5s6d7f8" "lib" KFolder "" (Some "q1w2e3r4") ].

(** A source of ids that draws the same id every time, and the first
    render with it. *)
Definition same_draw : nat → string := λ _, "k3k3k3k3".
Definition twin_page : State := initial same_draw None.

(** A stored blob with two workspaces under one id. *)
Definition twin_blob : Persisted :=
  mkPersisted User
    [ mkProject "w0rkspc1" "Main Workspace" P2d small_tree [] [] ∅ [];
      mkProject "w0rkspc1" "Copy" P2d [] [] [] ∅ [] ]
    "w0rkspc1".

(** A folder [web] at the root with files and folders on three levels,
    out of order. *)
Definition deep_tree : list FileItem :=
  [ mkFile "w0w0w0w0" "web" KFolder "" None;
    mkFile "z1z1z1z1" "zeta.js" KFile "" (Some "w0w0w0w0");
    mkFile "l2l2l2l2" "lib" KFolder "" (Some "w0w0w0w0");
    mkFile "a3a3a3a3" "alpha.js" KFile "" (Some "w0w0w0w0");
    mkFile "u4u4u4u4" "util.js" KFile "" (Some "l2l2l2l2");
    mkFile "c5c5c5c5" "core" KFolder "" (Some "l2l2l2l2");
    mkFile "m6m6m6m6" "main.js" KFile "" (Some "c5c5c5c5");
    mkFile "i7i7i7i7" "img" KFolder "" (Some "c5c5c5c5") ].

(** * Properties *)

(** ** The active project *)

Lemma project_lookup st :
  project st = projects st !! project_idx (p_id <$> projects st) (activeProjectId st).
Proof.
  unfold project, project_idx. rewrite list_find_fmap.
  destruct (list_find _ (projects st)) as [[i p]|] eqn:E; simpl.
  - apply list_find_Some in E as (E & _). unfold compose. by rewrite E.
  - unfold compose. by rewrite head_lookup.
Qed.

Lemma project_idx_first ids active j :
  j < project_idx ids active → ids !! j ≠ ids !! project_idx ids active.
Proof.
  unfold project_idx.
  destruct (list_find _ ids) as [[i x]|] eqn:E; [|lia].
  apply list_find_Some in E as (Hi & -> & Hlt). intros Hj Heq.
  rewrite Hi in Heq. by apply (Hlt j active).
Qed.

Lemma project_nonempty st : projects st ≠ [] → is_Some (project st).
Proof.
  unfold project. destruct (list_find _ _) as [[??]|]; [eauto|].
  destruct (projects st); [done|eauto].
Qed.

Lemma project_elem st pr : project st = Some pr → pr ∈ projects st.
Proof. rewrite project_lookup. apply list_elem_of_lookup_2. Qed.

Lemma project_patchProject cb st :
  (∀ p, p_id (cb p) = p_id p) →
  project (patchProject cb st) = cb <$> project st.
Proof.
  intros Hid. unfold patchProject.
  destruct (project st) as [pr|] eqn:E; [|by rewrite E].
  rewrite !project_lookup in *. simpl.
  set (g := λ p, if decide (p_id p = p_id pr) then cb p else p).
  assert (p_id <$> (g <$> projects st) = p_id <$> projects st) as ->.
  { rewrite <- list_fmap_compose. apply list_fmap_ext. intros _ p _. simpl.
    unfold g. case_decide; auto. }
  rewrite list_lookup_fmap, E. simpl. unfold g. by rewrite decide_True.
Qed.

(** [patchProject] writes the project list only. *)
Lemma patchProject_frame cb st :
  let st' := patchProject cb st in
  auth st' = auth st ∧ activeProjectId st' = activeProjectId st ∧
  activeFileId st' = activeFileId st ∧ openTabs st' = openTabs st ∧
  selectedIds st' = selectedIds st ∧ moveTarget st' = moveTarget st ∧
  termInput st' = termInput st ∧ logs st' = logs st ∧
  uid_source st' = uid_source st ∧ uid_next st' = uid_next st ∧
  outbox st' = outbox st ∧ storage st' = storage st ∧ search st' = search st.
Proof. simpl. unfold patchProject. by destruct (project st). Qed.

Lemma patch_drawing_ids k cb target src n ps :
  (∀ ids p, p_id (cb ids p) = p_id p) →
  p_id <$> (patch_drawing k cb target src n ps).1 = p_id <$> ps.
Proof.
  intros Hid. revert n. induction ps as [|p ps IH]; intros n; simpl; [done|].
  case_decide.
  - specialize (IH (n + k)). destruct (patch_drawing _ _ _ _ (n + k) ps). simpl in *.
    f_equal; [apply Hid | apply IH].
  - specialize (IH n). destruct (patch_drawing _ _ _ _ n ps). simpl in *.
    f_equal. apply IH.
Qed.

Lemma patch_drawing_length k cb target src n ps :
  length (patch_drawing k cb target src n ps).1 = length ps.
Proof.
  revert n. induction ps as [|p ps IH]; intros n; simpl; [done|].
  case_decide.
  - specialize (IH (n + k)). destruct (patch_drawing _ _ _ _ (n + k) ps). simpl in *. lia.
  - specialize (IH n). destruct (patch_drawing _ _ _ _ n ps). simpl in *. lia.
Qed.

(** The first project with the target id draws the ids at the counter. *)
Lemma patch_drawing_first k cb target src n ps i pr :
  ps !! i = Some pr → p_id pr = target →
  (∀ j p, j < i → ps !! j = Some p → p_id p ≠ target) →
  (patch_drawing k cb target src n ps).1 !! i = Some (cb (src <$> seq n k) pr).
Proof.
  revert i. induction ps as [|p ps IH]; intros i Hi Ht Hfirst; [done|].
  simpl. destruct i as [|i]; simpl in *.
  - simplify_eq. rewrite decide_True by done.
    by destruct (patch_drawing _ _ _ _ (n + k) ps).
  - rewrite decide_False by (apply (Hfirst 0); [lia|done]).
    specialize (IH i Hi Ht).
    destruct (patch_drawing _ _ _ _ n ps). simpl in *. apply IH.
    intros j q Hj Hq. apply (Hfirst (S j)); [lia|done].
Qed.

Lemma patch_drawing_other k cb target src n ps i p :
  ps !! i = Some p → p_id p ≠ target →
  (patch_drawing k cb target src n ps).1 !! i = Some p.
Proof.
  revert n i. induction ps as [|q ps IH]; intros n i Hi Ht; [done|].
  simpl. case_decide; destruct i as [|i]; simpl in *; simplify_eq.
  - specialize (IH (n + k) i Hi Ht). by destruct (patch_drawing _ _ _ _ (n + k) ps).
  - by destruct (patch_drawing _ _ _ _ n ps).
  - specialize (IH n i Hi Ht). by destruct (patch_drawing _ _ _ _ n ps).
Qed.

Lemma project_patchProjectU k cb st :
  (∀ ids p, p_id (cb ids p) = p_id p) →
  project (patchProjectU k cb st)
  = cb (uid_source st <$> seq (uid_next st) k) <$> project st.
Proof.
  intros Hid. unfold patchProjectU.
  destruct (project st) as [pr|] eqn:E; [|by rewrite E].
  pose proof (patch_drawing_ids k cb (p_id pr) (uid_source st) (uid_next st)
                (projects st) Hid) as Hids.
  pose proof (patch_drawing_first k cb (p_id pr) (uid_source st) (uid_next st)
                (projects st)) as Hfirst.
  destruct (patch_drawing _ _ _ _ _ _) as [ps n]. simpl in *.
  rewrite project_lookup in *. simpl. rewrite Hids.
  apply Hfirst; [done..|].
  intros j p Hj Hp Heq.
  apply (project_idx_first _ _ _ Hj).
  rewrite !list_lookup_fmap, Hp, E. simpl. by rewrite Heq.
Qed.

(** ** The parent relation under the updates of the file list *)

Lemma child_of_app_root files i n k c p x :
  child_of (files ++ [mkFile i n k c None]) p x ↔ child_of files p x.
Proof.
  unfold child_of. split.
  - intros (f & Hf & Hid & Hp). apply elem_of_app in Hf as [Hf|Hf]; [eauto|].
    apply list_elem_of_singleton in Hf. by subst f.
  - intros (f & Hf & Hid & Hp). exists f. rewrite elem_of_app. eauto.
Qed.

Lemma child_of_rename id next files p x :
  child_of (rename_in id next files) p x ↔ child_of files p x.
Proof.
  unfold child_of, rename_in. split.
  - intros (f & Hf & Hid & Hp). apply list_elem_of_fmap in Hf as (g & -> & Hg).
    exists g. by case_decide.
  - intros (f & Hf & Hid & Hp).
    exists (if decide (f_id f = id) then with_name next f else f).
    split; [apply list_elem_of_fmap; eauto|]. by case_decide.
Qed.

Lemma child_of_reparent id target files p x :
  child_of (reparent id target files) p x ↔
    (x ≠ id ∧ child_of files p x) ∨
    (x = id ∧ target = Some p ∧ ∃ f, f ∈ files ∧ f_id f = id).
Proof.
  unfold child_of, reparent. split.
  - intros (f & Hf & Hid & Hp). apply list_elem_of_fmap in Hf as (g & -> & Hg).
    case_decide; simpl in *; subst.
    + right. eauto.
    + left. eauto.
  - intros [(Hne & f & Hf & Hid & Hp)|(-> & -> & f & Hf & Hid)].
    + exists f. split; [|done]. apply list_elem_of_fmap. exists f.
      split; [|done]. rewrite decide_False; congruence.
    + exists (with_parentId (Some p) f). split; [|done].
      apply list_elem_of_fmap. exists f. by rewrite decide_True.
Qed.

Lemma tc_iff {A} (R R' : relation A) :
  (∀ x y, R x y ↔ R' x y) → ∀ x y, tc R x y ↔ tc R' x y.
Proof.
  intros H x y. split; induction 1.
  - apply tc_once. by apply H.
  - eapply tc_l; [by apply H|done].
  - apply tc_once. by apply H.
  - eapply tc_l; [by apply H|done].
Qed.

(** A rank that grows along the parent links rules out cycles. *)
Lemma forest_of_rank files (rank : string → nat) :
  (∀ f p, f ∈ files → f_parentId f = Some p → rank p < rank (f_id f)) →
  forest files.
Proof.
  intros Hr. assert (∀ a b, ancestor files a b → rank a < rank b) as Hlt.
  { induction 1 as [a b (f & Hf & <- & Hp)|a b c (f & Hf & <- & Hp) _ IH].
    - eauto.
    - specialize (Hr f a Hf Hp). lia. }
  intros x Hx. specialize (Hlt x x Hx). lia.
Qed.

(** [New file] and [New folder] keep the forest. *)
Lemma forest_app_root files i n k c :
  forest files → forest (files ++ [mkFile i n k c None]).
Proof.
  intros Hf x Hx. apply (Hf x).
  eapply tc_iff; [|exact Hx]. intros. symmetry. apply child_of_app_root.
Qed.

(** [Rename] keeps the forest. *)
Lemma forest_rename id next files :
  forest files → forest (rename_in id next files).
Proof.
  intros Hf x Hx. apply (Hf x).
  eapply tc_iff; [|exact Hx]. intros. symmetry. apply child_of_rename.
Qed.

Lemma active_files_patchProject cb st :
  (∀ p, p_id (cb p) = p_id p) → is_Some (project st) →
  ∃ pr, project st = Some pr ∧ active_files (patchProject cb st) = p_files (cb pr).
Proof.
  intros Hid [pr Hpr]. exists pr. split; [done|].
  unfold active_files. by rewrite project_patchProject, Hpr.
Qed.

Lemma newNode_forest k mkname st :
  forest (active_files st) → forest (active_files (newNode k mkname st)).
Proof.
  unfold newNode, active_files. rewrite project_patchProjectU by done.
  destruct (project st); simpl; [apply forest_app_root|done].
Qed.

Lemma renameFile_forest id answer st :
  projects st ≠ [] → forest (active_files st) →
  ∃ st', renameFile id answer st = Some st' ∧ forest (active_files st').
Proof.
  intros Hne Hf. destruct (project_nonempty st Hne) as [pr Hpr].
  unfold renameFile. rewrite Hpr. simpl.
  destruct (list_find _ _); [|eauto].
  destruct answer as [next|]; [|eauto].
  destruct next as [|a next]; [eauto|].
  eexists. split; [done|]. unfold active_files in *.
  rewrite project_patchProject by done. rewrite Hpr in *. simpl.
  by apply forest_rename.
Qed.

(** [moveFile] never makes a node its own parent. *)
Lemma move_target_not_self files id : move_target files id ≠ Some id.
Proof.
  unfold move_target. destruct (list_find _ _) as [[i f]|] eqn:E; [|done].
  apply list_find_Some in E as (_ & [_ Hne] & _). simpl. congruence.
Qed.

Lemma nested_folders_forest : forest nested_folders.
Proof.
  apply (forest_of_rank _ (λ i, if decide (i = "q1w2e3r4") then 0 else 1)).
  intros f p Hf Hp. unfold nested_folders in Hf.
  repeat (apply elem_of_cons in Hf as [->|Hf]); simpl in *; simplify_eq; simpl.
  - lia.
  - by apply elem_of_nil in Hf.
Qed.

(** On a cycle of two folders [descendants] never returns. *)
Lemma descendants_cycle_diverges fuel a b na nb ca cb :
  let files := [mkFile a na KFolder ca (Some b); mkFile b nb KFolder cb (Some a)] in
  descendants fuel files a = None ∧ descendants fuel files b = None.
Proof.
  intros files. induction fuel as [|n [IHa IHb]]; [done|].
  assert (a ∈ kids files b) as Ha.
  { unfold kids, files. apply list_elem_of_fmap. eexists (mkFile a na KFolder ca (Some b)).
    split; [done|]. apply list_elem_of_filter. split; [done|]. apply elem_of_cons; auto. }
  assert (b ∈ kids files a) as Hb.
  { unfold kids, files. apply list_elem_of_fmap. eexists (mkFile b nb KFolder cb (Some a)).
    split; [done|]. apply list_elem_of_filter. split; [done|].
    apply elem_of_cons; right. apply elem_of_cons; auto. }
  split; simpl.
  - assert (mapM (λ k, ds ← descendants n files k; Some (k :: ds)) (kids files a) = None)
      as ->; [|done].
    apply mapM_None, Exists_exists. exists b. split; [done|]. by rewrite IHb.
  - assert (mapM (λ k, ds ← descendants n files k; Some (k :: ds)) (kids files b) = None)
      as ->; [|done].
    apply mapM_None, Exists_exists. exists a. split; [done|]. by rewrite IHa.
Qed.

(** C1: the claim that every sequence of insert, rename and move keeps the
    hierarchy a forest fails on the code.  With a folder [app] at the root
    and a folder [lib] inside it, [Move] from the context menu of [app]
    takes the first folder other than [app] as the target, which is [lib]:
    the state before is a forest, the state after has [app] on its own
    parent chain, and from then on [descendants] does not return for
    [app], so [Delete] on it never completes. *)
Theorem moveFile_creates_cycle :
  let st := page_with nested_folders ∅ in
  forest (active_files st) ∧
  ∃ st', moveFile "q1w2e3r4" st = Some st' ∧
         active_files st' =
           [ mkFile "q1w2e3r4" "app" KFolder "" (Some "a5s6d7f8");
             mkFile "a5s6d7f8" "lib" KFolder "" (Some "q1w2e3r4") ] ∧
         ancestor (active_files st') "q1w2e3r4" "q1w2e3r4" ∧
         ¬ forest (active_files st') ∧
         ∀ fuel, deleteFile fuel "q1w2e3r4" st' = None.
Proof.
  simpl. split; [exact nested_folders_forest|].
  eexists. split; [reflexivity|].
  assert (ancestor
    [ mkFile "q1w2e3r4" "app" KFolder "" (Some "a5s6d7f8");
      mkFile "a5s6d7f8" "lib" KFolder "" (Some "q1w2e3r4") ] "q1w2e3r4" "q1w2e3r4") as Hc.
  { eapply tc_l; [|apply tc_once].
    - eexists (mkFile "a5s6d7f8" "lib" KFolder "" (Some "q1w2e3r4")).
      split; [|done]. apply elem_of_cons; right. apply elem_of_cons; auto.
    - eexists (mkFile "q1w2e3r4" "app" KFolder "" (Some "a5s6d7f8")).
      split; [|done]. apply elem_of_cons; auto. }
  split; [reflexivity|]. split; [exact Hc|]. split.
  - intros Hf. exact (Hf _ Hc).
  - intros fuel. unfold deleteFile.
    change (project _) with (Some (mkProject "w0rkspc1" "Main Workspace" P2d
      [ mkFile "q1w2e3r4" "app" KFolder "" (Some "a5s6d7f8");
        mkFile "a5s6d7f8" "lib" KFolder "" (Some "q1w2e3r4") ] [] [] ∅ [])).
    simpl.
    by rewrite (proj1 (descendants_cycle_diverges fuel "q1w2e3r4" "a5s6d7f8" "app" "lib" "" "")).
Qed.

(** ** [descendants] *)

Lemma Forall2_elem_of_l {A B} (P : A → B → Prop) l k x :
  Forall2 P l k → x ∈ l → ∃ y, y ∈ k ∧ P x y.
Proof.
  intros HF Hx. apply list_elem_of_lookup in Hx as [i Hi].
  destruct (Forall2_lookup_l _ _ _ _ _ HF Hi) as (y & Hy & HP).
  exists y. split; [by eapply list_elem_of_lookup_2|done].
Qed.

Lemma Forall2_elem_of_r {A B} (P : A → B → Prop) l k y :
  Forall2 P l k → y ∈ k → ∃ x, x ∈ l ∧ P x y.
Proof.
  intros HF Hy. apply list_elem_of_lookup in Hy as [i Hi].
  destruct (Forall2_lookup_r _ _ _ _ _ HF Hi) as (x & Hx & HP).
  exists x. split; [by eapply list_elem_of_lookup_2|done].
Qed.

Lemma kids_child files id k : k ∈ kids files id ↔ child_of files id k.
Proof.
  unfold kids, child_of. rewrite list_elem_of_fmap. split.
  - intros (f & -> & Hf). apply list_elem_of_filter in Hf as [??]. eauto.
  - intros (f & Hf & <- & Hp). exists f. split; [done|].
    by apply list_elem_of_filter.
Qed.

Lemma ancestor_unfold files a x :
  ancestor files a x ↔ ∃ k, child_of files a k ∧ (x = k ∨ ancestor files k x).
Proof.
  split.
  - intros H. destruct H as [a x H|a k x H Hk]; eauto.
  - intros (k & Hk & [->|H]); [by apply tc_once|by eapply tc_l].
Qed.

(** What [descendants] returns is the set of nodes below [id]. *)
Lemma descendants_spec fuel files id ds :
  descendants fuel files id = Some ds →
  ∀ x, x ∈ ds ↔ ancestor files id x.
Proof.
  revert id ds. induction fuel as [|n IH]; intros id ds; [done|]. simpl.
  intros Hds x. apply fmap_Some in Hds as (ll & Hll & ->).
  apply mapM_Some in Hll.
  rewrite ancestor_unfold, list_elem_of_join. split.
  - intros (l & Hx & Hl).
    destruct (Forall2_elem_of_r _ _ _ _ Hll Hl) as (k & Hk & Hg).
    apply bind_Some in Hg as (ds' & Hds' & [= <-]).
    exists k. split; [by apply kids_child|].
    apply elem_of_cons in Hx as [->|Hx]; [by left|right]. by apply (IH k ds').
  - intros (k & Hk & Hx). apply kids_child in Hk.
    destruct (Forall2_elem_of_l _ _ _ _ Hll Hk) as (l & Hl & Hg).
    apply bind_Some in Hg as (ds' & Hds' & [= <-]).
    exists (k :: ds'). split; [|done].
    destruct Hx as [->|Hx]; [by left|right]. by apply (IH k ds').
Qed.

Lemma descendants_total_aux files :
  forest files →
  ∀ n (seen : list string) id,
    NoDup seen → (∀ s, s ∈ seen → s ∈ f_id <$> files) →
    (∀ s, s ∈ seen → s = id ∨ ancestor files s id) →
    length files < n + length seen →
    is_Some (descendants n files id).
Proof.
  intros Hforest. induction n as [|n IH]; intros seen id Hnd Hsub Hanc Hlen.
  - apply NoDup_submseteq in Hsub; [|done].
    apply submseteq_length in Hsub. rewrite length_fmap in Hsub. lia.
  - simpl. apply fmap_is_Some, mapM_is_Some, Forall_forall. intros k Hk.
    apply kids_child in Hk. simpl.
    assert (is_Some (descendants n files k)) as [ds ->]; [|by eauto].
    apply (IH (k :: seen)).
    + apply NoDup_cons. split; [|done]. intros Hin.
      apply (Hforest k). destruct (Hanc k Hin) as [->|Ha].
      * by apply tc_once.
      * by eapply tc_r.
    + intros s Hs. apply elem_of_cons in Hs as [->|Hs]; [|by apply Hsub].
      destruct Hk as (f & Hf & <- & _). apply list_elem_of_fmap. eauto.
    + intros s Hs. apply elem_of_cons in Hs as [->|Hs]; [by left|right].
      destruct (Hanc s Hs) as [->|Ha]; [by apply tc_once|by eapply tc_r].
    + simpl. lia.
Qed.

(** In a forest [descendants] returns once the fuel exceeds the number of
    nodes. *)
Lemma descendants_total files id fuel :
  forest files → length files < fuel → is_Some (descendants fuel files id).
Proof.
  intros Hf Hlen. apply (descendants_total_aux files Hf fuel [] id).
  - constructor.
  - intros s Hs. by apply elem_of_nil in Hs.
  - intros s Hs. by apply elem_of_nil in Hs.
  - simpl. lia.
Qed.

(** ** [deleteFile] *)

Lemma elem_of_remove_ids toDelete files f :
  f ∈ remove_ids toDelete files ↔ f ∈ files ∧ f_id f ∉ toDelete.
Proof. unfold remove_ids. rewrite list_elem_of_filter. tauto. Qed.

Lemma deleted_closure fuel files id ds x :
  descendants fuel files id = Some ds →
  x ∈ id :: ds ↔ x = id ∨ ancestor files id x.
Proof.
  intros Hds. rewrite elem_of_cons. by rewrite (descendants_spec _ _ _ _ Hds).
Qed.

(** The state [deleteFile] returns, field by field. *)
Lemma deleteFile_unfold fuel id st pr ds :
  project st = Some pr → descendants fuel (p_files pr) id = Some ds →
  ∃ st', deleteFile fuel id st = Some st' ∧
    project st' = Some (with_files (remove_ids (id :: ds) (p_files pr)) pr) ∧
    openTabs st' = filter (λ x, x ∉ id :: ds) (openTabs st) ∧
    activeFileId st' = (if decide (activeFileId st ∈ id :: ds) then "" else activeFileId st).
Proof.
  intros Hpr Hds. unfold deleteFile. rewrite Hpr. simpl. rewrite Hds. simpl.
  eexists. split; [done|].
  pose proof (project_patchProject
    (λ p, with_files (remove_ids (id :: ds) (p_files p)) p) st (λ _, eq_refl)) as Hp.
  rewrite Hpr in Hp. simpl in Hp.
  destruct (patchProject_frame
    (λ p, with_files (remove_ids (id :: ds) (p_files p)) p) st) as (_ & _ & Ha & Ht & _).
  case_decide; simpl; rewrite Ht, ?Ha; auto.
Qed.


Lemma small_tree_forest : forest small_tree.
Proof.
  apply (forest_of_rank _ (λ i, if decide (i = "s0s0s0s0") then 0 else 1)).
  intros f p Hf Hp. unfold small_tree in Hf.
  repeat (apply elem_of_cons in Hf as [->|Hf]); simpl in *; simplify_eq; simpl.
  - lia.
  - by apply elem_of_nil in Hf.
Qed.




(** The scenario of the specification: folder [src], a file inside it,
    [Delete] on [src]; the open tab of the file is closed with it. *)
Example delete_src_scenario :
  ∃ st', deleteFile 4 "s0s0s0s0"
           (opened ["m1m1m1m1"; "h2h2h2h2"] "m1m1m1m1" (page_with small_tree ∅)) = Some st' ∧
    active_files st' = [mkFile "h2h2h2h2" "index.html" KFile "<h1>hi</h1>" None] ∧
    openTabs st' = ["h2h2h2h2"] ∧ activeFileId st' = "".
Proof. eexists. split; [vm_compute; reflexivity|]. by vm_compute. Qed.

(** ** Document collection SDK *)

Lemma project_collections_eta pr :
  with_collections (p_collections pr) pr = pr.
Proof. by destruct pr. Qed.

(** A handle used in the render that made it patches like a handler of
    the page. *)
Lemma patchProjectOf_project cb st :
  patchProjectOf (project st) cb st = patchProject cb st.
Proof. reflexivity. Qed.

Lemma patchProjectUOf_project k cb st :
  patchProjectUOf (project st) k cb st = patchProjectU k cb st.
Proof. reflexivity. Qed.

Lemma project_None_empty st : project st = None → projects st = [].
Proof.
  intros Hn. destruct (projects st) as [|p ps] eqn:E; [done|].
  assert (is_Some (project st)) as [q Hq].
  { apply project_nonempty. by rewrite E. }
  congruence.
Qed.

(** For a name that [Object.prototype] does not define the updaters of
    the SDK never throw. *)
Lemma sdk_quiet name st :
  name ∉ object_prototype_names → ¬ sdk_throws (collection name st) st.
Proof.
  intros Hn. unfold sdk_throws, collection. cbn [h_project h_name].
  destruct (project st) as [pr|] eqn:E.
  - intros H. apply Exists_exists in H as (p & _ & _ & _ & Hin). done.
  - rewrite (project_None_empty st E). simpl. lia.
Qed.

Lemma addDoc_unfold name data st :
  name ∉ object_prototype_names →
  addDoc (collection name st) data st =
    Some (RetUndefined,
          patchProjectU 1 (λ ids p,
            with_collections
              (<[name := docs_of name p ++ [newDoc (default "" (ids !! 0)) data]]>
                 (p_collections p)) p) st).
Proof. intros Hn. unfold addDoc. by rewrite (decide_False _ _ (sdk_quiet name st Hn)). Qed.

Lemma updateDoc_unfold name id data st :
  name ∉ object_prototype_names →
  updateDoc (collection name st) id data st =
    Some (RetUndefined,
          patchProject (λ p,
            with_collections
              (<[name := (λ d, if decide (get d "id" = VStr id) then data ∪ d else d)
                           <$> docs_of name p]> (p_collections p)) p) st).
Proof. intros Hn. unfold updateDoc. by rewrite (decide_False _ _ (sdk_quiet name st Hn)). Qed.

Lemma deleteDoc_unfold name id st :
  name ∉ object_prototype_names →
  deleteDoc (collection name st) id st =
    Some (RetUndefined,
          patchProject (λ p,
            with_collections
              (<[name := filter (λ d, get d "id" ≠ VStr id) (docs_of name p)]>
                 (p_collections p)) p) st).
Proof. intros Hn. unfold deleteDoc. by rewrite (decide_False _ _ (sdk_quiet name st Hn)). Qed.

(** [getDocs] on a handle of the render of [st]. *)
Lemma getDocs_collection name st pr :
  project st = Some pr → name ∉ object_prototype_names →
  getDocs (collection name st) = Some (RetDocs (docs_of name pr)).
Proof.
  intros Hpr Hn. unfold getDocs, collection, docs_of. cbn [h_project h_name].
  rewrite Hpr. cbn [mbind option_bind].
  destruct (p_collections pr !! name); [done|]. by rewrite decide_False.
Qed.

Lemma getDocs_same_lookup name st st' pr pr' :
  project st = Some pr → project st' = Some pr' →
  p_collections pr' !! name = p_collections pr !! name →
  getDocs (collection name st') = getDocs (collection name st).
Proof.
  intros Hpr Hpr' Heq. unfold getDocs, collection. cbn [h_project h_name].
  rewrite Hpr, Hpr'. cbn [mbind option_bind]. by rewrite Heq.
Qed.

Lemma addDoc_project name data st pr :
  project st = Some pr → name ∉ object_prototype_names →
  ∃ st', addDoc (collection name st) data st = Some (RetUndefined, st') ∧
    project st' =
      Some (with_collections
              (<[name := docs_of name pr ++ [newDoc (uid_source st (uid_next st)) data]]>
                 (p_collections pr)) pr).
Proof.
  intros Hpr Hn. rewrite (addDoc_unfold name data st Hn). eexists. split; [done|].
  rewrite project_patchProjectU by done. by rewrite Hpr.
Qed.

Lemma newDoc_fields i data k v : data !! k = Some v → newDoc i data !! k = Some v.
Proof. intros H. unfold newDoc. by apply lookup_union_Some_l. Qed.

Lemma newDoc_id i data : data !! "id" = None → newDoc i data !! "id" = Some (VStr i).
Proof.
  intros H. unfold newDoc. rewrite lookup_union_r by done.
  by rewrite lookup_insert_eq.
Qed.

Lemma newDoc_dom i data : dom (newDoc i data) = dom data ∪ {["id"; "name"]}.
Proof. unfold newDoc. rewrite dom_union_L, !dom_insert_L. set_solver. Qed.

(** Without a caller-supplied name the record is named [doc]. *)
Lemma newDoc_name_default i data :
  data !! "name" = None → newDoc i data !! "name" = Some (VStr "doc").
Proof.
  intros H. unfold newDoc, get. rewrite H. simpl.
  rewrite lookup_union_r by done. rewrite lookup_insert_ne by done.
  by rewrite lookup_insert_eq.
Qed.

(** A caller-supplied name that is a string is kept. *)
Lemma newDoc_name_string i data s :
  data !! "name" = Some (VStr s) → newDoc i data !! "name" = Some (VStr s).
Proof. apply newDoc_fields. Qed.

Lemma getDocs_other_insert name other docs pr :
  other ≠ name →
  docs_of other (with_collections (<[name := docs]> (p_collections pr)) pr)
  = docs_of other pr.
Proof. intros Hne. unfold docs_of. simpl. by rewrite lookup_insert_ne. Qed.

Lemma getDocs_insert name docs pr :
  docs_of name (with_collections (<[name := docs]> (p_collections pr)) pr) = docs.
Proof. unfold docs_of. simpl. by rewrite lookup_insert_eq. Qed.

(** The scenario of the specification: [addDoc("notes", {text: "hi"})], then
    after the render [getDocs("notes")] returns exactly one record, with
    [text = "hi"]. *)
Example addDoc_notes_scenario :
  let st := page_with [] ∅ in
  addDoc (collection "notes" st) {[ "text" := VStr "hi" ]} st
    = Some (RetUndefined, page_one_note) ∧
  getDocs (collection "notes" page_one_note) = Some (RetDocs [first_note]) ∧
  first_note !! "text" = Some (VStr "hi").
Proof. split; [vm_compute; reflexivity|]. split; [|done]. vm_compute. reflexivity. Qed.

(** C3, as the code has it.  For a name that [Object.prototype] does not
    define, [addDoc(fields)] on a handle of the current render appends one
    record to the collection, which is created on first use; the record
    holds every caller-supplied field with the caller's value and, when
    the fields carry no id, the id drawn from [uid], which differs from the
    ids in the collection whenever the drawn id does; the other
    collections keep their records; the call evaluates to [undefined].
    The handle that made the call still returns the former records;
    [getDocs] on a handle of the next render returns them followed by the
    new one. *)
Theorem addDoc_appends st pr name data :
  project st = Some pr → name ∉ object_prototype_names →
  let h := collection name st in
  let i := uid_source st (uid_next st) in
  let d := newDoc i data in
  ∃ st', addDoc h data st = Some (RetUndefined, st') ∧
    getDocs h = Some (RetDocs (docs_of name pr)) ∧
    getDocs (collection name st') = Some (RetDocs (docs_of name pr ++ [d])) ∧
    (∀ other, other ≠ name →
       getDocs (collection other st') = getDocs (collection other st)) ∧
    (∀ k v, data !! k = Some v → d !! k = Some v) ∧
    (data !! "id" = None → d !! "id" = Some (VStr i)) ∧
    (data !! "id" = None →
     Forall (λ old, get old "id" ≠ VStr i) (docs_of name pr) →
     Forall (λ old, get old "id" ≠ get d "id") (docs_of name pr)).
Proof.
  intros Hpr Hn h i d.
  destruct (addDoc_project name data st pr Hpr Hn) as (st' & Hadd & Hp').
  fold i d in Hp'. exists st'. split; [done|].
  split; [by apply getDocs_collection|].
  split; [|split; [|split; [|split]]].
  - rewrite (getDocs_collection name st' _ Hp' Hn). by rewrite getDocs_insert.
  - intros other Hne. apply (getDocs_same_lookup other st st' pr _ Hpr Hp').
    simpl. by rewrite lookup_insert_ne.
  - intros k v. apply newDoc_fields.
  - apply newDoc_id.
  - intros Hid Hfresh. assert (get d "id" = VStr i) as ->; [|done].
    unfold get, d. by rewrite (newDoc_id i data Hid).
Qed.

Lemma addDoc_appends_witness :
  let st := page_one_note in
  let pr := mkProject "w0rkspc1" "Main Workspace" P2d [] [] []
              {[ "notes" := [first_note] ]} [] in
  let data : JsObj := {[ "text" := VStr "more" ]} in
  let h := collection "notes" st in
  let i := uid_source st (uid_next st) in
  let d := newDoc i data in
  ∃ st', addDoc h data st = Some (RetUndefined, st') ∧
    getDocs h = Some (RetDocs (docs_of "notes" pr)) ∧
    getDocs (collection "notes" st') = Some (RetDocs (docs_of "notes" pr ++ [d])) ∧
    (∀ other, other ≠ "notes" →
       getDocs (collection other st') = getDocs (collection other st)) ∧
    (∀ k v, data !! k = Some v → d !! k = Some v) ∧
    (data !! "id" = None → d !! "id" = Some (VStr i)) ∧
    (data !! "id" = None →
     Forall (λ old, get old "id" ≠ VStr i) (docs_of "notes" pr) →
     Forall (λ old, get old "id" ≠ get d "id") (docs_of "notes" pr)).
Proof.
  intros st pr data.
  apply (addDoc_appends st pr "notes" data).
  - vm_compute. reflexivity.
  - apply (bool_decide_unpack _). vm_compute. exact I.
Defined.

(** C3 as stated fails in four ways.  Passing a record of the collection
    back to [addDoc] stores a second record with the id of the first, and
    the call evaluates to [undefined] rather than to the record it
    created.  [getDocs] on the handle that made the call, as a script
    calls it in the same tick, does not include the new record.  And for
    the name [constructor] the updater throws. *)
Lemma addDoc_reuses_id_returns_undefined :
  let st := page_one_note in
  let h := collection "notes" st in
  getDocs h = Some (RetDocs [first_note]) ∧
  (∃ r st', addDoc h first_note st = Some (r, st') ∧
     getDocs (collection "notes" st') = Some (RetDocs [first_note; first_note]) ∧
     getDocs h = Some (RetDocs [first_note]) ∧
     r ≠ RetDoc first_note) ∧
  ¬ (∀ old, old ∈ [first_note] → get old "id" ≠ get first_note "id") ∧
  getDocs (collection "constructor" st) = Some (RetProperty "constructor") ∧
  addDoc (collection "constructor" st) {[ "text" := VStr "hi" ]} st = None.
Proof.
  intros st h. split; [by vm_compute|]. split.
  { eexists _, _. split; [vm_compute; reflexivity|].
    split; [by vm_compute|]. split; [by vm_compute|]. done. }
  split.
  { intros H. apply (H first_note); [apply elem_of_cons; auto|done]. }
  split; by vm_compute.
Qed.

(** C10: the claim that a record created through [addDoc] carries the
    caller's name coerced to a string fails on the code.  For the fields
    [{name: 42}] the code computes [String(42)], the string [42], and then
    spreads the caller's fields over it: the stored record has the number
    [42] as its name. *)
Theorem addDoc_keeps_raw_name :
  let data : JsObj := {[ "name" := VNum 42 ]} in
  let st := page_with [] ∅ in
  toString (nullish (get data "name") (VStr "doc")) = "42" ∧
  (∃ st', addDoc (collection "notes" st) data st = Some (RetUndefined, st') ∧
     getDocs (collection "notes" st')
       = Some (RetDocs [ {[ "id" := VStr "x7k2m100"; "name" := VNum 42 ]} ])) ∧
  newDoc "x7k2m100" data !! "name" = Some (VNum 42) ∧
  newDoc "x7k2m100" data !! "name" ≠ Some (VStr "42").
Proof.
  simpl. split; [by vm_compute|]. split.
  { eexists. split; [vm_compute; reflexivity|]. by vm_compute. }
  assert (newDoc "x7k2m100" {["name" := VNum 42]} !! "name" = Some (VNum 42)) as ->.
  { apply newDoc_fields. apply lookup_singleton_eq. }
  done.
Qed.

Lemma fmap_fixed {A} (f : A → A) (P : A → Prop) (l : list A) :
  (∀ x, P x → f x = x) → Forall P l → f <$> l = l.
Proof.
  intros Hf HP. induction HP as [|x l Hx _ IH]; [done|].
  rewrite fmap_cons. by rewrite (Hf x Hx), IH.
Qed.

Lemma filter_all {A} (P : A → Prop) `{∀ x, Decision (P x)} (l : list A) :
  Forall P l → filter P l = l.
Proof.
  induction 1 as [|x l Hx _ IH]; [done|].
  by rewrite filter_cons_True, IH.
Qed.

Lemma docs_of_insert_same name other pr :
  docs_of other (with_collections (<[name := docs_of name pr]> (p_collections pr)) pr)
  = docs_of other pr.
Proof.
  destruct (decide (other = name)) as [->|Hne].
  - apply getDocs_insert.
  - by apply getDocs_other_insert.
Qed.

Lemma insert_docs_of_present name pr :
  is_Some (p_collections pr !! name) →
  with_collections (<[name := docs_of name pr]> (p_collections pr)) pr = pr.
Proof.
  intros [l Hl]. unfold docs_of. rewrite Hl. simpl.
  rewrite insert_id by done. apply project_collections_eta.
Qed.

(** Writing back the records a collection has changes what no handle
    reads, for a name that [Object.prototype] does not define. *)
Lemma getDocs_insert_same name st st' pr :
  name ∉ object_prototype_names →
  project st = Some pr →
  project st' =
    Some (with_collections (<[name := docs_of name pr]> (p_collections pr)) pr) →
  ∀ n, getDocs (collection n st') = getDocs (collection n st).
Proof.
  intros Hn Hpr Hpr' n. destruct (decide (n = name)) as [->|Hne].
  - rewrite (getDocs_collection name st' _ Hpr' Hn).
    rewrite (getDocs_collection name st _ Hpr Hn). by rewrite getDocs_insert.
  - apply (getDocs_same_lookup n st st' pr _ Hpr Hpr'). simpl.
    by rewrite lookup_insert_ne.
Qed.

(** C5, as the code has it: for a name that [Object.prototype] does not
    define and an id that no record of the collection has, [updateDoc] and
    [deleteDoc] evaluate to [undefined], write no log entry, and leave
    every collection with the records it had, in number and in content;
    when the collection exists the workspace is the same as before. *)
Theorem updateDoc_absent_id_noop st pr name id patch :
  project st = Some pr → name ∉ object_prototype_names →
  Forall (λ d, get d "id" ≠ VStr id) (docs_of name pr) →
  let h := collection name st in
  (∃ st', updateDoc h id patch st = Some (RetUndefined, st') ∧ logs st' = logs st ∧
     (∀ n, getDocs (collection n st') = getDocs (collection n st)) ∧
     (is_Some (p_collections pr !! name) → project st' = Some pr)) ∧
  (∃ st', deleteDoc h id st = Some (RetUndefined, st') ∧ logs st' = logs st ∧
     (∀ n, getDocs (collection n st') = getDocs (collection n st)) ∧
     (is_Some (p_collections pr !! name) → project st' = Some pr)).
Proof.
  intros Hpr Hn Habs h. unfold h.
  rewrite (updateDoc_unfold name id patch st Hn), (deleteDoc_unfold name id st Hn).
  split.
  - eexists. split; [done|].
    match goal with |- logs ?s = _ ∧ _ =>
      assert (project s =
        Some (with_collections (<[name := docs_of name pr]> (p_collections pr)) pr))
        as Hu end.
    { rewrite project_patchProject by done. rewrite Hpr. simpl. do 3 f_equal.
      apply (fmap_fixed _ (λ d, get d "id" ≠ VStr id)); [|done].
      intros d Hd. by rewrite decide_False. }
    split; [apply patchProject_frame|]. split.
    + by apply (getDocs_insert_same name st _ pr).
    + intros Hin. by rewrite Hu, insert_docs_of_present.
  - eexists. split; [done|].
    match goal with |- logs ?s = _ ∧ _ =>
      assert (project s =
        Some (with_collections (<[name := docs_of name pr]> (p_collections pr)) pr))
        as Hr end.
    { rewrite project_patchProject by done. rewrite Hpr. simpl. do 3 f_equal.
      by apply filter_all. }
    split; [apply patchProject_frame|]. split.
    + by apply (getDocs_insert_same name st _ pr).
    + intros Hin. by rewrite Hr, insert_docs_of_present.
Qed.

Lemma updateDoc_absent_id_noop_witness :
  let st := page_one_note in
  let pr := mkProject "w0rkspc1" "Main Workspace" P2d [] [] []
              {[ "notes" := [first_note] ]} [] in
  let h := collection "notes" st in
  (∃ st', updateDoc h "zzzzzzzz" {[ "text" := VStr "bye" ]} st
            = Some (RetUndefined, st') ∧ logs st' = logs st ∧
     (∀ n, getDocs (collection n st') = getDocs (collection n st)) ∧
     (is_Some (p_collections pr !! "notes") → project st' = Some pr)) ∧
  (∃ st', deleteDoc h "zzzzzzzz" st = Some (RetUndefined, st') ∧ logs st' = logs st ∧
     (∀ n, getDocs (collection n st') = getDocs (collection n st)) ∧
     (is_Some (p_collections pr !! "notes") → project st' = Some pr)).
Proof.
  intros st pr.
  apply (updateDoc_absent_id_noop st pr "notes" "zzzzzzzz" {[ "text" := VStr "bye" ]}).
  - vm_compute. reflexivity.
  - apply (bool_decide_unpack _). vm_compute. exact I.
  - repeat constructor. by vm_compute.
Defined.

(** C5 as stated fails for a collection name that [Object.prototype]
    defines: no record has the id, [getDocs] returns the inherited
    property in place of a list of records, and the updaters of
    [updateDoc] and [deleteDoc] throw. *)
Lemma updateDoc_constructor_throws :
  let st := page_one_note in
  let h := collection "constructor" st in
  (∀ pr, project st = Some pr → p_collections pr !! "constructor" = None) ∧
  getDocs h = Some (RetProperty "constructor") ∧
  updateDoc h "zzzzzzzz" {[ "text" := VStr "bye" ]} st = None ∧
  deleteDoc h "zzzzzzzz" st = None.
Proof.
  intros st h. split.
  { intros pr Hpr. vm_compute in Hpr. by simplify_eq. }
  split; [by vm_compute|]. split; by vm_compute.
Qed.

(** ** Terminal *)

Example trim_spaces : trim "  !run 	" = "!run".
Proof. reflexivity. Qed.

Example trim_inner : trim " !fix code " = "!fix code".
Proof. reflexivity. Qed.

Example replaceAll_var : replaceAll "var " "const " "var x = 1" = "const x = 1".
Proof. reflexivity. Qed.

Example replaceAll_twice :
  replaceAll "var " "const " "var a; var b; covar c" = "const a; const b; coconst c".
Proof. reflexivity. Qed.

Example replaceAll_overlap : replaceAll "aa" "b" "aaaaa" = "bba".
Proof. reflexivity. Qed.

(** C4 as stated fails: the empty input is none of the five commands, and
    the terminal answers it with nothing at all; it writes no
    [Unknown command] entry. *)
Lemma runTerminal_empty_input_silent :
  let st := typed "" (page_with small_tree ∅) in
  (termInput st ∉ terminal_tokens) ∧
  runTerminal st = Some st ∧ logs st = [].
Proof.
  simpl. split; [|done].
  unfold terminal_tokens. intros H.
  repeat (apply elem_of_cons in H as [H|H]; [discriminate H|]).
  by apply elem_of_nil in H.
Qed.

Ltac terminal_branch Htok :=
  repeat split; intros; try discriminate; try done;
  try (simpl; by rewrite <- app_assoc);
  try (exfalso;
       match goal with H : _ ∉ terminal_tokens |- _ => apply H, Htok; tauto end).

Lemma activeFile_elem st pr af :
  project st = Some pr → activeFile st = Some af →
  af ∈ p_files pr ∧ f_id af = activeFileId st ∧ f_kind af = KFile.
Proof.
  unfold activeFile. intros -> H. simpl in H.
  apply fmap_Some in H as ([i f] & Hf & ->). simpl.
  apply list_find_Some in Hf as (Hi & [??] & _).
  split; [by eapply list_elem_of_lookup_2|done].
Qed.

(** C4, as the code has it: the input is trimmed first.  An input that is
    empty after trimming leaves the page as it is.  Any other input is
    echoed, the input line is cleared, and exactly the five commands are
    recognised on the trimmed input: [!help] and [!run] answer with a
    fixed line, [!list] with the file names, [!clear] empties the log,
    [!fix code] replaces every [var ] by [const ] in the content of the
    active file (or reports that there is none), and every other input is
    answered with [Unknown command]. *)
Theorem runTerminal_commands st pr :
  project st = Some pr →
  let cmd := trim (termInput st) in
  let echo := mkEntry (uid_source st (uid_next st)) Info ("> " +:+ cmd) in
  let answer := mkEntry (uid_source st (S (uid_next st))) in
  (cmd = "" → runTerminal st = Some st) ∧
  (cmd ≠ "" → ∃ st', runTerminal st = Some st' ∧ termInput st' = "" ∧
     (cmd = "!help" →
        logs st' = logs st ++ [echo; answer Success "!run !fix code !list !clear !help"] ∧
        projects st' = projects st) ∧
     (cmd = "!run" →
        logs st' = logs st ++ [echo; answer Success "Preview executed."] ∧
        projects st' = projects st) ∧
     (cmd = "!list" →
        logs st' = logs st ++ [echo; answer Info (join ", " (f_name <$> p_files pr))] ∧
        projects st' = projects st) ∧
     (cmd = "!clear" → logs st' = [] ∧ projects st' = projects st) ∧
     (cmd = "!fix code" →
        match activeFile st with
        | None =>
            logs st' = logs st ++ [echo; answer Error "No active file."] ∧
            projects st' = projects st
        | Some af =>
            logs st' = logs st ++ [echo; answer Success "Applied quick fix: var -> const"] ∧
            active_files st' = quick_fix af (p_files pr) ∧
            with_content (replaceAll "var " "const " (f_content af)) af ∈ active_files st'
        end) ∧
     (cmd ∉ terminal_tokens →
        logs st' = logs st ++ [echo; answer Error "Unknown command"] ∧
        projects st' = projects st)).
Proof.
  intros Hpr cmd echo answer. subst echo answer.
  unfold runTerminal. fold cmd. split.
  - intros ->. done.
  - intros Hne. rewrite decide_False by done.
    assert (∀ s, s ∈ terminal_tokens ↔
                 s = "!run" ∨ s = "!fix code" ∨ s = "!list" ∨ s = "!clear" ∨ s = "!help")
      as Htok.
    { intros s. unfold terminal_tokens. rewrite !elem_of_cons, elem_of_nil. tauto. }
    destruct (decide (cmd = "!help")) as [E|N1].
    { eexists. split; [done|]. split; [done|]. rewrite E. terminal_branch Htok. }
    destruct (decide (cmd = "!run")) as [E|N2].
    { eexists. split; [done|]. split; [done|]. rewrite E. terminal_branch Htok. }
    destruct (decide (cmd = "!fix code")) as [E|N3].
    { destruct (activeFile st) as [af|] eqn:Haf.
      - eexists. split; [done|]. split; [done|]. rewrite E.
        set (cb := λ p : Project, with_files (_ <$> p_files p) p).
        destruct (patchProject_frame cb (addLog Info ("> " +:+ "!fix code") st))
          as (_ & _ & _ & _ & _ & _ & _ & Hl & Hs & Hn & _).
        assert (project (patchProject cb (addLog Info ("> " +:+ "!fix code") st))
                = Some (cb pr)) as Hp'.
        { rewrite project_patchProject by done.
          change (project (addLog _ _ st)) with (project st). by rewrite Hpr. }
        assert (active_files (setTermInput ""
                  (addLog Success "Applied quick fix: var -> const"
                     (patchProject cb (addLog Info ("> " +:+ "!fix code") st))))
                = quick_fix af (p_files pr)) as Hfiles.
        { unfold active_files.
          change (project (setTermInput _ (addLog _ _ ?s))) with (project s).
          by rewrite Hp'. }
        split; [discriminate|]. split; [discriminate|]. split; [discriminate|].
        split; [discriminate|]. split.
        + intros _. split; [|split; [done|]].
          * simpl. rewrite Hl, Hs, Hn. simpl. by rewrite <- app_assoc.
          * rewrite Hfiles. apply list_elem_of_fmap. exists af.
            rewrite decide_True by done. split; [done|].
            by apply (activeFile_elem st pr af Hpr Haf).
        + intros H. exfalso. apply H, Htok. tauto.
      - eexists. split; [done|]. split; [done|]. rewrite E. terminal_branch Htok. }
    destruct (decide (cmd = "!list")) as [E|N4].
    { rewrite Hpr. eexists. split; [done|]. split; [done|]. rewrite E.
      terminal_branch Htok. }
    destruct (decide (cmd = "!clear")) as [E|N5].
    { eexists. split; [done|]. split; [done|]. rewrite E. terminal_branch Htok. }
    eexists. split; [done|]. split; [done|]. terminal_branch Htok.
Qed.

Lemma runTerminal_commands_witness :
  let st := typed " !fix code " (opened ["m1m1m1m1"] "m1m1m1m1" (page_with small_tree ∅)) in
  let pr := mkProject "w0rkspc1" "Main Workspace" P2d small_tree [] [] ∅ [] in
  let cmd := trim (termInput st) in
  let echo := mkEntry (uid_source st (uid_next st)) Info ("> " +:+ cmd) in
  let answer := mkEntry (uid_source st (S (uid_next st))) in
  (cmd = "" → runTerminal st = Some st) ∧
  (cmd ≠ "" → ∃ st', runTerminal st = Some st' ∧ termInput st' = "" ∧
     (cmd = "!help" →
        logs st' = logs st ++ [echo; answer Success "!run !fix code !list !clear !help"] ∧
        projects st' = projects st) ∧
     (cmd = "!run" →
        logs st' = logs st ++ [echo; answer Success "Preview executed."] ∧
        projects st' = projects st) ∧
     (cmd = "!list" →
        logs st' = logs st ++ [echo; answer Info (join ", " (f_name <$> p_files pr))] ∧
        projects st' = projects st) ∧
     (cmd = "!clear" → logs st' = [] ∧ projects st' = projects st) ∧
     (cmd = "!fix code" →
        match activeFile st with
        | None =>
            logs st' = logs st ++ [echo; answer Error "No active file."] ∧
            projects st' = projects st
        | Some af =>
            logs st' = logs st ++ [echo; answer Success "Applied quick fix: var -> const"] ∧
            active_files st' = quick_fix af (p_files pr) ∧
            with_content (replaceAll "var " "const " (f_content af)) af ∈ active_files st'
        end) ∧
     (cmd ∉ terminal_tokens →
        logs st' = logs st ++ [echo; answer Error "Unknown command"] ∧
        projects st' = projects st)).
Proof.
  intros st pr. apply (runTerminal_commands st pr). reflexivity.
Defined.

(** The scenario of the specification: [!fix code] on a file containing
    [var x = 1] leaves [const x = 1]. *)
Example fix_code_scenario :
  ∃ st', runTerminal
           (typed "!fix code" (opened ["m1m1m1m1"] "m1m1m1m1" (page_with small_tree ∅)))
         = Some st' ∧
    active_files st' =
      [ mkFile "s0s0s0s0" "src" KFolder "" None;
        mkFile "m1m1m1m1" "main.js" KFile "const x = 1" (Some "s0s0s0s0");
        mkFile "h2h2h2h2" "index.html" KFile "<h1>hi</h1>" None ] ∧
    t_message <$> logs st' = ["> !fix code"; "Applied quick fix: var -> const"].
Proof. eexists. split; [vm_compute; reflexivity|]. by vm_compute. Qed.

(** An input that is not a command. *)
Example unknown_command :
  ∃ st', runTerminal (typed "ls -la" (page_with small_tree ∅)) = Some st' ∧
    t_message <$> logs st' = ["> ls -la"; "Unknown command"] ∧
    t_level <$> logs st' = [Info; Error].
Proof. eexists. split; [vm_compute; reflexivity|]. by vm_compute. Qed.

(** ** Editor and cross-tab channel *)

Lemma runTerminal_outbox st st' :
  runTerminal st = Some st' → outbox st' = outbox st.
Proof.
  intros Hrun. unfold runTerminal in Hrun.
  case_decide; [by simplify_eq|].
  apply bind_Some in Hrun as (st2 & Hst2 & Hst').
  apply (inj Some) in Hst'. subst st'. cbn [outbox setTermInput].
  repeat case_decide.
  - apply (inj Some) in Hst2. by subst st2.
  - apply (inj Some) in Hst2. by subst st2.
  - destruct (activeFile st) as [af|].
    + apply (inj Some) in Hst2. subst st2.
      change (outbox (addLog ?l ?m ?s)) with (outbox s).
      etrans; [apply patchProject_frame|done].
    + apply (inj Some) in Hst2. by subst st2.
  - destruct (project st); [|done]. cbn [mbind option_bind] in Hst2.
    apply (inj Some) in Hst2. by subst st2.
  - apply (inj Some) in Hst2. by subst st2.
  - apply (inj Some) in Hst2. by subst st2.
Qed.

Lemma runFindReplace_outbox findText replaceText e st st' :
  runFindReplace findText replaceText e st = Some st' → outbox st' = outbox st.
Proof.
  unfold runFindReplace. intros Hrun.
  destruct (activeFile st); [|by simplify_eq].
  case_decide; [by simplify_eq|].
  destruct (includes _ "$"); [done|].
  apply (inj Some) in Hrun. subst st'. apply patchProject_frame.
Qed.

(** C7 as stated fails in two ways.  The message the editor posts has the
    keys [type] and [projectId]; it has no key [kind] and no key
    [workspaceId], so it is not of the shape the claim gives, whatever the
    actor.  And not every edit of the active file is published: [!fix code]
    on the same page rewrites the content of the active file and posts
    nothing. *)
Lemma sync_message_not_as_specified :
  let st := logged_in (opened ["m1m1m1m1"] "m1m1m1m1" (page_with small_tree ∅)) in
  (∃ m, outbox (editorChange "let x = 2" st) = [("codeflow-collab", m)] ∧
        m !! "kind" = None ∧ m !! "workspaceId" = None ∧
        m !! "type" = Some (VStr "sync") ∧ m !! "projectId" = Some (VStr "w0rkspc1") ∧
        ¬ ∃ actor, m = spec_sync_message "w0rkspc1" "m1m1m1m1" "let x = 2" actor) ∧
  (auth st = User ∧
   activeFile st = Some (mkFile "m1m1m1m1" "main.js" KFile "var x = 1" (Some "s0s0s0s0")) ∧
   ∃ st', runTerminal (typed "!fix code" st) = Some st' ∧
     activeFile st' =
       Some (mkFile "m1m1m1m1" "main.js" KFile "const x = 1" (Some "s0s0s0s0")) ∧
     outbox st' = []).
Proof.
  intros st. split.
  - exists (sync_message "w0rkspc1" "m1m1m1m1" "let x = 2").
    split; [vm_compute; reflexivity|].
    split; [vm_compute; reflexivity|]. split; [vm_compute; reflexivity|].
    split; [vm_compute; reflexivity|]. split; [vm_compute; reflexivity|].
    intros [actor H].
    assert (sync_message "w0rkspc1" "m1m1m1m1" "let x = 2" !! "kind"
            = spec_sync_message "w0rkspc1" "m1m1m1m1" "let x = 2" actor !! "kind") as Hk
      by (by rewrite H).
    vm_compute in Hk. discriminate Hk.
  - split; [vm_compute; reflexivity|]. split; [vm_compute; reflexivity|].
    eexists. split; [vm_compute; reflexivity|].
    split; vm_compute; reflexivity.
Qed.

(** C7, as the code has it: a change typed into the editor while logged
    in writes the new content to the active file and posts on the channel
    [codeflow-collab] one message [{ type: "sync", projectId, fileId,
    content, actor: "remote" }] with the id of the active workspace, the
    id of the active file and the new content.  The two other handlers
    that rewrite the content of the active file, [!fix code] of the
    terminal and find and replace, post nothing. *)
Theorem editorChange_posts_sync st pr af v :
  project st = Some pr → activeFile st = Some af → auth st = User →
  let st' := editorChange v st in
  outbox st' = outbox st ++
    [("codeflow-collab",
      {[ "type" := VStr "sync"; "projectId" := VStr (p_id pr);
         "fileId" := VStr (f_id af); "content" := VStr v;
         "actor" := VStr "remote" ]})] ∧
  active_files st' = set_content (f_id af) v (p_files pr) ∧
  with_content v af ∈ active_files st' ∧
  (∀ st1, runTerminal st = Some st1 → outbox st1 = outbox st) ∧
  (∀ findText replaceText e st1,
     runFindReplace findText replaceText e st = Some st1 → outbox st1 = outbox st).
Proof.
  intros Hpr Haf Hauth st'. unfold st', editorChange.
  rewrite Haf, Hpr. rewrite decide_True by done.
  set (cb := λ p : Project, with_files (set_content (f_id af) v (p_files p)) p).
  destruct (patchProject_frame cb st) as (_ & _ & _ & _ & _ & _ & _ & _ & _ & _ & Ho & _).
  assert (active_files (postMessage (sync_message (p_id pr) (f_id af) v)
                          (patchProject cb st))
          = set_content (f_id af) v (p_files pr)) as Hfiles.
  { unfold active_files.
    change (project (postMessage _ ?s)) with (project s).
    rewrite project_patchProject by done. by rewrite Hpr. }
  split; [|split; [done|split; [|split]]].
  - simpl. by rewrite Ho.
  - rewrite Hfiles. apply list_elem_of_fmap. exists af.
    rewrite decide_True by done. split; [done|].
    by apply (activeFile_elem st pr af Hpr Haf).
  - apply runTerminal_outbox.
  - intros findText replaceText e st1. apply runFindReplace_outbox.
Qed.

Lemma editorChange_posts_sync_witness :
  let st := logged_in (opened ["m1m1m1m1"] "m1m1m1m1" (page_with small_tree ∅)) in
  let pr := mkProject "w0rkspc1" "Main Workspace" P2d small_tree [] [] ∅ [] in
  let af := mkFile "m1m1m1m1" "main.js" KFile "var x = 1" (Some "s0s0s0s0") in
  let v := "let x = 2" in
  let st' := editorChange v st in
  outbox st' = outbox st ++
    [("codeflow-collab",
      {[ "type" := VStr "sync"; "projectId" := VStr (p_id pr);
         "fileId" := VStr (f_id af); "content" := VStr v;
         "actor" := VStr "remote" ]})] ∧
  active_files st' = set_content (f_id af) v (p_files pr) ∧
  with_content v af ∈ active_files st' ∧
  (∀ st1, runTerminal st = Some st1 → outbox st1 = outbox st) ∧
  (∀ findText replaceText e st1,
     runFindReplace findText replaceText e st = Some st1 → outbox st1 = outbox st).
Proof.
  intros st pr af v.
  apply (editorChange_posts_sync st pr af v); reflexivity.
Defined.

(** A guest's edit posts nothing. *)
Lemma editorChange_guest_silent st v :
  auth st = Guest → outbox (editorChange v st) = outbox st.
Proof.
  intros Hg. unfold editorChange.
  destruct (activeFile st), (project st); try done.
  rewrite decide_False by congruence. apply patchProject_frame.
Qed.

(** The receiving tab accepts the message the editor posts. *)
Lemma onMessage_accepts_sync projectId fileId v st :
  ∃ st', onMessage (sync_message projectId fileId v) st = Some st' ∧
    t_message <$> logs st' = (t_message <$> logs st) ++ ["Collab update received"] ∧
    ∀ p, p ∈ projects st → p_id p = projectId →
         with_files (set_content fileId v (p_files p)) p ∈ projects st'.
Proof.
  unfold onMessage.
  rewrite decide_False by (intros [H|H]; by apply H).
  change (get (sync_message projectId fileId v) "content") with (VStr v).
  eexists. split; [done|]. split.
  - simpl. by rewrite fmap_app.
  - intros p Hp Hid. simpl. apply list_elem_of_fmap. exists p. split; [|done].
    change (get (sync_message projectId fileId v) "projectId") with (VStr projectId).
    change (get (sync_message projectId fileId v) "fileId") with (VStr fileId).
    rewrite decide_False by (intros H; apply H; by rewrite Hid).
    f_equal. unfold set_content. apply list_fmap_ext. intros _ f _.
    destruct (decide (f_id f = fileId)) as [->|Hne].
    + by rewrite decide_True.
    + rewrite decide_False; [done|congruence].
Qed.

(** ** Workspaces *)

Lemma patchProject_length cb st :
  length (projects (patchProject cb st)) = length (projects st).
Proof.
  unfold patchProject. destruct (project st); [|done].
  simpl. by rewrite length_fmap.
Qed.

Lemma patchProjectU_length k cb st :
  length (projects (patchProjectU k cb st)) = length (projects st).
Proof.
  unfold patchProjectU. destruct (project st); [|done].
  pose proof (patch_drawing_length k cb (p_id p) (uid_source st) (uid_next st)
                (projects st)) as H.
  by destruct (patch_drawing _ _ _ _ _ _).
Qed.

Lemma nonempty_length {A} (l : list A) : l ≠ [] ↔ 0 < length l.
Proof. destruct l; simpl; split; (done || lia). Qed.

(** What a call of the SDK that does not throw leaves. *)
Lemma addDoc_Some h data st r st' :
  addDoc h data st = Some (r, st') →
  r = RetUndefined ∧
  st' = patchProjectUOf (h_project h) 1 (λ ids p,
          with_collections
            (<[h_name h :=
                 docs_of (h_name h) p ++ [newDoc (default "" (ids !! 0)) data]]>
               (p_collections p)) p) st.
Proof.
  unfold addDoc. case_decide; [done|]. intros Heq. apply (inj Some) in Heq.
  apply pair_equal_spec in Heq as [<- <-]. done.
Qed.

Lemma updateDoc_Some h id data st r st' :
  updateDoc h id data st = Some (r, st') →
  r = RetUndefined ∧
  st' = patchProjectOf (h_project h) (λ p,
          with_collections
            (<[h_name h :=
                 (λ d, if decide (get d "id" = VStr id) then data ∪ d else d)
                   <$> docs_of (h_name h) p]> (p_collections p)) p) st.
Proof.
  unfold updateDoc. case_decide; [done|]. intros Heq. apply (inj Some) in Heq.
  apply pair_equal_spec in Heq as [<- <-]. done.
Qed.

Lemma deleteDoc_Some h id st r st' :
  deleteDoc h id st = Some (r, st') →
  r = RetUndefined ∧
  st' = patchProjectOf (h_project h) (λ p,
          with_collections
            (<[h_name h := filter (λ d, get d "id" ≠ VStr id) (docs_of (h_name h) p)]>
               (p_collections p)) p) st.
Proof.
  unfold deleteDoc. case_decide; [done|]. intros Heq. apply (inj Some) in Heq.
  apply pair_equal_spec in Heq as [<- <-]. done.
Qed.

(** A script's call of the SDK as a step of the page. *)
Lemma step_sdk a st st' :
  step a st = Some st' →
  match a with
  | AddDoc name data =>
      st' = patchProjectU 1 (λ ids p,
              with_collections
                (<[name := docs_of name p ++ [newDoc (default "" (ids !! 0)) data]]>
                   (p_collections p)) p) st
  | UpdateDoc name id data =>
      st' = patchProject (λ p,
              with_collections
                (<[name := (λ d, if decide (get d "id" = VStr id) then data ∪ d else d)
                             <$> docs_of name p]> (p_collections p)) p) st
  | DeleteDoc name id =>
      st' = patchProject (λ p,
              with_collections
                (<[name := filter (λ d, get d "id" ≠ VStr id) (docs_of name p)]>
                   (p_collections p)) p) st
  | _ => True
  end.
Proof.
  destruct a; try done; cbn [step]; intros Hstep;
    apply fmap_Some in Hstep as ([r s] & Hcall & ->); cbn [snd].
  - by destruct (addDoc_Some _ _ _ _ _ Hcall) as [_ ->].
  - by destruct (updateDoc_Some _ _ _ _ _ _ Hcall) as [_ ->].
  - by destruct (deleteDoc_Some _ _ _ _ _ Hcall) as [_ ->].
Qed.

Lemma deleteWorkspace_single st :
  length (projects st) = 1 → deleteWorkspace st = Returns st.
Proof. intros H. unfold deleteWorkspace. by rewrite decide_True. Qed.

(** With more than one workspace, or none, the delete button leaves the
    workspaces whose id is not that of the active one, whether it returns
    or throws. *)
Lemma deleteWorkspace_projects st pr :
  project st = Some pr → length (projects st) ≠ 1 →
  projects (state_of (deleteWorkspace st))
    = filter (λ p, p_id p ≠ p_id pr) (projects st).
Proof.
  intros Hpr Hlen. unfold deleteWorkspace. rewrite decide_False by done.
  rewrite Hpr. by destruct (filter _ (projects st)).
Qed.

Lemma makeProject_frame name type st :
  openTabs (makeProject name type st).2 = openTabs st ∧
  activeFileId (makeProject name type st).2 = activeFileId st ∧
  projects (makeProject name type st).2 = projects st.
Proof. repeat split; reflexivity. Qed.

Lemma makeDefaultFiles_list st :
  let n := uid_next st in
  let src := uid_source st in
  (makeDefaultFiles st).1 =
    [ mkFile (src n) "src" KFolder "" None;
      mkFile (src (1 + n)) "CodeSpace.cs" KFile "// Core scripts" (Some (src n));
      mkFile (src (2 + n)) "React Hooks.rh" KFile "// Hooks registry" (Some (src n));
      mkFile (src (3 + n)) "Server Utilities.su" KFile "// Server utilities"
        (Some (src n));
      mkFile (src (4 + n)) "index.html" KFile "<h1>CodeFlow IDE v1</h1>" None;
      mkFile (src (5 + n)) "styles.css" KFile
        "body{font-family:Inter,sans-serif;background:#111827;color:#e5e7eb}" None;
      mkFile (src (6 + n)) "main.js" KFile "console.log('CodeFlow v1 loaded')" None ].
Proof. reflexivity. Qed.

Lemma makeProject_fields name type st :
  let p := (makeProject name type st).1 in
  p_id p = uid_source st (uid_next st) ∧ p_name p = name ∧ p_type p = type ∧
  p_files p = (makeDefaultFiles (uid st).2).1 ∧
  p_collections p = {[ "3D Models" := []; "appData" := [] ]} ∧
  p_connected p = [] ∧ p_collaborators p = [] ∧ p_apiKeys p = [].
Proof. intros p. unfold p. split_and!; vm_compute; reflexivity. Qed.

(** The startup effect takes a stored workspace list as it is, unless it is
    empty: then the list is one workspace made by [makeProject()]. *)
Lemma startup_stored st parsed :
  storage st = Some parsed →
  ∃ st', startup st = Some st' ∧
    (s_projects parsed ≠ [] → projects st' = s_projects parsed) ∧
    (s_projects parsed = [] →
       ∃ p, projects st' = [p] ∧ project st' = Some p ∧
         p_id p = uid_source st (uid_next st) ∧
         p_name p = "Main Workspace" ∧ p_type p = P2d ∧
         f_name <$> p_files p =
           ["src"; "CodeSpace.cs"; "React Hooks.rh"; "Server Utilities.su";
            "index.html"; "styles.css"; "main.js"] ∧
         p_collections p = {[ "3D Models" := []; "appData" := [] ]} ∧
         p_connected p = []).
Proof.
  intros Hs. unfold startup. rewrite Hs.
  destruct (s_projects parsed) as [|p ps] eqn:E.
  - pose proof (makeProject_fields "Main Workspace" P2d (setAuth (s_auth parsed) st))
      as (Hid & Hname & Hty & Hfiles & Hcolls & Hconn & _).
    destruct (makeProject "Main Workspace" P2d (setAuth (s_auth parsed) st))
      as [q s] eqn:Em.
    cbn [fst] in *.
    eexists. split; [reflexivity|]. cbn [projects setActiveProjectId setProjects].
    split; [intros Hn; exfalso; by apply Hn|]. intros _. exists q.
    split; [reflexivity|].
    split.
    { unfold project. cbn [projects activeProjectId setActiveProjectId setProjects].
      cbn [list_find]. case_decide; reflexivity. }
    split; [exact Hid|]. split; [exact Hname|]. split; [exact Hty|].
    split; [rewrite Hfiles; by rewrite (makeDefaultFiles_list (uid _).2)|].
    split; [exact Hcolls|exact Hconn].
  - eexists. split; [reflexivity|]. cbn [projects setActiveProjectId setProjects].
    split; [reflexivity|]. intros H. discriminate H.
Qed.

(** Every handler but the deletion of a workspace keeps at least one
    workspace. *)
Lemma step_keeps_some a st st' :
  projects st ≠ [] → a ≠ DeleteWorkspace →
  step a st = Some st' → projects st' ≠ [].
Proof.
  intros Hne Hdel Hstep.
  assert (∀ cb, projects (patchProject cb st) ≠ []) as Hpatch.
  { intros cb. apply nonempty_length. rewrite patchProject_length.
    by apply nonempty_length. }
  assert (∀ k cb, projects (patchProjectU k cb st) ≠ []) as HpatchU.
  { intros k cb. apply nonempty_length. rewrite patchProjectU_length.
    by apply nonempty_length. }
  pose proof (step_sdk a st st' Hstep) as Hsdk.
  destruct a; cbn [step] in Hstep.
  - (* Startup *)
    unfold startup in Hstep. destruct (storage st) as [parsed|] eqn:Hs.
    + destruct (startup_stored st parsed Hs) as (st'' & Hst & Hsome & Hnone).
      unfold startup in Hst. rewrite Hs in Hst.
      assert (st'' = st') as -> by congruence.
      destruct (s_projects parsed) as [|p ps] eqn:E.
      * destruct (Hnone eq_refl) as (p & -> & _). done.
      * rewrite Hsome by done. done.
    + case_decide; [|by simplify_eq].
      destruct (head (projects st)); simpl in Hstep; by simplify_eq.
  - by simplify_eq.
  - apply (inj Some) in Hstep. subst st'. unfold newWorkspace.
    destruct (makeProject _ _ st) as [q st1].
    cbn [projects setActiveProjectId setProjects]. by destruct (projects st1).
  - done.
  - by simplify_eq.
  - simplify_eq. apply HpatchU.
  - simplify_eq. apply HpatchU.
  - simplify_eq. unfold openFile. by destruct (f_kind f).
  - by simplify_eq.
  - unfold renameFile in Hstep. destruct (project st); simpl in Hstep; [|done].
    destruct (list_find _ _); [|by simplify_eq].
    destruct answer as [[|??]|]; simplify_eq; done.
  - unfold moveFile in Hstep. destruct (project st); simpl in Hstep; [|done].
    simplify_eq. apply Hpatch.
  - unfold deleteFile in Hstep. destruct (project st); simpl in Hstep; [|done].
    destruct (descendants _ _ _); simpl in Hstep; [|done].
    simplify_eq. case_decide; simpl; apply Hpatch.
  - unfold moveSelected in Hstep. destruct (project st); simpl in Hstep; by simplify_eq.
  - simplify_eq. unfold dropIntoFolder.
    destruct (moveTarget st) as [[|??]|]; try done. simpl. apply Hpatch.
  - by simplify_eq.
  - unfold runTerminal in Hstep. case_decide; [by simplify_eq|].
    repeat case_decide; simpl in Hstep.
    + by simplify_eq.
    + by simplify_eq.
    + destruct (activeFile st); simpl in Hstep; simplify_eq; simpl; [|done].
      apply nonempty_length. rewrite patchProject_length. by apply nonempty_length.
    + destruct (project st); simpl in Hstep; by simplify_eq.
    + by simplify_eq.
    + by simplify_eq.
  - simplify_eq. unfold editorChange.
    destruct (activeFile st), (project st) eqn:?; try done.
    case_decide; simpl; apply Hpatch.
  - unfold onMessage in Hstep. case_decide; [by simplify_eq|].
    destruct (get msg "content"); simplify_eq. simpl.
    apply nonempty_length. rewrite length_fmap. by apply nonempty_length.
  - subst st'. apply HpatchU.
  - subst st'. apply Hpatch.
  - subst st'. apply Hpatch.
Qed.

Lemma filter_none {A} (P : A → Prop) `{∀ x, Decision (P x)} (l : list A) :
  (∀ x, x ∈ l → ¬ P x) → filter P l = [].
Proof.
  induction l as [|x l IH]; intros Hl; [done|].
  rewrite filter_cons_False by (apply Hl; apply elem_of_cons; auto).
  apply IH. intros y Hy. apply Hl. apply elem_of_cons. auto.
Qed.

Lemma Action_delete_or a : a = DeleteWorkspace ∨ a ≠ DeleteWorkspace.
Proof. destruct a; ((by left) || (by right)). Qed.

Lemma sync_into_length sourceFiles connected src ps : ∀ n,
  length (sync_into sourceFiles connected src n ps).1 = length ps.
Proof.
  induction ps as [|q ps IH]; intros n; [done|]. cbn [sync_into].
  case_decide.
  - specialize (IH (n + length sourceFiles)).
    destruct (sync_into _ _ _ (n + length sourceFiles) ps). simpl in *. lia.
  - specialize (IH n). destruct (sync_into _ _ _ n ps). simpl in *. lia.
Qed.

(** The handlers outside [step] keep the number of workspaces. *)
Lemma further_handlers_keep_some st st' :
  projects st ≠ [] →
  (∃ name text, st' = uploadFile name text st) ∨
  (∃ fuel, bulkDelete fuel st = Some st') ∨
  (∃ id checked, st' = toggleSelected id checked st) ∨
  (∃ findText replaceText e, runFindReplace findText replaceText e st = Some st') ∨
  st' = connectWorkspace st ∨
  syncConnected st = Some st' ∨
  (∃ name, addCollection name st = Some st') ∨
  (∃ id, st' = publishModel id st) →
  projects st' ≠ [].
Proof.
  intros Hne.
  assert (∀ cb, projects (patchProject cb st) ≠ []) as Hpatch.
  { intros cb. apply nonempty_length. rewrite patchProject_length.
    by apply nonempty_length. }
  intros [(name & text & ->)|[(fuel & H)|[(id & checked & ->)|[(f & r & e & H)|
          [->|[H|[(name & H)|(id & ->)]]]]]]].
  - apply nonempty_length. unfold uploadFile. rewrite patchProjectU_length.
    by apply nonempty_length.
  - unfold bulkDelete in H. destruct (project st); [|done]. cbn [mbind option_bind] in H.
    destruct (mapM _ _); [|done]. cbn [mbind option_bind] in H.
    apply (inj Some) in H. subst st'. cbn [projects setSelectedIds]. apply Hpatch.
  - done.
  - unfold runFindReplace in H. destruct (activeFile st); [|by simplify_eq].
    case_decide; [by simplify_eq|]. destruct (includes _ "$"); [done|].
    apply (inj Some) in H. subst st'. apply Hpatch.
  - unfold connectWorkspace. destruct (project st); [|done].
    destruct (list_find _ _) as [[??]|]; [apply Hpatch|done].
  - unfold syncConnected in H. destruct (project st) as [pr|]; [|done].
    cbn [mbind option_bind] in H. case_decide; [by simplify_eq|].
    pose proof (sync_into_length (sync_sources (p_files pr)) (p_connected pr)
                  (uid_source st) (projects st) (uid_next st)) as Hlen.
    destruct (sync_into _ _ _ _ _) as [ps n]. apply (inj Some) in H. subst st'.
    change (projects (addLog ?l ?m ?s)) with (projects s). cbn [projects fst] in *.
    apply nonempty_length. rewrite Hlen. by apply nonempty_length.
  - unfold addCollection in H. case_decide; [by simplify_eq|].
    case_decide; [done|]. apply (inj Some) in H. subst st'. apply Hpatch.
  - apply Hpatch.
Qed.

(** C8, as the code has it.  With a single workspace the delete button
    changes nothing.  A handler leaves the workspace list empty in one
    case only: the delete button, pressed on two or more workspaces that
    all carry the id of the active one.  The handlers outside [step] keep
    a workspace list that is not empty so too, and [patchProject], through
    which every other handler writes the list, keeps its length.  The
    startup effect takes a stored workspace list as it is and puts one
    fresh default workspace, named [Main Workspace], in the place of an
    empty one. *)
Theorem workspace_list_emptied_only_by_delete st :
  (length (projects st) = 1 → deleteWorkspace st = Returns st) ∧
  (projects st ≠ [] → ∀ a st', step a st = Some st' →
     (projects st' = [] ↔
        a = DeleteWorkspace ∧ length (projects st) ≠ 1 ∧
        ∃ pr, project st = Some pr ∧ ∀ q, q ∈ projects st → p_id q = p_id pr)) ∧
  (projects st ≠ [] → ∀ st',
     (∃ name text, st' = uploadFile name text st) ∨
     (∃ fuel, bulkDelete fuel st = Some st') ∨
     (∃ id checked, st' = toggleSelected id checked st) ∨
     (∃ findText replaceText e, runFindReplace findText replaceText e st = Some st') ∨
     st' = connectWorkspace st ∨
     syncConnected st = Some st' ∨
     (∃ name, addCollection name st = Some st') ∨
     (∃ id, st' = publishModel id st) →
     projects st' ≠ []) ∧
  (∀ cb, length (projects (patchProject cb st)) = length (projects st)) ∧
  (∀ parsed, storage st = Some parsed →
     ∃ st', startup st = Some st' ∧
       (s_projects parsed ≠ [] → projects st' = s_projects parsed) ∧
       (s_projects parsed = [] →
          ∃ p, projects st' = [p] ∧ project st' = Some p ∧
            p_id p = uid_source st (uid_next st) ∧
            p_name p = "Main Workspace" ∧ p_type p = P2d ∧
            f_name <$> p_files p =
              ["src"; "CodeSpace.cs"; "React Hooks.rh"; "Server Utilities.su";
               "index.html"; "styles.css"; "main.js"] ∧
            p_collections p = {[ "3D Models" := []; "appData" := [] ]} ∧
            p_connected p = [])).
Proof.
  split; [apply deleteWorkspace_single|].
  split; [|split; [intros Hne st'; by apply further_handlers_keep_some
                  |split; [intros cb; apply patchProject_length|apply startup_stored]]].
  intros Hne a st' Hstep.
  destruct (Action_delete_or a) as [->|Ha].
  - cbn [step] in Hstep. apply (inj Some) in Hstep. subst st'.
    destruct (project_nonempty st Hne) as [pr Hpr].
    destruct (decide (length (projects st) = 1)) as [Hlen|Hlen].
    + rewrite (deleteWorkspace_single st Hlen). cbn [state_of].
      split; [done|]. intros (_ & Hl & _). done.
    + rewrite (deleteWorkspace_projects st pr Hpr Hlen). split.
      * intros Hnil. split; [done|]. split; [done|]. exists pr. split; [done|].
        intros q Hq. destruct (decide (p_id q = p_id pr)) as [|Hqid]; [done|].
        assert (q ∈ filter (λ p, p_id p ≠ p_id pr) (projects st)) as Hin
          by (by apply list_elem_of_filter).
        rewrite Hnil in Hin. by apply elem_of_nil in Hin.
      * intros (_ & _ & pr' & Hpr' & Hall).
        assert (pr' = pr) as -> by congruence.
        apply filter_none. intros q Hq Hqid. by apply Hqid, Hall.
  - split.
    + intros Hnil. by destruct (step_keeps_some a st st' Hne Ha Hstep).
    + intros (Hd & _). done.
Qed.

Lemma workspace_list_emptied_only_by_delete_witness :
  deleteWorkspace fresh_page = Returns fresh_page ∧
  (∀ a st', step a two_workspaces = Some st' →
     (projects st' = [] ↔
        a = DeleteWorkspace ∧ length (projects two_workspaces) ≠ 1 ∧
        ∃ pr, project two_workspaces = Some pr ∧
              ∀ q, q ∈ projects two_workspaces → p_id q = p_id pr)) ∧
  (∀ st',
     (∃ name text, st' = uploadFile name text two_workspaces) ∨
     (∃ fuel, bulkDelete fuel two_workspaces = Some st') ∨
     (∃ id checked, st' = toggleSelected id checked two_workspaces) ∨
     (∃ findText replaceText e,
        runFindReplace findText replaceText e two_workspaces = Some st') ∨
     st' = connectWorkspace two_workspaces ∨
     syncConnected two_workspaces = Some st' ∨
     (∃ name, addCollection name two_workspaces = Some st') ∨
     (∃ id, st' = publishModel id two_workspaces) →
     projects st' ≠ []) ∧
  (∀ cb, length (projects (patchProject cb two_workspaces))
         = length (projects two_workspaces)) ∧
  (∃ st', startup page_stored_empty = Some st' ∧
     (s_projects (mkPersisted User [] "") ≠ [] →
        projects st' = s_projects (mkPersisted User [] "")) ∧
     (s_projects (mkPersisted User [] "") = [] →
        ∃ p, projects st' = [p] ∧ project st' = Some p ∧
          p_id p = uid_source page_stored_empty (uid_next page_stored_empty) ∧
          p_name p = "Main Workspace" ∧ p_type p = P2d ∧
          f_name <$> p_files p =
            ["src"; "CodeSpace.cs"; "React Hooks.rh"; "Server Utilities.su";
             "index.html"; "styles.css"; "main.js"] ∧
          p_collections p = {[ "3D Models" := []; "appData" := [] ]} ∧
          p_connected p = [])).
Proof.
  assert (projects two_workspaces ≠ []) as Hne by (vm_compute; discriminate).
  split.
  { apply (proj1 (workspace_list_emptied_only_by_delete fresh_page)).
    vm_compute. reflexivity. }
  split.
  { exact (proj1 (proj2 (workspace_list_emptied_only_by_delete two_workspaces)) Hne). }
  split.
  { exact (proj1 (proj2 (proj2 (workspace_list_emptied_only_by_delete two_workspaces)))
             Hne). }
  split.
  { exact (proj1 (proj2 (proj2 (proj2
             (workspace_list_emptied_only_by_delete two_workspaces))))). }
  apply (proj2 (proj2 (proj2 (proj2
           (workspace_list_emptied_only_by_delete page_stored_empty))))).
  vm_compute. reflexivity.
Defined.

(** C8 as stated fails: the id of a workspace is a draw of [uid] that
    nothing compares with the ids in use.  When the draw for a second
    workspace repeats the id of the first, or a stored blob holds two
    workspaces under one id, the delete button filters both out, queues the
    empty list and throws; the workspace list is empty. *)
Lemma delete_twin_workspaces_empties_list :
  (∃ st1 st2,
     step (NewWorkspace None false) twin_page = Some st1 ∧
     p_id <$> projects st1 = ["k3k3k3k3"; "k3k3k3k3"] ∧
     deleteWorkspace st1 = Throws st2 ∧
     step DeleteWorkspace st1 = Some st2 ∧ projects st2 = []) ∧
  (∃ st1 st2,
     startup (initial sample_ids (Some twin_blob)) = Some st1 ∧
     projects st1 = s_projects twin_blob ∧
     deleteWorkspace st1 = Throws st2 ∧
     step DeleteWorkspace st1 = Some st2 ∧ projects st2 = []).
Proof.
  split.
  - eexists _, _. split; [vm_compute; reflexivity|].
    split; [vm_compute; reflexivity|]. split; [vm_compute; reflexivity|].
    split; vm_compute; reflexivity.
  - eexists _, _. split; [vm_compute; reflexivity|].
    split; [vm_compute; reflexivity|]. split; [vm_compute; reflexivity|].
    split; vm_compute; reflexivity.
Qed.

(** Deleting the active one of two workspaces leaves the other, and a
    stored blob without workspaces yields the default workspace. *)
Example delete_second_workspace :
  ∃ st', deleteWorkspace two_workspaces = Returns st' ∧
    p_name <$> projects st' = ["Main Workspace"] ∧
    activeProjectId st' = "x7k2m100".
Proof. eexists. split; [vm_compute; reflexivity|]. by vm_compute. Qed.

Example startup_empty_blob :
  ∃ st', startup page_stored_empty = Some st' ∧
    p_name <$> projects st' = ["Main Workspace"] ∧ auth st' = User ∧
    (f_name <$> active_files st') =
      ["src"; "CodeSpace.cs"; "React Hooks.rh"; "Server Utilities.su";
       "index.html"; "styles.css"; "main.js"].
Proof. eexists. split; [vm_compute; reflexivity|]. by vm_compute. Qed.

(** ** File tree *)

Example renderTree_mixed :
  (λ r, (f_name (r_file r), r_label r)) <$>
    default [] (renderTree byte_order ascii_lower 7 (page_with mixed_tree ∅))
  = [ ("app", "📁 app"); ("lib", "📁 lib"); ("core", "  📁 core");
      ("util.js", "  📄 util.js"); ("alpha.js", "📄 alpha.js");
      ("zeta.js", "📄 zeta.js") ].
Proof. vm_compute. reflexivity. Qed.

(** *** Sorting *)

Lemma insert_sorted_perm {A} (cmp : A → A → Z) x l :
  insert_sorted cmp x l ≡ₚ x :: l.
Proof.
  induction l as [|y l IH]; simpl; [done|].
  case_decide; [done|]. rewrite IH. apply Permutation_swap.
Qed.

Lemma sort_perm {A} (cmp : A → A → Z) l : sort cmp l ≡ₚ l.
Proof.
  induction l as [|x l IH]; simpl; [done|].
  unfold sort in *. simpl. by rewrite insert_sorted_perm, IH.
Qed.

Lemma elem_of_sort {A} (cmp : A → A → Z) l x : x ∈ sort cmp l ↔ x ∈ l.
Proof. by rewrite (sort_perm cmp l). Qed.

Section sorting.
Context {A} (cmp : A → A → Z).
Hypothesis cmp_total : ∀ a b, (cmp a b ≤ 0 ∨ cmp b a ≤ 0)%Z.
Hypothesis cmp_trans : ∀ a b c, (cmp a b ≤ 0 → cmp b c ≤ 0 → cmp a c ≤ 0)%Z.

Lemma insert_sorted_sorted x l :
  StronglySorted (λ a b, (cmp a b ≤ 0)%Z) l →
  StronglySorted (λ a b, (cmp a b ≤ 0)%Z) (insert_sorted cmp x l).
Proof.
  induction 1 as [|y l Hl IH Hy]; simpl.
  - repeat constructor.
  - case_decide as Hxy.
    + constructor; [by constructor|]. constructor; [done|].
      eapply Forall_impl; [exact Hy|]. intros z Hz. by eapply cmp_trans.
    + constructor; [done|].
      rewrite (insert_sorted_perm cmp x l). constructor; [|done].
      destruct (cmp_total x y); [done|done].
Qed.

Lemma sort_sorted l : StronglySorted (λ a b, (cmp a b ≤ 0)%Z) (sort cmp l).
Proof.
  induction l as [|x l IH]; [constructor|].
  unfold sort in *. simpl. by apply insert_sorted_sorted.
Qed.
End sorting.

Lemma StronglySorted_lookup {A} (R : relation A) l i j a b :
  StronglySorted R l → i < j → l !! i = Some a → l !! j = Some b → R a b.
Proof.
  intros Hs. revert i j. induction Hs as [|x l Hl IH Hx]; intros i j Hij Hi Hj; [done|].
  destruct i as [|i], j as [|j]; try lia; simpl in *.
  - simplify_eq. eapply Forall_forall; [exact Hx|]. by eapply list_elem_of_lookup_2.
  - apply (IH i j); [lia|done..].
Qed.

Section collation.
Context (localeCompare : string → string → Z).
Hypothesis lc_total : ∀ a b, (localeCompare a b ≤ 0 ∨ localeCompare b a ≤ 0)%Z.
Hypothesis lc_trans :
  ∀ a b c, (localeCompare a b ≤ 0 → localeCompare b c ≤ 0 → localeCompare a c ≤ 0)%Z.

Lemma compareRows_le a b :
  (compareRows localeCompare a b ≤ 0)%Z ↔
    (f_kind a = KFolder ∧ f_kind b = KFile) ∨
    (f_kind a = f_kind b ∧ (localeCompare (f_name a) (f_name b) ≤ 0)%Z).
Proof.
  unfold compareRows, is_file.
  destruct (f_kind a), (f_kind b); simpl; split; intros H;
    try (right; split; [done|exact H]); try (left; done);
    try (destruct H as [[??]|[? H]]; done); try lia.
Qed.

Lemma compareRows_total a b :
  (compareRows localeCompare a b ≤ 0 ∨ compareRows localeCompare b a ≤ 0)%Z.
Proof.
  rewrite !compareRows_le.
  destruct (f_kind a) eqn:Ea, (f_kind b) eqn:Eb;
    destruct (lc_total (f_name a) (f_name b)); naive_solver.
Qed.

Lemma compareRows_trans a b c :
  (compareRows localeCompare a b ≤ 0 → compareRows localeCompare b c ≤ 0 →
   compareRows localeCompare a c ≤ 0)%Z.
Proof.
  rewrite !compareRows_le.
  intros [[??]|[? Hab]] [[??]|[? Hbc]]; try congruence.
  - left. split; congruence.
  - left. split; congruence.
  - right. split; [congruence|]. by eapply lc_trans.
Qed.
End collation.

(** *** [listTree] on the heap and as a function of the files *)

Lemma flatMap_from_spec {B} (cb : FileItem → Heap → option (list B * Heap))
    (g : FileItem → option (list B)) (h0 : Heap) (r : nat) (a : list FileItem) :
  h0 !! r = Some a →
  (∀ x ext, x ∈ a →
     match g x with
     | Some ys => ∃ ext', cb x (h0 ++ ext) = Some (ys, (h0 ++ ext) ++ ext')
     | None => cb x (h0 ++ ext) = None
     end) →
  ∀ todo i ext, i + todo = length a →
    match mapM g (drop i a) with
    | Some yss =>
        ∃ ext', flatMap_from cb r i todo (h0 ++ ext) = Some (mjoin yss, (h0 ++ ext) ++ ext')
    | None => flatMap_from cb r i todo (h0 ++ ext) = None
    end.
Proof.
  intros Hr Hcb. induction todo as [|todo IH]; intros i ext Hlen.
  - rewrite drop_ge by lia. simpl. exists []. by rewrite app_nil_r.
  - simpl. rewrite (lookup_app_l_Some _ _ _ _ Hr). simpl.
    destruct (a !! i) as [x|] eqn:Hx; [|apply lookup_ge_None in Hx; lia].
    rewrite (drop_S _ _ _ Hx). simpl.
    specialize (Hcb x ext (list_elem_of_lookup_2 _ _ _ Hx)).
    destruct (g x) as [ys|]; simpl.
    + destruct Hcb as [ext1 ->]. simpl.
      specialize (IH (S i) (ext ++ ext1) ltac:(lia)).
      rewrite app_assoc in IH.
      destruct (mapM g (drop (S i) a)) as [yss|]; simpl.
      * destruct IH as [ext2 ->]. simpl. exists (ext1 ++ ext2).
        by rewrite !app_assoc.
      * by rewrite IH.
    + by rewrite Hcb.
Qed.

Section tree.
Context (localeCompare : string → string → Z).

Lemma listTree_tree_rows fuel h filtered fl parentId depth :
  h !! filtered = Some fl →
  match tree_rows localeCompare fuel fl parentId depth with
  | Some rows =>
      ∃ ext, listTree localeCompare fuel filtered parentId depth h = Some (rows, h ++ ext)
  | None => listTree localeCompare fuel filtered parentId depth h = None
  end.
Proof.
  revert h parentId depth. induction fuel as [|n IH]; intros h parentId depth Hf; [done|].
  simpl. unfold array_filter. rewrite Hf. simpl.
  set (flt := filter (λ f, f_parentId f = parentId) fl).
  unfold array_sort. rewrite lookup_app_r by lia.
  rewrite Nat.sub_diag. simpl.
  assert (<[length h := sort (compareRows localeCompare) flt]> (h ++ [flt])
          = h ++ [sort (compareRows localeCompare) flt]) as ->.
  { rewrite insert_app_r_alt by lia. by rewrite Nat.sub_diag. }
  set (sorted := sort (compareRows localeCompare) flt).
  unfold array_flatMap.
  assert ((h ++ [sorted]) !! length h = Some sorted) as Hs.
  { rewrite lookup_app_r by lia. by rewrite Nat.sub_diag. }
  rewrite Hs. simpl.
  set (g := λ f : FileItem,
    match f_kind f with
    | KFolder => rest ← tree_rows localeCompare n fl (Some (f_id f)) (S depth);
                 Some (mkRow f (label depth f) :: rest)
    | KFile => Some [mkRow f (label depth f)]
    end).
  pose proof (flatMap_from_spec
    (λ f h', match f_kind f with
             | KFolder =>
                 '(rest, h'') ← listTree localeCompare n filtered (Some (f_id f)) (S depth) h';
                 Some (mkRow f (label depth f) :: rest, h'')
             | KFile => Some ([mkRow f (label depth f)], h')
             end)
    g (h ++ [sorted]) (length h) sorted Hs) as Hfm.
  specialize (Hfm ltac:(
    intros x ext _; unfold g; destruct (f_kind x);
    [ exists []; by rewrite app_nil_r
    | specialize (IH ((h ++ [sorted]) ++ ext) (Some (f_id x)) (S depth));
      rewrite <- app_assoc in IH;
      specialize (IH (lookup_app_l_Some _ _ _ _ Hf));
      rewrite app_assoc in IH;
      destruct (tree_rows localeCompare n fl (Some (f_id x)) (S depth)); simpl;
      [ destruct IH as [ext' ->]; simpl; by exists ext'
      | by rewrite IH ] ])).
  specialize (Hfm (length sorted) 0 [] ltac:(lia)).
  rewrite drop_0, app_nil_r in Hfm. fold g.
  destruct (mapM g sorted) as [yss|]; simpl.
  - destruct Hfm as [ext' ->]. exists ([sorted] ++ ext'). by rewrite app_assoc.
  - done.
Qed.
End tree.

Section tree_rows.
Context (localeCompare : string → string → Z).
Context (fl : list FileItem).
Hypothesis fl_forest : forest fl.

Local Notation rows_of := (tree_rows localeCompare).
Local Notation siblings pid :=
  (sort (compareRows localeCompare) (filter (λ f, f_parentId f = pid) fl)).

Lemma elem_of_siblings pid x :
  x ∈ siblings pid ↔ x ∈ fl ∧ f_parentId x = pid.
Proof. by rewrite elem_of_sort, list_elem_of_filter, (comm and). Qed.

Lemma tree_rows_total_aux n (seen : list string) pid depth :
  NoDup seen → (∀ s, s ∈ seen → s ∈ f_id <$> fl) →
  (∀ s, s ∈ seen → ∃ q, pid = Some q ∧ (s = q ∨ ancestor fl s q)) →
  length fl < n + length seen →
  is_Some (rows_of n fl pid depth).
Proof.
  revert seen pid depth.
  induction n as [|n IH]; intros seen pid depth Hnd Hsub Hbelow Hlen.
  - apply NoDup_submseteq in Hsub; [|done].
    apply submseteq_length in Hsub. rewrite length_fmap in Hsub. lia.
  - simpl. apply fmap_is_Some, mapM_is_Some, Forall_forall. intros x Hx.
    apply elem_of_siblings in Hx as [Hx Hp]. simpl.
    destruct (f_kind x); [eauto|].
    assert (is_Some (rows_of n fl (Some (f_id x)) (S depth))) as [rest ->];
      [|by eauto].
    apply (IH (f_id x :: seen)).
    + apply NoDup_cons. split; [|done]. intros Hin.
      destruct (Hbelow _ Hin) as (q & -> & Hq).
      assert (child_of fl q (f_id x)) as Hc by (exists x; eauto).
      apply (fl_forest (f_id x)). destruct Hq as [Hq|Ha].
      * apply tc_once. by rewrite <- Hq in Hc.
      * by eapply tc_r.
    + intros s Hs. apply elem_of_cons in Hs as [->|Hs]; [|by apply Hsub].
      apply list_elem_of_fmap. eauto.
    + intros s Hs. exists (f_id x). split; [done|].
      apply elem_of_cons in Hs as [->|Hs]; [by left|right].
      destruct (Hbelow _ Hs) as (q & -> & Hq).
      assert (child_of fl q (f_id x)) as Hc by (exists x; eauto).
      destruct Hq as [->|Ha]; [by apply tc_once|by eapply tc_r].
    + simpl. lia.
Qed.

Lemma tree_rows_total fuel pid depth :
  length fl < fuel → is_Some (rows_of fuel fl pid depth).
Proof.
  intros Hlen. apply (tree_rows_total_aux fuel [] pid depth).
  - constructor.
  - intros s Hs. by apply elem_of_nil in Hs.
  - intros s Hs. by apply elem_of_nil in Hs.
  - simpl. lia.
Qed.

(** The rows below a folder have their parent in the subtree of the
    folder. *)
Lemma tree_rows_inside fuel q depth rows r :
  rows_of fuel fl (Some q) depth = Some rows → r ∈ rows →
  ∃ p', f_parentId (r_file r) = Some p' ∧ rtc (child_of fl) q p'.
Proof.
  revert q depth rows r. induction fuel as [|n IH]; intros q depth rows r; [done|].
  simpl. intros Hrows Hr.
  apply fmap_Some in Hrows as (yss & Hyss & ->). apply mapM_Some in Hyss.
  apply list_elem_of_join in Hr as (ys & Hr & Hys).
  destruct (Forall2_elem_of_r _ _ _ _ Hyss Hys) as (x & Hx & Hg).
  apply elem_of_siblings in Hx as [Hx Hp].
  destruct (f_kind x).
  - simplify_eq. apply list_elem_of_singleton in Hr as ->. simpl. eauto using rtc_refl.
  - apply bind_Some in Hg as (rest & Hrest & [= <-]).
    apply elem_of_cons in Hr as [->|Hr]; simpl; [eauto using rtc_refl|].
    destruct (IH _ _ _ _ Hrest Hr) as (p' & Hp' & Hrtc).
    exists p'. split; [done|]. eapply rtc_l; [|exact Hrtc]. exists x. eauto.
Qed.

(** The rows of the output whose parent is [pid] are the siblings under
    [pid], in the order [sort] gave them. *)
Lemma tree_rows_group fuel pid depth rows :
  rows_of fuel fl pid depth = Some rows →
  filter (λ f, f_parentId f = pid) (r_file <$> rows) = siblings pid.
Proof.
  destruct fuel as [|n]; [done|]. simpl. intros Hrows.
  apply fmap_Some in Hrows as (yss & Hyss & ->). apply mapM_Some in Hyss.
  assert (Forall (λ x, x ∈ fl ∧ f_parentId x = pid) (siblings pid)) as Hall.
  { apply Forall_forall. intros x. apply elem_of_siblings. }
  induction Hyss as [|x ys l yss' Hg _ IH]; [done|].
  apply Forall_cons in Hall as [[Hx Hp] Hall].
  simpl. rewrite fmap_app, filter_app, (IH Hall).
  assert (filter (λ f, f_parentId f = pid) (r_file <$> ys) = [x]) as ->; [|done].
  destruct (f_kind x).
  - simplify_eq. simpl. by rewrite filter_cons_True, filter_nil.
  - apply bind_Some in Hg as (rest & Hrest & [= <-]).
    rewrite fmap_cons. simpl. rewrite filter_cons_True by done. f_equal.
    apply filter_none. intros f Hf Hpf.
    apply list_elem_of_fmap in Hf as (r & -> & Hr).
    destruct (tree_rows_inside _ _ _ _ _ Hrest Hr) as (p' & Hp' & Hrtc).
    apply (fl_forest p'). eapply tc_rtc_r; [|exact Hrtc].
    apply tc_once. exists x. split; [done|]. split; [done|]. congruence.
Qed.
End tree_rows.

(** The rows of [listTree] are a listing in the sense of the
    specification, for every sibling group they go through. *)
Lemma tree_rows_listing localeCompare fl :
  (∀ a b, (localeCompare a b ≤ 0 ∨ localeCompare b a ≤ 0)%Z) →
  (∀ a b c, (localeCompare a b ≤ 0 → localeCompare b c ≤ 0 → localeCompare a c ≤ 0)%Z) →
  ∀ fuel parentId depth rows,
    tree_rows localeCompare fuel fl parentId depth = Some rows →
    spec_listing localeCompare fl parentId depth rows.
Proof.
  intros Htotal Htrans. induction fuel as [|n IH]; intros parentId depth rows; [done|].
  simpl. intros Hrows.
  apply fmap_Some in Hrows as (blocks & Hblocks & ->). apply mapM_Some in Hblocks.
  apply (spec_listing_group localeCompare fl parentId depth
           (sort (compareRows localeCompare) (filter (λ f, f_parentId f = parentId) fl))).
  - apply sort_perm.
  - intros i j a b Hij Ha Hb.
    pose proof (sort_sorted (compareRows localeCompare)
      (compareRows_total localeCompare Htotal)
      (compareRows_trans localeCompare Htrans)
      (filter (λ f, f_parentId f = parentId) fl)) as Hsorted.
    pose proof (StronglySorted_lookup _ _ _ _ _ _ Hsorted Hij Ha Hb) as Hab.
    apply compareRows_le in Hab as [[Hka Hkb]|[Hk Hn]].
    + split; [congruence|congruence].
    + split; [congruence|done].
  - eapply Forall2_impl; [exact Hblocks|]. intros f block Hg. simpl in Hg.
    destruct (f_kind f) eqn:Hk.
    + apply (inj Some) in Hg. subst block. exists []. done.
    + apply bind_Some in Hg as (rest & Hrest & Hg). apply (inj Some) in Hg.
      subst block. exists rest. split; [done|]. split; [|done].
      intros _. by apply IH.
Qed.

(** On two folders that are each other's parent [listTree] recurses
    without end. *)
Lemma tree_rows_cycle_diverges localeCompare fuel a b na nb ca cb :
  let fl := [mkFile a na KFolder ca (Some b); mkFile b nb KFolder cb (Some a)] in
  ∀ depth, tree_rows localeCompare fuel fl (Some a) depth = None ∧
           tree_rows localeCompare fuel fl (Some b) depth = None.
Proof.
  intros fl. induction fuel as [|n IH]; intros depth; [done|].
  destruct (IH (S depth)) as [IHa IHb].
  split; simpl.
  - match goal with |- mjoin <$> mapM ?g ?l = None =>
      assert (mapM g l = None) as -> end; [|done].
    apply mapM_None, Exists_exists. exists (mkFile b nb KFolder cb (Some a)). split.
    + apply elem_of_sort, list_elem_of_filter. split; [done|].
      apply elem_of_cons; right. apply elem_of_cons; auto.
    + simpl. by rewrite IHb.
  - match goal with |- mjoin <$> mapM ?g ?l = None =>
      assert (mapM g l = None) as -> end; [|done].
    apply mapM_None, Exists_exists. exists (mkFile a na KFolder ca (Some b)). split.
    + apply elem_of_sort, list_elem_of_filter. split; [done|].
      apply elem_of_cons; auto.
    + simpl. by rewrite IHa.
Qed.

(** C6, as the code has it.  [listTree] is a function of the files it is
    given and writes nothing that was there before the call.  In a forest
    it returns; every array of the heap keeps its content, [filtered] and
    the file list of the project among them, and a second call on the heap
    the first call left returns the same rows in the same order.  The rows
    are a listing in the sense of the specification: in every sibling
    group they go through, the one under [parentId] and the ones under the
    folders below it, all folders come before all files and the folders
    and the files are each ordered by [localeCompare] on the name; the rows
    of the group under [parentId] are exactly the nodes with that
    parent. *)
Theorem listTree_pure_and_ordered
    (localeCompare : string → string → Z)
    (h : Heap) (filtered : nat) (fl : list FileItem)
    (parentId : option string) (depth fuel : nat) :
  (∀ a b, (localeCompare a b ≤ 0 ∨ localeCompare b a ≤ 0)%Z) →
  (∀ a b c, (localeCompare a b ≤ 0 → localeCompare b c ≤ 0 → localeCompare a c ≤ 0)%Z) →
  h !! filtered = Some fl → forest fl → length fl < fuel →
  ∃ rows h1,
    listTree localeCompare fuel filtered parentId depth h = Some (rows, h1) ∧
    (∀ r a, h !! r = Some a → h1 !! r = Some a) ∧
    (∃ h2, listTree localeCompare fuel filtered parentId depth h1 = Some (rows, h2)) ∧
    spec_listing localeCompare fl parentId depth rows ∧
    let group := filter (λ f, f_parentId f = parentId) (r_file <$> rows) in
    group ≡ₚ filter (λ f, f_parentId f = parentId) fl ∧
    (∀ i j a b, i < j → group !! i = Some a → group !! j = Some b →
       (f_kind a = KFile → f_kind b = KFile) ∧
       (f_kind a = f_kind b → (localeCompare (f_name a) (f_name b) ≤ 0)%Z)).
Proof.
  intros Htotal Htrans Hf Hforest Hfuel.
  destruct (tree_rows_total localeCompare fl Hforest fuel parentId depth Hfuel)
    as [rows Hrows].
  pose proof (listTree_tree_rows localeCompare fuel h filtered fl parentId depth Hf) as H1.
  rewrite Hrows in H1. destruct H1 as [ext H1].
  exists rows, (h ++ ext). split; [done|]. split; [|split; [|split]].
  - intros r a. apply lookup_app_l_Some.
  - pose proof (listTree_tree_rows localeCompare fuel (h ++ ext) filtered fl
                  parentId depth (lookup_app_l_Some _ _ _ _ Hf)) as H2.
    rewrite Hrows in H2. destruct H2 as [ext2 H2]. eauto.
  - by apply (tree_rows_listing localeCompare fl Htotal Htrans fuel).
  - simpl. rewrite (tree_rows_group localeCompare fl Hforest _ _ _ _ Hrows).
    split; [apply sort_perm|].
    intros i j a b Hij Ha Hb.
    pose proof (sort_sorted (compareRows localeCompare)
      (compareRows_total localeCompare Htotal)
      (compareRows_trans localeCompare Htrans)
      (filter (λ f, f_parentId f = parentId) fl)) as Hsorted.
    pose proof (StronglySorted_lookup _ _ _ _ _ _ Hsorted Hij Ha Hb) as Hab.
    apply compareRows_le in Hab as [[Hka Hkb]|[Hk Hn]].
    + split; [congruence|congruence].
    + split; [congruence|done].
Qed.

Lemma byte_order_le a b : (byte_order a b ≤ 0)%Z ↔ String.compare a b ≠ Gt.
Proof. unfold byte_order. destruct (String.compare a b); split; (done || lia). Qed.

Lemma byte_order_total a b : (byte_order a b ≤ 0 ∨ byte_order b a ≤ 0)%Z.
Proof.
  rewrite !byte_order_le, (String.compare_antisym a b).
  destruct (String.compare b a); simpl; auto.
Qed.

Lemma byte_order_trans a b c :
  (byte_order a b ≤ 0 → byte_order b c ≤ 0 → byte_order a c ≤ 0)%Z.
Proof.
  rewrite !byte_order_le. intros Hab Hbc.
  destruct (String.compare a b) eqn:Eab; [| |done].
  - apply String.compare_eq_iff in Eab as ->. done.
  - destruct (String.compare b c) eqn:Ebc; [| |done].
    + apply String.compare_eq_iff in Ebc as <-. by rewrite Eab.
    + assert (String.compare a c = Lt) as ->; [|done].
      pose proof OrdersEx.String_as_OT.lt_strorder as [_ Ht].
      exact (Ht a b c Eab Ebc).
Qed.

Lemma mixed_tree_forest : forest mixed_tree.
Proof.
  apply (forest_of_rank _ (λ i, if decide (i = "d1d1d1d1") then 0 else 1)).
  intros f p Hf Hp. unfold mixed_tree in Hf.
  repeat (apply elem_of_cons in Hf as [->|Hf]); simpl in *; simplify_eq; simpl;
    try lia.
  by apply elem_of_nil in Hf.
Qed.

Lemma deep_tree_forest : forest deep_tree.
Proof.
  apply (forest_of_rank _ (λ i, if decide (i = "w0w0w0w0") then 0
                                else if decide (i = "l2l2l2l2") then 1
                                else if decide (i = "c5c5c5c5") then 2 else 3)).
  intros f p Hf Hp. unfold deep_tree in Hf.
  repeat (apply elem_of_cons in Hf as [->|Hf]); simpl in *; simplify_eq; simpl;
    try lia.
  by apply elem_of_nil in Hf.
Qed.

Lemma listTree_pure_and_ordered_witness :
  let h : Heap := [deep_tree] in
  let parentId := Some "w0w0w0w0" in
  ∃ rows h1,
    listTree byte_order 9 0 parentId 0 h = Some (rows, h1) ∧
    (∀ r a, h !! r = Some a → h1 !! r = Some a) ∧
    (∃ h2, listTree byte_order 9 0 parentId 0 h1 = Some (rows, h2)) ∧
    spec_listing byte_order deep_tree parentId 0 rows ∧
    let group := filter (λ f, f_parentId f = parentId) (r_file <$> rows) in
    group ≡ₚ filter (λ f, f_parentId f = parentId) deep_tree ∧
    (∀ i j a b, i < j → group !! i = Some a → group !! j = Some b →
       (f_kind a = KFile → f_kind b = KFile) ∧
       (f_kind a = f_kind b → (byte_order (f_name a) (f_name b) ≤ 0)%Z)).
Proof.
  intros h parentId.
  apply (listTree_pure_and_ordered byte_order h 0 deep_tree parentId 0 9
           byte_order_total byte_order_trans);
    [reflexivity | exact deep_tree_forest | simpl; lia].
Defined.

(** The rows of that call: under [web] the folder [lib] first, with its
    folder [core] before its file, and [core] with its folder before its
    file. *)
Example listTree_deep :
  (λ r, (f_name (r_file r), r_label r)) <$>
    default [] (fst <$> listTree byte_order 9 0 (Some "w0w0w0w0") 0 [deep_tree]) =
  [ ("lib", "📁 lib"); ("core", "  📁 core"); ("img", "    📁 img");
    ("main.js", "    📄 main.js"); ("util.js", "  📄 util.js");
    ("alpha.js", "📄 alpha.js"); ("zeta.js", "📄 zeta.js") ].
Proof. vm_compute. reflexivity. Qed.

(** C6 as stated fails: it holds for no more than the hierarchy states
    that are forests.  [Move] on the folder [app] of [nested_folders]
    makes [app] and [lib] each other's parent, and in that state
    [listTree] does not return for the parent id of [app], nor for that of
    [lib]: there is no output to compare. *)
Lemma listTree_cycle_never_returns :
  moveFile "q1w2e3r4" (page_with nested_folders ∅) = Some (page_with folder_cycle ∅) ∧
  ¬ forest folder_cycle ∧
  (∀ fuel, listTree byte_order fuel 0 (Some "q1w2e3r4") 0 [folder_cycle] = None) ∧
  (∀ fuel, listTree byte_order fuel 0 (Some "a5s6d7f8") 0 [folder_cycle] = None).
Proof.
  split; [vm_compute; reflexivity|]. split.
  { intros Hf. apply (Hf "q1w2e3r4"). eapply tc_l; [|apply tc_once].
    - eexists (mkFile "a5s6d7f8" "lib" KFolder "" (Some "q1w2e3r4")).
      split; [|done]. apply elem_of_cons; right. apply elem_of_cons; auto.
    - eexists (mkFile "q1w2e3r4" "app" KFolder "" (Some "a5s6d7f8")).
      split; [|done]. apply elem_of_cons; auto. }
  split; intros fuel.
  - pose proof (listTree_tree_rows byte_order fuel [folder_cycle] 0 folder_cycle
                  (Some "q1w2e3r4") 0 eq_refl) as H.
    unfold folder_cycle in *.
    by rewrite (proj1 (tree_rows_cycle_diverges byte_order fuel
                  "q1w2e3r4" "a5s6d7f8" "app" "lib" "" "" 0)) in H.
  - pose proof (listTree_tree_rows byte_order fuel [folder_cycle] 0 folder_cycle
                  (Some "a5s6d7f8") 0 eq_refl) as H.
    unfold folder_cycle in *.
    by rewrite (proj2 (tree_rows_cycle_diverges byte_order fuel
                  "q1w2e3r4" "a5s6d7f8" "app" "lib" "" "" 0)) in H.
Qed.

(** What a render shows is the same function of the search text and the
    files. *)
Lemma renderTree_tree_rows localeCompare toLowerCase fuel st pr :
  project st = Some pr →
  renderTree localeCompare toLowerCase fuel st =
    tree_rows localeCompare fuel
      (filter (λ f, matches toLowerCase (search st) f = true) (p_files pr)) None 0.
Proof.
  intros Hpr. unfold renderTree. rewrite Hpr. simpl.
  pose proof (listTree_tree_rows localeCompare fuel
    [p_files pr; filter (λ f, matches toLowerCase (search st) f = true) (p_files pr)]
    1 _ None 0 eq_refl) as H.
  destruct (tree_rows _ _ _ _ _) as [rows|].
  - destruct H as [ext ->]. done.
  - by rewrite H.
Qed.

(** * Further properties of the handlers *)

(** ** Hierarchy *)

Lemma patchProjectU_frame k cb st :
  let st' := patchProjectU k cb st in
  auth st' = auth st ∧ activeProjectId st' = activeProjectId st ∧
  activeFileId st' = activeFileId st ∧ openTabs st' = openTabs st ∧
  selectedIds st' = selectedIds st ∧ moveTarget st' = moveTarget st ∧
  termInput st' = termInput st ∧ logs st' = logs st ∧
  uid_source st' = uid_source st ∧
  outbox st' = outbox st ∧ storage st' = storage st ∧ search st' = search st.
Proof.
  simpl. unfold patchProjectU. destruct (project st); [|done].
  by destruct (patch_drawing _ _ _ _ _ _).
Qed.

(** [New file], [New folder] and [Upload] append one node at the root,
    under the next id of the source, and leave the nodes that were there
    and the forest as they are. *)
Theorem new_nodes_keep_forest st pr :
  project st = Some pr → forest (p_files pr) →
  let i := uid_source st (uid_next st) in
  let n := uid_source st (S (uid_next st)) in
  (active_files (newFile st)
     = p_files pr ++ [mkFile i ("new-" +:+ n +:+ ".js") KFile "" None] ∧
   forest (active_files (newFile st))) ∧
  (active_files (newFolder st)
     = p_files pr ++ [mkFile i ("folder-" +:+ n) KFolder "" None] ∧
   forest (active_files (newFolder st))) ∧
  (∀ name text,
     active_files (uploadFile name text st)
       = p_files pr ++ [mkFile i name KFile text None] ∧
     forest (active_files (uploadFile name text st))).
Proof.
  intros Hpr Hf i n.
  assert (∀ k mkname, active_files (newNode k mkname st)
            = p_files pr ++ [mkFile i (mkname n) k "" None]) as Hnew.
  { intros k mkname. unfold active_files, newNode.
    rewrite project_patchProjectU by done. rewrite Hpr. simpl.
    done. }
  split; [|split].
  - unfold newFile. rewrite Hnew. split; [done|]. by apply forest_app_root.
  - unfold newFolder. rewrite Hnew. split; [done|]. by apply forest_app_root.
  - intros name text.
    assert (active_files (uploadFile name text st)
            = p_files pr ++ [mkFile i name KFile text None]) as ->.
    { unfold active_files, uploadFile.
      rewrite project_patchProjectU by done. rewrite Hpr. simpl.
      done. }
    split; [done|]. by apply forest_app_root.
Qed.

Lemma new_nodes_keep_forest_witness :
  let st := page_with small_tree ∅ in
  let pr := mkProject "w0rkspc1" "Main Workspace" P2d small_tree [] [] ∅ [] in
  let i := uid_source st (uid_next st) in
  let n := uid_source st (S (uid_next st)) in
  (active_files (newFile st)
     = p_files pr ++ [mkFile i ("new-" +:+ n +:+ ".js") KFile "" None] ∧
   forest (active_files (newFile st))) ∧
  (active_files (newFolder st)
     = p_files pr ++ [mkFile i ("folder-" +:+ n) KFolder "" None] ∧
   forest (active_files (newFolder st))) ∧
  (∀ name text,
     active_files (uploadFile name text st)
       = p_files pr ++ [mkFile i name KFile text None] ∧
     forest (active_files (uploadFile name text st))).
Proof.
  intros st pr.
  apply (new_nodes_keep_forest st pr); [reflexivity | exact small_tree_forest].
Defined.

Lemma rename_in_fields id next files :
  f_id <$> rename_in id next files = f_id <$> files ∧
  f_parentId <$> rename_in id next files = f_parentId <$> files ∧
  f_kind <$> rename_in id next files = f_kind <$> files ∧
  f_content <$> rename_in id next files = f_content <$> files.
Proof.
  unfold rename_in. rewrite <- !list_fmap_compose.
  repeat split; apply list_fmap_ext; intros _ f _; simpl; by case_decide.
Qed.

Lemma rename_in_names id next files :
  f_name <$> rename_in id next files
  = (λ f, if decide (f_id f = id) then next else f_name f) <$> files.
Proof.
  unfold rename_in. rewrite <- list_fmap_compose.
  apply list_fmap_ext. intros _ f _. simpl. by case_decide.
Qed.

(** [Rename] on an id that no node has, or with a cancelled or empty
    prompt, leaves the page as it is.  Otherwise it gives the new name to
    the nodes with that id and to no other, keeps the ids, parents, kinds
    and contents of all nodes in their order, and keeps the forest. *)
Theorem renameFile_effects st pr id :
  project st = Some pr →
  ((∀ f, f ∈ p_files pr → f_id f ≠ id) → ∀ answer, renameFile id answer st = Some st) ∧
  renameFile id None st = Some st ∧ renameFile id (Some "") st = Some st ∧
  (∀ next, next ≠ "" → (∃ f, f ∈ p_files pr ∧ f_id f = id) →
     ∃ st', renameFile id (Some next) st = Some st' ∧
       f_name <$> active_files st'
         = (λ f, if decide (f_id f = id) then next else f_name f) <$> p_files pr ∧
       f_id <$> active_files st' = f_id <$> p_files pr ∧
       f_parentId <$> active_files st' = f_parentId <$> p_files pr ∧
       f_kind <$> active_files st' = f_kind <$> p_files pr ∧
       f_content <$> active_files st' = f_content <$> p_files pr ∧
       (forest (p_files pr) → forest (active_files st'))).
Proof.
  intros Hpr. unfold renameFile. rewrite Hpr. simpl.
  split; [|split; [|split]].
  - intros Habs answer.
    destruct (list_find _ _) as [[j f]|] eqn:E; [|done].
    apply list_find_Some in E as (Hj & Hid & _).
    exfalso. apply (Habs f); [by eapply list_elem_of_lookup_2|done].
  - by destruct (list_find _ _).
  - by destruct (list_find _ _).
  - intros next Hne (f & Hf & Hid).
    destruct (list_find (λ f, f_id f = id) (p_files pr)) as [[j g]|] eqn:E.
    2: { apply list_find_None in E. rewrite Forall_forall in E.
         exfalso. by apply (E f). }
    destruct next as [|a next]; [done|].
    eexists. split; [done|].
    assert (active_files (patchProject
              (λ p, with_files (rename_in id (String a next) (p_files p)) p) st)
            = rename_in id (String a next) (p_files pr)) as ->.
    { unfold active_files. rewrite project_patchProject by done. by rewrite Hpr. }
    destruct (rename_in_fields id (String a next) (p_files pr)) as (? & ? & ? & ?).
    split; [apply rename_in_names|]. repeat split; try done.
    apply forest_rename.
Qed.

Lemma renameFile_effects_witness :
  let st := page_with small_tree ∅ in
  let pr := mkProject "w0rkspc1" "Main Workspace" P2d small_tree [] [] ∅ [] in
  let id := "m1m1m1m1" in
  ((∀ f, f ∈ p_files pr → f_id f ≠ id) → ∀ answer, renameFile id answer st = Some st) ∧
  renameFile id None st = Some st ∧ renameFile id (Some "") st = Some st ∧
  (∀ next, next ≠ "" → (∃ f, f ∈ p_files pr ∧ f_id f = id) →
     ∃ st', renameFile id (Some next) st = Some st' ∧
       f_name <$> active_files st'
         = (λ f, if decide (f_id f = id) then next else f_name f) <$> p_files pr ∧
       f_id <$> active_files st' = f_id <$> p_files pr ∧
       f_parentId <$> active_files st' = f_parentId <$> p_files pr ∧
       f_kind <$> active_files st' = f_kind <$> p_files pr ∧
       f_content <$> active_files st' = f_content <$> p_files pr ∧
       (forest (p_files pr) → forest (active_files st'))).
Proof.
  intros st pr id. apply (renameFile_effects st pr id). reflexivity.
Defined.

Lemma reparent_fields id target files :
  f_id <$> reparent id target files = f_id <$> files ∧
  f_name <$> reparent id target files = f_name <$> files ∧
  f_kind <$> reparent id target files = f_kind <$> files ∧
  f_content <$> reparent id target files = f_content <$> files.
Proof.
  unfold reparent. rewrite <- !list_fmap_compose.
  repeat split; apply list_fmap_ext; intros _ f _; simpl; by case_decide.
Qed.

Lemma elem_of_reparent id target files f :
  f ∈ reparent id target files ↔
    (f ∈ files ∧ f_id f ≠ id) ∨
    (∃ g, g ∈ files ∧ f_id g = id ∧ f = with_parentId target g).
Proof.
  unfold reparent. rewrite list_elem_of_fmap. split.
  - intros (g & -> & Hg). case_decide; [right; eauto|left; eauto].
  - intros [[Hf Hne]|(g & Hg & Hid & ->)].
    + exists f. by rewrite decide_False.
    + exists g. by rewrite decide_True.
Qed.

(** [Move] from the context menu changes the parent reference of the
    nodes with the given id and nothing else.  Their new parent is the
    first folder of the list that has another id, or null when the list
    has no such folder; it is never the node itself. *)
Theorem moveFile_effects st pr id :
  project st = Some pr →
  ∃ st', moveFile id st = Some st' ∧
    (∀ j g, list_find (λ f, f_kind f = KFolder ∧ f_id f ≠ id) (p_files pr) = Some (j, g) →
       g ∈ active_files st' ∧
       ∀ f, f ∈ active_files st' → f_id f = id → f_parentId f = Some (f_id g)) ∧
    (list_find (λ f, f_kind f = KFolder ∧ f_id f ≠ id) (p_files pr) = None →
       ∀ f, f ∈ active_files st' → f_id f = id → f_parentId f = None) ∧
    (∀ f, f ∈ active_files st' → f_id f = id → f_parentId f ≠ Some id) ∧
    (∀ f, f_id f ≠ id → f ∈ active_files st' ↔ f ∈ p_files pr) ∧
    f_id <$> active_files st' = f_id <$> p_files pr ∧
    f_name <$> active_files st' = f_name <$> p_files pr ∧
    f_kind <$> active_files st' = f_kind <$> p_files pr ∧
    f_content <$> active_files st' = f_content <$> p_files pr.
Proof.
  intros Hpr. unfold moveFile. rewrite Hpr. simpl. eexists. split; [done|].
  set (t := move_target (p_files pr) id).
  assert (active_files (patchProject
            (λ p, with_files (reparent id t (p_files p)) p) st)
          = reparent id t (p_files pr)) as ->.
  { unfold active_files. rewrite project_patchProject by done. by rewrite Hpr. }
  assert (∀ f, f ∈ reparent id t (p_files pr) → f_id f = id → f_parentId f = t) as Hpar.
  { intros f Hf Hid. apply elem_of_reparent in Hf as [[_ Hne]|(g & _ & _ & ->)]; done. }
  split; [|split; [|split; [|split]]].
  - intros j g E. split.
    + apply list_find_Some in E as (Hj & [Hk Hne] & _).
      apply elem_of_reparent. left. split; [by eapply list_elem_of_lookup_2|done].
    + intros f Hf Hid. rewrite (Hpar f Hf Hid). unfold t, move_target. by rewrite E.
  - intros E f Hf Hid. rewrite (Hpar f Hf Hid). unfold t, move_target. by rewrite E.
  - intros f Hf Hid. rewrite (Hpar f Hf Hid). apply move_target_not_self.
  - intros f Hne. rewrite elem_of_reparent. split.
    + intros [[Hf _]|(g & _ & Hid & ->)]; [done|]. by simpl in Hne.
    + intros Hf. left. done.
  - apply reparent_fields.
Qed.

Lemma moveFile_effects_witness :
  let st := page_with small_tree ∅ in
  let pr := mkProject "w0rkspc1" "Main Workspace" P2d small_tree [] [] ∅ [] in
  let id := "h2h2h2h2" in
  ∃ st', moveFile id st = Some st' ∧
    (∀ j g, list_find (λ f, f_kind f = KFolder ∧ f_id f ≠ id) (p_files pr) = Some (j, g) →
       g ∈ active_files st' ∧
       ∀ f, f ∈ active_files st' → f_id f = id → f_parentId f = Some (f_id g)) ∧
    (list_find (λ f, f_kind f = KFolder ∧ f_id f ≠ id) (p_files pr) = None →
       ∀ f, f ∈ active_files st' → f_id f = id → f_parentId f = None) ∧
    (∀ f, f ∈ active_files st' → f_id f = id → f_parentId f ≠ Some id) ∧
    (∀ f, f_id f ≠ id → f ∈ active_files st' ↔ f ∈ p_files pr) ∧
    f_id <$> active_files st' = f_id <$> p_files pr ∧
    f_name <$> active_files st' = f_name <$> p_files pr ∧
    f_kind <$> active_files st' = f_kind <$> p_files pr ∧
    f_content <$> active_files st' = f_content <$> p_files pr.
Proof.
  intros st pr id. apply (moveFile_effects st pr id). reflexivity.
Defined.

(** The scenario of the witness: [Move] on [index.html] puts it into the
    folder [src], the first folder of the list. *)
Example moveFile_into_first_folder :
  ∃ st', moveFile "h2h2h2h2" (page_with small_tree ∅) = Some st' ∧
    active_files st' =
      [ mkFile "s0s0s0s0" "src" KFolder "" None;
        mkFile "m1m1m1m1" "main.js" KFile "var x = 1" (Some "s0s0s0s0");
        mkFile "h2h2h2h2" "index.html" KFile "<h1>hi</h1>" (Some "s0s0s0s0") ].
Proof. eexists. split; [vm_compute; reflexivity|]. by vm_compute. Qed.

Lemma elem_of_reparent_selected sel target files f :
  f ∈ reparent_selected sel target files ↔
    (f ∈ files ∧ f_id f ∉ sel) ∨
    (∃ g, g ∈ files ∧ f_id g ∈ sel ∧ f = with_parentId target g).
Proof.
  unfold reparent_selected. rewrite list_elem_of_fmap. split.
  - intros (g & -> & Hg). case_decide; [right; eauto|left; eauto].
  - intros [[Hf Hne]|(g & Hg & Hid & ->)].
    + exists f. by rewrite decide_False.
    + exists g. by rewrite decide_True.
Qed.

(** [Move selected] arms the first folder of the list as the target and
    [Drop into folder] then makes it the parent of every selected node,
    leaves the other nodes as they are, and clears the selection and the
    target.  Without an armed target the drop changes nothing. *)
Theorem move_selected_then_drop st pr j g :
  project st = Some pr →
  list_find (λ f, f_kind f = KFolder) (p_files pr) = Some (j, g) → f_id g ≠ "" →
  (moveTarget st = None → dropIntoFolder st = st) ∧
  ∃ st1, moveSelected st = Some st1 ∧ moveTarget st1 = Some (f_id g) ∧
    let st2 := dropIntoFolder st1 in
    (∀ f, f ∈ active_files st2 → f_id f ∈ selectedIds st → f_parentId f = Some (f_id g)) ∧
    (∀ f, f_id f ∉ selectedIds st → f ∈ active_files st2 ↔ f ∈ p_files pr) ∧
    f_id <$> active_files st2 = f_id <$> p_files pr ∧
    selectedIds st2 = [] ∧ moveTarget st2 = None.
Proof.
  intros Hpr Hfind Hne. split.
  { intros Hn. unfold dropIntoFolder. by rewrite Hn. }
  unfold moveSelected. rewrite Hpr. simpl. rewrite Hfind. simpl.
  eexists. split; [done|]. split; [done|].
  unfold dropIntoFolder. cbn [moveTarget setMoveTarget].
  destruct (f_id g) as [|a r] eqn:Eg; [done|]. rewrite <- Eg. clear Eg.
  set (cb := λ p : Project, with_files
    (reparent_selected (selectedIds (setMoveTarget (Some (f_id g)) st))
       (Some (f_id g)) (p_files p)) p).
  assert (active_files (setMoveTarget None (setSelectedIds []
            (patchProject cb (setMoveTarget (Some (f_id g)) st))))
          = reparent_selected (selectedIds st) (Some (f_id g)) (p_files pr)) as ->.
  { unfold active_files.
    change (project (setMoveTarget None (setSelectedIds [] ?s))) with (project s).
    rewrite project_patchProject by done.
    change (project (setMoveTarget _ st)) with (project st). by rewrite Hpr. }
  split; [|split; [|split]].
  - intros f Hf Hsel.
    apply elem_of_reparent_selected in Hf as [[_ Hn]|(h & _ & _ & ->)]; done.
  - intros f Hn. rewrite elem_of_reparent_selected. split.
    + intros [[Hf _]|(h & _ & Hs & ->)]; [done|]. by simpl in Hn.
    + intros Hf. by left.
  - unfold reparent_selected. rewrite <- list_fmap_compose.
    apply list_fmap_ext. intros _ f _. simpl. by case_decide.
  - done.
Qed.

Lemma move_selected_then_drop_witness :
  let st := setSelectedIds ["h2h2h2h2"] (page_with small_tree ∅) in
  let pr := mkProject "w0rkspc1" "Main Workspace" P2d small_tree [] [] ∅ [] in
  let g := mkFile "s0s0s0s0" "src" KFolder "" None in
  (moveTarget st = None → dropIntoFolder st = st) ∧
  ∃ st1, moveSelected st = Some st1 ∧ moveTarget st1 = Some (f_id g) ∧
    let st2 := dropIntoFolder st1 in
    (∀ f, f ∈ active_files st2 → f_id f ∈ selectedIds st → f_parentId f = Some (f_id g)) ∧
    (∀ f, f_id f ∉ selectedIds st → f ∈ active_files st2 ↔ f ∈ p_files pr) ∧
    f_id <$> active_files st2 = f_id <$> p_files pr ∧
    selectedIds st2 = [] ∧ moveTarget st2 = None.
Proof.
  intros st pr g.
  apply (move_selected_then_drop st pr 0 g); [reflexivity | reflexivity | discriminate].
Defined.

(** [Bulk delete] in a forest returns and removes exactly the selected
    nodes and the nodes below them: no remaining node refers to a removed
    parent.  It clears the selection and, unlike [Delete] from the context
    menu, leaves the open tabs and the active file id as they are. *)
Theorem bulkDelete_removes_closures st pr fuel :
  project st = Some pr → forest (p_files pr) → length (p_files pr) < fuel →
  let deleted := λ x, ∃ s, s ∈ selectedIds st ∧ (x = s ∨ ancestor (p_files pr) s x) in
  ∃ st', bulkDelete fuel st = Some st' ∧
    (∀ f, f ∈ active_files st' ↔ f ∈ p_files pr ∧ ¬ deleted (f_id f)) ∧
    active_files st' `sublist_of` p_files pr ∧
    (∀ f p, f ∈ active_files st' → f_parentId f = Some p → ¬ deleted p) ∧
    selectedIds st' = [] ∧
    openTabs st' = openTabs st ∧ activeFileId st' = activeFileId st.
Proof.
  intros Hpr Hforest Hfuel deleted. unfold bulkDelete. rewrite Hpr. simpl.
  assert (is_Some (mapM (λ id, ds ← descendants fuel (p_files pr) id; Some (id :: ds))
                        (selectedIds st))) as [dss Hdss].
  { apply mapM_is_Some, Forall_forall. intros s _. simpl.
    destruct (descendants_total (p_files pr) s fuel Hforest Hfuel) as [ds ->]. eauto. }
  rewrite Hdss. simpl. eexists. split; [done|].
  apply mapM_Some in Hdss.
  assert (∀ x, x ∈ mjoin dss ↔ deleted x) as Hall.
  { intros x. rewrite list_elem_of_join. split.
    - intros (l & Hx & Hl).
      destruct (Forall2_elem_of_r _ _ _ _ Hdss Hl) as (s & Hs & Hg).
      apply bind_Some in Hg as (ds & Hds & [= <-]).
      exists s. split; [done|]. by apply (deleted_closure _ _ _ _ _ Hds).
    - intros (s & Hs & Hx).
      destruct (Forall2_elem_of_l _ _ _ _ Hdss Hs) as (l & Hl & Hg).
      apply bind_Some in Hg as (ds & Hds & [= <-]).
      exists (s :: ds). split; [|done]. by apply (deleted_closure _ _ _ _ _ Hds). }
  set (cb := λ p : Project, with_files (remove_ids (mjoin dss) (p_files p)) p).
  assert (active_files (setSelectedIds [] (patchProject cb st))
          = remove_ids (mjoin dss) (p_files pr)) as ->.
  { unfold active_files.
    change (project (setSelectedIds [] ?s)) with (project s).
    rewrite project_patchProject by done. by rewrite Hpr. }
  assert (∀ f, f ∈ remove_ids (mjoin dss) (p_files pr) ↔
               f ∈ p_files pr ∧ ¬ deleted (f_id f)) as Hmem.
  { intros f. by rewrite elem_of_remove_ids, Hall. }
  destruct (patchProject_frame cb st) as (_ & _ & Ha & Ht & _).
  split; [done|]. split; [apply sublist_filter|]. split; [|by split].
  intros f p Hf Hp (s & Hs & Hd). apply Hmem in Hf as [Hf Hn].
  apply Hn. exists s. split; [done|]. right.
  assert (child_of (p_files pr) p (f_id f)) as Hc by (exists f; eauto).
  destruct Hd as [->|Hd]; [by apply tc_once|by eapply tc_r].
Qed.

Lemma bulkDelete_removes_closures_witness :
  let st := setSelectedIds ["s0s0s0s0"; "h2h2h2h2"]
              (opened ["m1m1m1m1"] "m1m1m1m1" (page_with small_tree ∅)) in
  let pr := mkProject "w0rkspc1" "Main Workspace" P2d small_tree [] [] ∅ [] in
  let deleted := λ x, ∃ s, s ∈ selectedIds st ∧ (x = s ∨ ancestor (p_files pr) s x) in
  ∃ st', bulkDelete 4 st = Some st' ∧
    (∀ f, f ∈ active_files st' ↔ f ∈ p_files pr ∧ ¬ deleted (f_id f)) ∧
    active_files st' `sublist_of` p_files pr ∧
    (∀ f p, f ∈ active_files st' → f_parentId f = Some p → ¬ deleted p) ∧
    selectedIds st' = [] ∧
    openTabs st' = openTabs st ∧ activeFileId st' = activeFileId st.
Proof.
  intros st pr.
  apply (bulkDelete_removes_closures st pr 4);
    [reflexivity | exact small_tree_forest | simpl; lia].
Defined.

(** ** Editor tabs *)

Lemma addLog_frame level message st :
  let st' := addLog level message st in
  openTabs st' = openTabs st ∧ activeFileId st' = activeFileId st ∧
  projects st' = projects st ∧ activeProjectId st' = activeProjectId st ∧
  outbox st' = outbox st ∧ auth st' = auth st ∧
  logs st' = logs st ++ [mkEntry (uid_source st (uid_next st)) level message].
Proof. done. Qed.

(** Every handler but the click on a row and [Delete] leaves the open
    tabs and the active file id alone. *)
Lemma step_frame_tabs a st st' :
  step a st = Some st' →
  (∀ f, a ≠ OpenFile f) → (∀ fuel id, a ≠ DeleteFile fuel id) →
  openTabs st' = openTabs st ∧ activeFileId st' = activeFileId st.
Proof.
  intros Hstep Hno Hnd.
  assert (∀ cb, openTabs (patchProject cb st) = openTabs st ∧
                activeFileId (patchProject cb st) = activeFileId st) as Hpatch.
  { intros cb. destruct (patchProject_frame cb st) as (_ & _ & ? & ? & _). done. }
  assert (∀ k cb, openTabs (patchProjectU k cb st) = openTabs st ∧
                  activeFileId (patchProjectU k cb st) = activeFileId st) as HpatchU.
  { intros k cb. destruct (patchProjectU_frame k cb st) as (_ & _ & ? & ? & _). done. }
  pose proof (step_sdk a st st' Hstep) as Hsdk.
  destruct a; cbn [step] in Hstep.
  - unfold startup in Hstep. destruct (storage st) as [parsed|].
    + apply (inj Some) in Hstep. subst st'.
      destruct (s_projects parsed); [|done].
      pose proof (makeProject_frame "Main Workspace" P2d (setAuth (s_auth parsed) st))
        as (Ht & Ha & _).
      destruct (makeProject _ _ _) as [q s]. done.
    + case_decide; [|by simplify_eq].
      destruct (head (projects st)); simpl in Hstep; by simplify_eq.
  - by simplify_eq.
  - apply (inj Some) in Hstep. subst st'. unfold newWorkspace.
    pose proof (makeProject_frame
      match answer with
      | Some (String a s) => String a s
      | _ => "Workspace " +:+ pretty (length (projects st) + 1)
      end (if is3d then P3d else P2d) st) as (Ht & Ha & _).
    destruct answer as [[|a s]|]; destruct (makeProject _ _ st) as [q st1]; done.
  - apply (inj Some) in Hstep. subst st'. unfold deleteWorkspace.
    case_decide; [done|]. destruct (project st); [|done].
    by destruct (filter _ _).
  - by simplify_eq.
  - apply (inj Some) in Hstep. subst st'. apply HpatchU.
  - apply (inj Some) in Hstep. subst st'. apply HpatchU.
  - by destruct (Hno f).
  - by simplify_eq.
  - unfold renameFile in Hstep. destruct (project st); simpl in Hstep; [|done].
    destruct (list_find _ _); [|by simplify_eq].
    destruct answer as [[|??]|]; simplify_eq; done.
  - unfold moveFile in Hstep. destruct (project st); simpl in Hstep; [|done].
    simplify_eq. apply Hpatch.
  - by destruct (Hnd fuel id).
  - unfold moveSelected in Hstep. destruct (project st); simpl in Hstep; by simplify_eq.
  - apply (inj Some) in Hstep. subst st'. unfold dropIntoFolder.
    destruct (moveTarget st) as [[|??]|]; try done. apply Hpatch.
  - by simplify_eq.
  - unfold runTerminal in Hstep. case_decide; [by simplify_eq|].
    repeat case_decide; simpl in Hstep.
    + by simplify_eq.
    + by simplify_eq.
    + destruct (activeFile st); simpl in Hstep; simplify_eq; [|done].
      match goal with |- context [patchProject ?cb ?s] =>
        destruct (patchProject_frame cb s) as (_ & _ & Ha & Ht & _) end.
      split; [exact Ht|exact Ha].
    + destruct (project st); simpl in Hstep; by simplify_eq.
    + by simplify_eq.
    + by simplify_eq.
  - apply (inj Some) in Hstep. subst st'. unfold editorChange.
    destruct (activeFile st), (project st) eqn:?; try done.
    case_decide; simpl; apply Hpatch.
  - unfold onMessage in Hstep. case_decide; [by simplify_eq|].
    destruct (get msg "content"); by simplify_eq.
  - subst st'. apply HpatchU.
  - subst st'. apply Hpatch.
  - subst st'. apply Hpatch.
Qed.

(** The open tabs never hold a file twice, and the active file, when there
    is one, has a tab: every handler that [step] covers keeps both. *)
Theorem step_keeps_tabs a st st' :
  step a st = Some st' →
  NoDup (openTabs st) → (activeFileId st = "" ∨ activeFileId st ∈ openTabs st) →
  NoDup (openTabs st') ∧ (activeFileId st' = "" ∨ activeFileId st' ∈ openTabs st').
Proof.
  intros Hstep Hnd Hact.
  destruct a;
    try (destruct (step_frame_tabs _ st st' Hstep) as [-> ->];
         [intros; discriminate|intros; discriminate|split; assumption]).
  - cbn [step] in Hstep. apply (inj Some) in Hstep. subst st'.
    unfold openFile. destruct (f_kind f); [|done].
    cbn [openTabs activeFileId setOpenTabs setActiveFileId].
    case_decide as Hin.
    + split; [done|by right].
    + split.
      * apply NoDup_app. split; [done|]. split; [|apply NoDup_singleton].
        intros x Hx Hx'. apply list_elem_of_singleton in Hx' as ->. done.
      * right. apply elem_of_app. right. by apply list_elem_of_singleton.
  - cbn [step] in Hstep.
    destruct (project st) as [pr|] eqn:Hpr;
      [|unfold deleteFile in Hstep; by rewrite Hpr in Hstep].
    destruct (descendants fuel (p_files pr) id) as [ds|] eqn:Hds;
      [|unfold deleteFile in Hstep; rewrite Hpr in Hstep; simpl in Hstep;
        by rewrite Hds in Hstep].
    destruct (deleteFile_unfold fuel id st pr ds Hpr Hds) as (st'' & Hdel & _ & Ht & Ha).
    rewrite Hdel in Hstep. apply (inj Some) in Hstep. subst st''.
    rewrite Ht, Ha. split; [by apply NoDup_filter|].
    case_decide as Hin; [by left|]. destruct Hact as [->|Hact]; [by left|right].
    by apply list_elem_of_filter.
Qed.

Lemma step_keeps_tabs_witness :
  let st := opened ["m1m1m1m1"] "m1m1m1m1" (page_with small_tree ∅) in
  let f := mkFile "h2h2h2h2" "index.html" KFile "<h1>hi</h1>" None in
  NoDup (openTabs (openFile f st)) ∧
  (activeFileId (openFile f st) = "" ∨
   activeFileId (openFile f st) ∈ openTabs (openFile f st)).
Proof.
  intros st f. apply (step_keeps_tabs (OpenFile f) st (openFile f st)).
  - reflexivity.
  - apply (bool_decide_unpack _). vm_compute. exact I.
  - right. apply elem_of_cons. by left.
Defined.

(** ** Cross-tab channel *)

(** A message that is not a [sync] message from the actor [remote] is
    dropped.  Any other message appends one log entry and posts nothing;
    it writes its content to the files with its file id in the workspaces
    with its workspace id and leaves every other workspace as it is, so a
    message for an unknown workspace changes no file at all. *)
Theorem onMessage_effects msg st :
  (get msg "type" ≠ VStr "sync" ∨ get msg "actor" ≠ VStr "remote" →
     onMessage msg st = Some st) ∧
  (get msg "type" = VStr "sync" → get msg "actor" = VStr "remote" →
   ∀ c, get msg "content" = VStr c →
     ∃ st', onMessage msg st = Some st' ∧
       logs st' = logs st ++
         [mkEntry (uid_source st (uid_next st)) Info "Collab update received"] ∧
       outbox st' = outbox st ∧
       length (projects st') = length (projects st) ∧
       (∀ i p, projects st !! i = Some p → VStr (p_id p) ≠ get msg "projectId" →
          projects st' !! i = Some p) ∧
       (∀ i p fid, projects st !! i = Some p →
          get msg "projectId" = VStr (p_id p) → get msg "fileId" = VStr fid →
          projects st' !! i = Some (with_files (set_content fid c (p_files p)) p)) ∧
       ((∀ p, p ∈ projects st → VStr (p_id p) ≠ get msg "projectId") →
          projects st' = projects st)).
Proof.
  unfold onMessage. split.
  - intros H. by rewrite decide_True.
  - intros Ht Ha c Hc. rewrite decide_False by (rewrite Ht, Ha; intros [?|?]; done).
    rewrite Hc. eexists. split; [done|]. split; [done|]. split; [done|].
    cbn [projects addLog uid setLogs setProjects].
    split; [by rewrite length_fmap|]. split; [|split].
    + intros i p Hi Hne. rewrite list_lookup_fmap, Hi. simpl.
      by rewrite decide_True.
    + intros i p fid Hi Hp Hf. rewrite list_lookup_fmap, Hi. simpl.
      rewrite decide_False by (intros H; by apply H). do 2 f_equal.
      unfold set_content. apply list_fmap_ext. intros _ f _. rewrite Hf.
      destruct (decide (f_id f = fid)) as [->|Hne].
      * by rewrite decide_True.
      * rewrite decide_False; [done|congruence].
    + intros Hnone. apply (fmap_fixed _ (λ p, VStr (p_id p) ≠ get msg "projectId")).
      * intros p Hp. by rewrite decide_True.
      * by apply Forall_forall.
Qed.

Lemma onMessage_effects_witness :
  let msg := sync_message "w0rkspc1" "m1m1m1m1" "let y" in
  let st := page_with small_tree ∅ in
  ∃ st', onMessage msg st = Some st' ∧
    logs st' = logs st ++
      [mkEntry (uid_source st (uid_next st)) Info "Collab update received"] ∧
    outbox st' = outbox st ∧
    length (projects st') = length (projects st) ∧
    (∀ i p, projects st !! i = Some p → VStr (p_id p) ≠ get msg "projectId" →
       projects st' !! i = Some p) ∧
    (∀ i p fid, projects st !! i = Some p →
       get msg "projectId" = VStr (p_id p) → get msg "fileId" = VStr fid →
       projects st' !! i = Some (with_files (set_content fid "let y" (p_files p)) p)) ∧
    ((∀ p, p ∈ projects st → VStr (p_id p) ≠ get msg "projectId") →
       projects st' = projects st).
Proof.
  intros msg st.
  apply (proj2 (onMessage_effects msg st)); reflexivity.
Defined.

Lemma editorChange_logged_in st pr af v :
  project st = Some pr → activeFile st = Some af → auth st = User →
  outbox (editorChange v st)
    = outbox st ++ [("codeflow-collab", sync_message (p_id pr) (f_id af) v)] ∧
  active_files (editorChange v st) = set_content (f_id af) v (p_files pr).
Proof.
  intros Hpr Haf Hauth. unfold editorChange.
  rewrite Haf, Hpr. rewrite decide_True by done.
  set (cb := λ p : Project, with_files (set_content (f_id af) v (p_files p)) p).
  destruct (patchProject_frame cb st) as (_ & _ & _ & _ & _ & _ & _ & _ & _ & _ & Ho & _).
  split.
  - simpl. by rewrite Ho.
  - unfold active_files. change (project (postMessage _ ?s)) with (project s).
    rewrite project_patchProject by done. by rewrite Hpr.
Qed.

(** An edit made while logged in reaches a second tab: the message the
    editor posts is accepted there and writes the new content to the file
    with the same id in the workspace with the same id; when that
    workspace had the same files, it ends with the files of the sender. *)
Theorem edit_reaches_other_tab st1 pr1 af v st2 pr2 :
  project st1 = Some pr1 → activeFile st1 = Some af → auth st1 = User →
  pr2 ∈ projects st2 → p_id pr2 = p_id pr1 →
  ∃ m st2',
    last (outbox (editorChange v st1)) = Some ("codeflow-collab", m) ∧
    onMessage m st2 = Some st2' ∧
    with_files (set_content (f_id af) v (p_files pr2)) pr2 ∈ projects st2' ∧
    (p_files pr2 = p_files pr1 →
     ∃ pr2', pr2' ∈ projects st2' ∧ p_id pr2' = p_id pr1 ∧
             p_files pr2' = active_files (editorChange v st1)).
Proof.
  intros Hpr Haf Hauth Hin Hid.
  destruct (editorChange_logged_in st1 pr1 af v Hpr Haf Hauth) as (Hout & Hfiles).
  exists (sync_message (p_id pr1) (f_id af) v).
  destruct (onMessage_accepts_sync (p_id pr1) (f_id af) v st2) as (st2' & Hmsg & _ & Hhit).
  exists st2'. split; [|split; [done|]].
  - rewrite Hout. by rewrite last_snoc.
  - specialize (Hhit pr2 Hin Hid). split; [done|].
    intros Hsame. eexists. split; [exact Hhit|]. split; [done|].
    rewrite Hfiles. simpl. by rewrite Hsame.
Qed.

Lemma edit_reaches_other_tab_witness :
  let st1 := logged_in (opened ["m1m1m1m1"] "m1m1m1m1" (page_with small_tree ∅)) in
  let pr := mkProject "w0rkspc1" "Main Workspace" P2d small_tree [] [] ∅ [] in
  let af := mkFile "m1m1m1m1" "main.js" KFile "var x = 1" (Some "s0s0s0s0") in
  let st2 := page_with small_tree ∅ in
  let v := "let x = 2" in
  ∃ m st2',
    last (outbox (editorChange v st1)) = Some ("codeflow-collab", m) ∧
    onMessage m st2 = Some st2' ∧
    with_files (set_content (f_id af) v (p_files pr)) pr ∈ projects st2' ∧
    (p_files pr = p_files pr →
     ∃ pr2', pr2' ∈ projects st2' ∧ p_id pr2' = p_id pr ∧
             p_files pr2' = active_files (editorChange v st1)).
Proof.
  intros st1 pr af st2 v.
  apply (edit_reaches_other_tab st1 pr af v st2 pr);
    [reflexivity | reflexivity | reflexivity | apply elem_of_cons; by left | reflexivity].
Defined.

(** Without an active file an edit changes nothing.  A guest's edit posts
    nothing; it gives the typed text as content to the nodes with the id
    of the active file, the active file among them, and leaves the
    other nodes, the ids and the order of the list as they are. *)
Theorem editorChange_quiet v st :
  (activeFile st = None → editorChange v st = st) ∧
  (auth st = Guest → ∀ pr af, project st = Some pr → activeFile st = Some af →
     let st' := editorChange v st in
     outbox st' = outbox st ∧
     mkFile (f_id af) (f_name af) (f_kind af) v (f_parentId af) ∈ active_files st' ∧
     (∀ f, f ∈ active_files st' → f_id f = f_id af → f_content f = v) ∧
     (∀ f, f_id f ≠ f_id af → f ∈ active_files st' ↔ f ∈ p_files pr) ∧
     f_id <$> active_files st' = f_id <$> p_files pr ∧
     active_files st' = set_content (f_id af) v (p_files pr)).
Proof.
  split.
  - unfold editorChange. by intros ->.
  - intros Hg pr af Hpr Haf st'.
    assert (outbox st' = outbox st ∧
            active_files st' = set_content (f_id af) v (p_files pr)) as [Ho Hfiles].
    { unfold st', editorChange. rewrite Haf, Hpr.
      rewrite decide_False by congruence.
      split; [apply patchProject_frame|].
      unfold active_files. rewrite project_patchProject by done. by rewrite Hpr. }
    split; [done|]. rewrite Hfiles. unfold set_content.
    split; [|split; [|split; [|split; [|done]]]].
    + apply list_elem_of_fmap. exists af. rewrite decide_True by done.
      split; [done|]. by apply (activeFile_elem st pr af Hpr Haf).
    + intros f Hf Hid. apply list_elem_of_fmap in Hf as (g & -> & Hg').
      case_decide as Hd; [done|]. by destruct Hd.
    + intros f Hne. rewrite list_elem_of_fmap. split.
      * intros (g & -> & Hg'). case_decide as Hd; [by destruct Hne|done].
      * intros Hf. exists f. by rewrite decide_False.
    + rewrite <- list_fmap_compose. apply list_fmap_ext. intros _ f _. simpl.
      by case_decide.
Qed.

Lemma editorChange_quiet_witness :
  let st := opened ["m1m1m1m1"] "m1m1m1m1" (page_with small_tree ∅) in
  let pr := mkProject "w0rkspc1" "Main Workspace" P2d small_tree [] [] ∅ [] in
  let af := mkFile "m1m1m1m1" "main.js" KFile "var x = 1" (Some "s0s0s0s0") in
  let v := "x" in
  editorChange v (page_with small_tree ∅) = page_with small_tree ∅ ∧
  let st' := editorChange v st in
  outbox st' = outbox st ∧
  mkFile (f_id af) (f_name af) (f_kind af) v (f_parentId af) ∈ active_files st' ∧
  (∀ f, f ∈ active_files st' → f_id f = f_id af → f_content f = v) ∧
  (∀ f, f_id f ≠ f_id af → f ∈ active_files st' ↔ f ∈ p_files pr) ∧
  f_id <$> active_files st' = f_id <$> p_files pr ∧
  active_files st' = set_content (f_id af) v (p_files pr).
Proof.
  intros st pr af v. split.
  - apply (proj1 (editorChange_quiet v (page_with small_tree ∅))). reflexivity.
  - apply (proj2 (editorChange_quiet v st) eq_refl pr af); reflexivity.
Defined.

(** ** Document collections *)

Lemma patched_docs name (f : Project → list JsObj) st pr :
  project st = Some pr →
  let st' := patchProject (λ p, with_collections (<[name := f p]> (p_collections p)) p) st in
  project st' = Some (with_collections (<[name := f pr]> (p_collections pr)) pr) ∧
  (name ∉ object_prototype_names →
     getDocs (collection name st') = Some (RetDocs (f pr))) ∧
  (∀ n, n ≠ name → getDocs (collection n st') = getDocs (collection n st)).
Proof.
  intros Hpr st'.
  assert (project st' = Some (with_collections (<[name := f pr]> (p_collections pr)) pr))
    as Hp.
  { unfold st'. rewrite project_patchProject by done. by rewrite Hpr. }
  split; [done|]. split.
  - intros Hn. rewrite (getDocs_collection name st' _ Hp Hn). by rewrite getDocs_insert.
  - intros n Hne. apply (getDocs_same_lookup n st st' pr _ Hpr Hp). simpl.
    by rewrite lookup_insert_ne.
Qed.

(** For a name that [Object.prototype] does not define, [updateDoc] on a
    handle of the current render keeps the number and the order of the
    records.  A record with the given id takes every field of the patch
    and keeps its other fields; the records with another id and the other
    collections are unchanged. *)
Theorem updateDoc_merges st pr name id patch :
  project st = Some pr → name ∉ object_prototype_names →
  ∃ st' docs',
    updateDoc (collection name st) id patch st = Some (RetUndefined, st') ∧
    getDocs (collection name st) = Some (RetDocs (docs_of name pr)) ∧
    getDocs (collection name st') = Some (RetDocs docs') ∧
    length docs' = length (docs_of name pr) ∧
    (∀ i d, docs_of name pr !! i = Some d → get d "id" ≠ VStr id → docs' !! i = Some d) ∧
    (∀ i d, docs_of name pr !! i = Some d → get d "id" = VStr id →
       ∃ d', docs' !! i = Some d' ∧
         (∀ k v, patch !! k = Some v → d' !! k = Some v) ∧
         (∀ k, patch !! k = None → d' !! k = d !! k)) ∧
    (∀ other, other ≠ name →
       getDocs (collection other st') = getDocs (collection other st)).
Proof.
  intros Hpr Hn. rewrite (updateDoc_unfold name id patch st Hn).
  destruct (patched_docs name
    (λ p, (λ d, if decide (get d "id" = VStr id) then patch ∪ d else d) <$> docs_of name p)
    st pr Hpr) as (_ & Hdocs & Hother).
  eexists _, _. split; [done|]. split; [by apply getDocs_collection|].
  split; [exact (Hdocs Hn)|].
  split; [by rewrite length_fmap|]. split; [|split; [|exact Hother]].
  - intros i d Hi Hne. rewrite list_lookup_fmap, Hi. simpl. by rewrite decide_False.
  - intros i d Hi Heq. rewrite list_lookup_fmap, Hi. simpl. rewrite decide_True by done.
    eexists. split; [done|]. split.
    + intros k v Hk. by apply lookup_union_Some_l.
    + intros k Hk. by apply lookup_union_r.
Qed.

Lemma notes_not_inherited : "notes" ∉ object_prototype_names.
Proof. apply (bool_decide_unpack _). vm_compute. exact I. Qed.

Lemma updateDoc_merges_witness :
  let st := page_one_note in
  let pr := mkProject "w0rkspc1" "Main Workspace" P2d [] [] []
              {[ "notes" := [first_note] ]} [] in
  let patch : JsObj := {[ "text" := VStr "bye" ]} in
  ∃ st' docs',
    updateDoc (collection "notes" st) "x7k2m100" patch st = Some (RetUndefined, st') ∧
    getDocs (collection "notes" st) = Some (RetDocs (docs_of "notes" pr)) ∧
    getDocs (collection "notes" st') = Some (RetDocs docs') ∧
    length docs' = length (docs_of "notes" pr) ∧
    (∀ i d, docs_of "notes" pr !! i = Some d → get d "id" ≠ VStr "x7k2m100" →
       docs' !! i = Some d) ∧
    (∀ i d, docs_of "notes" pr !! i = Some d → get d "id" = VStr "x7k2m100" →
       ∃ d', docs' !! i = Some d' ∧
         (∀ k v, patch !! k = Some v → d' !! k = Some v) ∧
         (∀ k, patch !! k = None → d' !! k = d !! k)) ∧
    (∀ other, other ≠ "notes" →
       getDocs (collection other st') = getDocs (collection other st)).
Proof.
  intros st pr patch.
  apply (updateDoc_merges st pr "notes" "x7k2m100" patch).
  - vm_compute. reflexivity.
  - exact notes_not_inherited.
Defined.

(** For a name that [Object.prototype] does not define, [deleteDoc] on a
    handle of the current render removes every record with the given id
    and no other: the records that stay keep their order, and the other
    collections are unchanged. *)
Theorem deleteDoc_removes st pr name id :
  project st = Some pr → name ∉ object_prototype_names →
  ∃ st' docs',
    deleteDoc (collection name st) id st = Some (RetUndefined, st') ∧
    getDocs (collection name st) = Some (RetDocs (docs_of name pr)) ∧
    getDocs (collection name st') = Some (RetDocs docs') ∧
    (∀ d, d ∈ docs' ↔ d ∈ docs_of name pr ∧ get d "id" ≠ VStr id) ∧
    docs' `sublist_of` docs_of name pr ∧
    (∀ other, other ≠ name →
       getDocs (collection other st') = getDocs (collection other st)).
Proof.
  intros Hpr Hn. rewrite (deleteDoc_unfold name id st Hn).
  destruct (patched_docs name
    (λ p, filter (λ d, get d "id" ≠ VStr id) (docs_of name p)) st pr Hpr)
    as (_ & Hdocs & Hother).
  eexists _, _. split; [done|]. split; [by apply getDocs_collection|].
  split; [exact (Hdocs Hn)|].
  split; [|split; [|exact Hother]].
  - intros d. rewrite list_elem_of_filter. tauto.
  - apply sublist_filter.
Qed.

Lemma deleteDoc_removes_witness :
  let st := page_one_note in
  let pr := mkProject "w0rkspc1" "Main Workspace" P2d [] [] []
              {[ "notes" := [first_note] ]} [] in
  ∃ st' docs',
    deleteDoc (collection "notes" st) "x7k2m100" st = Some (RetUndefined, st') ∧
    getDocs (collection "notes" st) = Some (RetDocs (docs_of "notes" pr)) ∧
    getDocs (collection "notes" st') = Some (RetDocs docs') ∧
    (∀ d, d ∈ docs' ↔ d ∈ docs_of "notes" pr ∧ get d "id" ≠ VStr "x7k2m100") ∧
    docs' `sublist_of` docs_of "notes" pr ∧
    (∀ other, other ≠ "notes" →
       getDocs (collection other st') = getDocs (collection other st)).
Proof.
  intros st pr. apply (deleteDoc_removes st pr "notes" "x7k2m100").
  - vm_compute. reflexivity.
  - exact notes_not_inherited.
Defined.

(** For a name that [Object.prototype] does not define: adding a record
    and, after the render, deleting it again by the id it was given
    returns every collection to the records it had, when the fields carry
    no id and the drawn id is not in use in the collection. *)
Theorem addDoc_then_deleteDoc st pr name data :
  project st = Some pr → name ∉ object_prototype_names → data !! "id" = None →
  let i := uid_source st (uid_next st) in
  Forall (λ old, get old "id" ≠ VStr i) (docs_of name pr) →
  ∃ st1 st2,
    addDoc (collection name st) data st = Some (RetUndefined, st1) ∧
    deleteDoc (collection name st1) i st1 = Some (RetUndefined, st2) ∧
    getDocs (collection name st2) = Some (RetDocs (docs_of name pr)) ∧
    ∀ n, getDocs (collection n st2) = getDocs (collection n st).
Proof.
  intros Hpr Hn Hid i Hfresh.
  destruct (addDoc_project name data st pr Hpr Hn) as (st1 & Hadd & Hp1). fold i in Hp1.
  exists st1. rewrite (deleteDoc_unfold name i st1 Hn).
  destruct (patched_docs name
    (λ p, filter (λ d, get d "id" ≠ VStr i) (docs_of name p)) st1 _ Hp1)
    as (Hp2 & Hdocs & Hother).
  eexists. split; [done|]. split; [done|].
  assert (filter (λ d, get d "id" ≠ VStr i)
            (docs_of name
               (with_collections
                  (<[name := docs_of name pr ++ [newDoc i data]]> (p_collections pr)) pr))
          = docs_of name pr) as Hback.
  { rewrite getDocs_insert, filter_app. rewrite (filter_all _ _ Hfresh).
    rewrite filter_cons_False, filter_nil, app_nil_r; [done|].
    intros Hne. apply Hne. unfold get. by rewrite (newDoc_id i data Hid). }
  split; [rewrite (Hdocs Hn); by rewrite Hback|].
  intros n. destruct (decide (n = name)) as [->|Hne].
  - rewrite (Hdocs Hn), Hback. symmetry. by apply getDocs_collection.
  - rewrite (Hother n Hne). apply (getDocs_same_lookup n st st1 pr _ Hpr Hp1). simpl.
    by rewrite lookup_insert_ne.
Qed.

Lemma addDoc_then_deleteDoc_witness :
  let st := page_one_note in
  let pr := mkProject "w0rkspc1" "Main Workspace" P2d [] [] []
              {[ "notes" := [first_note] ]} [] in
  let data : JsObj := {[ "text" := VStr "more" ]} in
  let i := uid_source st (uid_next st) in
  ∃ st1 st2,
    addDoc (collection "notes" st) data st = Some (RetUndefined, st1) ∧
    deleteDoc (collection "notes" st1) i st1 = Some (RetUndefined, st2) ∧
    getDocs (collection "notes" st2) = Some (RetDocs (docs_of "notes" pr)) ∧
    ∀ n, getDocs (collection n st2) = getDocs (collection n st).
Proof.
  intros st pr data i.
  apply (addDoc_then_deleteDoc st pr "notes" data).
  - vm_compute. reflexivity.
  - exact notes_not_inherited.
  - reflexivity.
  - repeat constructor. by vm_compute.
Defined.

Lemma patchProject_twice cb st :
  (∀ p, p_id (cb p) = p_id p) → (∀ p, cb (cb p) = cb p) →
  patchProject cb (patchProject cb st) = patchProject cb st.
Proof.
  intros Hid Hidem.
  destruct (project st) as [pr|] eqn:Hpr.
  2: { unfold patchProject at 2 3. rewrite Hpr. unfold patchProject. by rewrite Hpr. }
  unfold patchProject at 1.
  rewrite project_patchProject by done. rewrite Hpr. simpl.
  unfold patchProject. rewrite Hpr. unfold setProjects. simpl. f_equal.
  rewrite <- list_fmap_compose. apply list_fmap_ext. intros _ p _. simpl.
  rewrite Hid. destruct (decide (p_id p = p_id pr)) as [He|Hne].
  - rewrite Hid. rewrite decide_True by done. apply Hidem.
  - by rewrite decide_False.
Qed.

(** [Add] of the collections panel ignores the empty name.  For a name
    that [Object.prototype] does not define it creates the collection with
    no records when the name is new and never touches the records of a
    collection that exists, and adding a name twice is the same as adding
    it once.  For a name that [Object.prototype] defines and the workspace
    does not own, the page goes down. *)
Theorem addCollection_keeps_records st pr name :
  project st = Some pr →
  addCollection "" st = Some st ∧
  (name ≠ "" → name ∉ object_prototype_names →
     ∃ st', addCollection name st = Some st' ∧
       (∃ pr', project st' = Some pr' ∧ p_collections pr' !! name = Some (docs_of name pr)) ∧
       (∀ n, getDocs (collection n st') = getDocs (collection n st)) ∧
       addCollection name st' = Some st') ∧
  (name ∈ object_prototype_names → p_collections pr !! name = None →
     addCollection name st = None).
Proof.
  intros Hpr. split; [done|]. split.
  - intros Hne Hn. unfold addCollection. rewrite !decide_False by done.
    rewrite (decide_False _ _ (sdk_quiet name st Hn)).
    destruct (patched_docs name (docs_of name) st pr Hpr) as (Hp & Hdocs & Hother).
    eexists. split; [done|]. split; [|split].
    + eexists. split; [exact Hp|]. simpl. by rewrite lookup_insert_eq.
    + intros n. destruct (decide (n = name)) as [->|Hnn]; [|by apply Hother].
      rewrite (Hdocs Hn). symmetry. by apply getDocs_collection.
    + unfold addCollection. rewrite decide_False by done.
      rewrite (decide_False _ _ (sdk_quiet name _ Hn)). f_equal.
      apply patchProject_twice; [done|].
      intros p. destruct p as [i nm ty fs cn cl cs ks]. unfold with_collections, docs_of.
      simpl. rewrite lookup_insert_eq. simpl. by rewrite insert_insert_eq.
  - intros Hin Hnone. unfold addCollection.
    assert ("" ∉ object_prototype_names) as Hempty
      by (apply (bool_decide_unpack _); vm_compute; exact I).
    rewrite decide_False by (by intros ->).
    rewrite decide_True; [done|].
    unfold sdk_throws, collection. cbn [h_project h_name]. rewrite Hpr.
    apply Exists_exists. exists pr. split; [by apply project_elem|]. done.
Qed.

Lemma addCollection_keeps_records_witness :
  let st := page_one_note in
  let pr := mkProject "w0rkspc1" "Main Workspace" P2d [] [] []
              {[ "notes" := [first_note] ]} [] in
  addCollection "" st = Some st ∧
  ("notes" ≠ "" → "notes" ∉ object_prototype_names →
     ∃ st', addCollection "notes" st = Some st' ∧
       (∃ pr', project st' = Some pr' ∧
               p_collections pr' !! "notes" = Some (docs_of "notes" pr)) ∧
       (∀ n, getDocs (collection n st') = getDocs (collection n st)) ∧
       addCollection "notes" st' = Some st') ∧
  ("notes" ∈ object_prototype_names → p_collections pr !! "notes" = None →
     addCollection "notes" st = None).
Proof.
  intros st pr.
  apply (addCollection_keeps_records st pr "notes").
  vm_compute. reflexivity.
Defined.

(** [Add] with the name [constructor] on the page with one note. *)
Example addCollection_constructor :
  addCollection "constructor" page_one_note = None.
Proof. by vm_compute. Qed.

Lemma toggle_published_twice id m :
  (get m "id" = VStr id → ∃ b, m !! "published" = Some (VBool b)) →
  toggle_published id (toggle_published id m) = m.
Proof.
  intros Hb. destruct (decide (get m "id" = VStr id)) as [Hid|Hid].
  2: { unfold toggle_published. rewrite (decide_False _ _ Hid).
       by rewrite (decide_False _ _ Hid). }
  destruct (Hb Hid) as [b Hp].
  assert (get (<["published" := VBool (falsy (get m "published"))]> m) "id" = VStr id)
    as Hid'.
  { unfold get in *. by rewrite lookup_insert_ne. }
  unfold toggle_published. rewrite (decide_True _ _ Hid). rewrite (decide_True _ _ Hid').
  rewrite insert_insert_eq. apply insert_id.
  unfold get. rewrite lookup_insert_eq, Hp. simpl. by destruct b.
Qed.

(** [publishModel] flips the publish flag of the models with the given id
    and leaves the other models, their number and their order alone; a
    model without a flag becomes published.  Publishing twice returns
    every model whose flag was a boolean to what it was. *)
Theorem publishModel_toggles st pr id :
  project st = Some pr →
  let models := docs_of "3D Models" pr in
  getDocs (collection "3D Models" st) = Some (RetDocs models) ∧
  ∃ models', getDocs (collection "3D Models" (publishModel id st))
               = Some (RetDocs models') ∧
    length models' = length models ∧
    (∀ i m, models !! i = Some m → get m "id" ≠ VStr id → models' !! i = Some m) ∧
    (∀ i m, models !! i = Some m → get m "id" = VStr id →
       ∃ m', models' !! i = Some m' ∧
         m' !! "published" = Some (VBool (falsy (get m "published"))) ∧
         (∀ k, k ≠ "published" → m' !! k = m !! k)) ∧
    (Forall (λ m, get m "id" = VStr id → ∃ b, m !! "published" = Some (VBool b)) models →
       getDocs (collection "3D Models" (publishModel id (publishModel id st)))
         = Some (RetDocs models)).
Proof.
  intros Hpr models. unfold publishModel.
  assert ("3D Models" ∉ object_prototype_names) as Hn
    by (apply (bool_decide_unpack _); vm_compute; exact I).
  destruct (patched_docs "3D Models" (λ p, toggle_published id <$> docs_of "3D Models" p)
              st pr Hpr) as (Hp & Hdocs & _).
  split; [by apply getDocs_collection|].
  eexists. split; [exact (Hdocs Hn)|].
  split; [by rewrite length_fmap|]. split; [|split].
  - intros i m Hi Hne. rewrite list_lookup_fmap. fold models. rewrite Hi. simpl.
    unfold toggle_published. by rewrite decide_False.
  - intros i m Hi Heq. rewrite list_lookup_fmap. fold models. rewrite Hi. simpl.
    unfold toggle_published. rewrite decide_True by done.
    eexists. split; [done|]. split; [by rewrite lookup_insert_eq|].
    intros k Hk. by rewrite lookup_insert_ne.
  - intros Hbool.
    destruct (patched_docs "3D Models"
      (λ p, toggle_published id <$> docs_of "3D Models" p) _ _ Hp) as (_ & Hdocs2 & _).
    rewrite (Hdocs2 Hn). do 2 f_equal.
    rewrite getDocs_insert. fold models. rewrite <- list_fmap_compose.
    apply (fmap_fixed _ _ _ (λ m Hm, toggle_published_twice id m Hm) Hbool).
Qed.

Lemma publishModel_toggles_witness :
  let st := page_one_model in
  let id := "m0de1001" in
  let models : list JsObj :=
    docs_of "3D Models"
      (mkProject "w0rkspc1" "Main Workspace" P2d [] [] []
         {[ "3D Models" := [ {[ "id" := VStr "m0de1001"; "name" := VStr "Model-1";
                                 "published" := VBool false ]} ] ]} []) in
  getDocs (collection "3D Models" st) = Some (RetDocs models) ∧
  ∃ models', getDocs (collection "3D Models" (publishModel id st))
               = Some (RetDocs models') ∧
    length models' = length models ∧
    (∀ i m, models !! i = Some m → get m "id" ≠ VStr id → models' !! i = Some m) ∧
    (∀ i m, models !! i = Some m → get m "id" = VStr id →
       ∃ m', models' !! i = Some m' ∧
         m' !! "published" = Some (VBool (falsy (get m "published"))) ∧
         (∀ k, k ≠ "published" → m' !! k = m !! k)) ∧
    (Forall (λ m, get m "id" = VStr id → ∃ b, m !! "published" = Some (VBool b)) models →
       getDocs (collection "3D Models" (publishModel id (publishModel id st)))
         = Some (RetDocs models)).
Proof.
  intros st id.
  apply (publishModel_toggles st
           (mkProject "w0rkspc1" "Main Workspace" P2d [] [] []
              {[ "3D Models" := [ {[ "id" := VStr "m0de1001"; "name" := VStr "Model-1";
                                      "published" := VBool false ]} ] ]} []) id).
  reflexivity.
Defined.

(** ** Strings *)

Lemma prefix_split p s :
  String.prefix p s = true → s = p +:+ string_drop (String.length p) s.
Proof.
  revert s. induction p as [|a p IH]; intros s Hp; [by destruct s|].
  destruct s as [|b s]; [done|]. simpl in *.
  destruct (ascii_dec a b) as [->|]; [|done].
  change (String b p +:+ ?x) with (String b (p +:+ x)). f_equal. by apply IH.
Qed.

Lemma replaceAll_from_same pat s k :
  pat ≠ "" → replaceAll_from k pat pat s = string_drop k s.
Proof.
  intros Hne. revert k. induction s as [|a r IH]; intros k; [by destruct k|].
  destruct k as [|k]; cbn [replaceAll_from string_drop]; [|apply IH].
  destruct (String.prefix pat (String a r)) eqn:Hp.
  - rewrite IH. etransitivity; [|symmetry; apply (prefix_split pat (String a r) Hp)].
    f_equal. destruct pat as [|b pat]; [done|].
    cbn [String.length string_drop]. f_equal. lia.
  - rewrite IH. by destruct r.
Qed.

Lemma replaceAll_absent pat rep s :
  includes s pat = false → replaceAll pat rep s = s.
Proof.
  unfold replaceAll. induction s as [|a r IH]; [done|].
  cbn [includes replaceAll_from]. intros H. apply orb_false_iff in H as [Hp Hr].
  rewrite Hp. f_equal. by apply IH.
Qed.

Lemma with_content_same f : with_content (f_content f) f = f.
Proof. by destruct f. Qed.

Lemma patchProject_id cb st : (∀ p, cb p = p) → patchProject cb st = st.
Proof.
  intros Hcb. unfold patchProject. destruct (project st) as [p0|]; [|done].
  assert ((λ p, if decide (p_id p = p_id p0) then cb p else p) <$> projects st
          = projects st) as ->.
  { rewrite <- (list_fmap_id (projects st)) at 2. apply list_fmap_ext.
    intros _ p _. case_decide; [apply Hcb|done]. }
  by destruct st.
Qed.

(** [Apply] of find and replace does nothing without an active file or
    with an empty find text.  With the replace switch off it replaces the
    find text by itself and the page stays as it is; with the switch on
    the content of the active file becomes the result of [replaceAll], and
    the files are unchanged when the find text does not occur. *)
Theorem runFindReplace_effects st pr findText replaceText :
  project st = Some pr →
  (activeFile st = None → ∀ e, runFindReplace findText replaceText e st = Some st) ∧
  (∀ e, runFindReplace "" replaceText e st = Some st) ∧
  (findText ≠ "" → includes findText "$" = false →
     runFindReplace findText replaceText false st = Some st) ∧
  (∀ af, activeFile st = Some af → findText ≠ "" → includes replaceText "$" = false →
     ∃ st', runFindReplace findText replaceText true st = Some st' ∧
       active_files st' =
         (λ f, if decide (f_id f = f_id af)
               then with_content (replaceAll findText replaceText (f_content f)) f
               else f) <$> p_files pr ∧
       with_content (replaceAll findText replaceText (f_content af)) af
         ∈ active_files st' ∧
       (Forall (λ f, f_id f = f_id af → includes (f_content f) findText = false)
               (p_files pr) →
        active_files st' = p_files pr)).
Proof.
  intros Hpr. unfold runFindReplace. split; [|split; [|split]].
  - by intros ->.
  - intros e. by destruct (activeFile st).
  - intros Hne Hd. destruct (activeFile st) as [af|]; [|done].
    rewrite decide_False by done. rewrite Hd. f_equal.
    apply patchProject_id. intros p.
    assert ((λ f, if decide (f_id f = f_id af)
                  then with_content (replaceAll findText findText (f_content f)) f
                  else f) <$> p_files p = p_files p) as ->; [|by destruct p].
    rewrite <- (list_fmap_id (p_files p)) at 2. apply list_fmap_ext.
    intros _ f _. case_decide; [|done]. unfold replaceAll.
    rewrite replaceAll_from_same by done. apply with_content_same.
  - intros af Haf Hne Hd. rewrite Haf. rewrite decide_False by done. rewrite Hd.
    eexists. split; [done|].
    set (g := λ f, if decide (f_id f = f_id af)
                   then with_content (replaceAll findText replaceText (f_content f)) f
                   else f).
    assert (active_files (patchProject (λ p, with_files (g <$> p_files p) p) st)
            = g <$> p_files pr) as ->.
    { unfold active_files. rewrite project_patchProject by done. by rewrite Hpr. }
    split; [done|]. split.
    + apply list_elem_of_fmap. exists af. unfold g. rewrite decide_True by done.
      split; [done|]. by apply (activeFile_elem st pr af Hpr Haf).
    + intros Habs. refine (fmap_fixed _ _ _ _ Habs).
      intros f Hf. simpl in Hf. unfold g. case_decide as Hid; [|done].
      rewrite (replaceAll_absent _ _ _ (Hf Hid)). apply with_content_same.
Qed.

Lemma runFindReplace_effects_witness :
  let st := opened ["m1m1m1m1"] "m1m1m1m1" (page_with small_tree ∅) in
  let pr := mkProject "w0rkspc1" "Main Workspace" P2d small_tree [] [] ∅ [] in
  let af := mkFile "m1m1m1m1" "main.js" KFile "var x = 1" (Some "s0s0s0s0") in
  runFindReplace "x" "y" false st = Some st ∧
  ∃ st', runFindReplace "x" "y" true st = Some st' ∧
    active_files st' =
      (λ f, if decide (f_id f = f_id af)
            then with_content (replaceAll "x" "y" (f_content f)) f
            else f) <$> p_files pr ∧
    with_content (replaceAll "x" "y" (f_content af)) af ∈ active_files st' ∧
    (Forall (λ f, f_id f = f_id af → includes (f_content f) "x" = false) (p_files pr) →
     active_files st' = p_files pr).
Proof.
  intros st pr af.
  destruct (runFindReplace_effects st pr "x" "y" eq_refl) as (_ & _ & Hoff & Hon).
  split.
  - apply Hoff; [discriminate|reflexivity].
  - apply (Hon af); [reflexivity|discriminate|reflexivity].
Defined.

Lemma string_app_cons a (s t : string) : String a s +:+ t = String a (s +:+ t).
Proof. reflexivity. Qed.

Lemma string_app_assoc (s1 s2 s3 : string) : (s1 +:+ s2) +:+ s3 = s1 +:+ (s2 +:+ s3).
Proof.
  induction s1 as [|a s1 IH]; [done|]. rewrite !string_app_cons. by rewrite IH.
Qed.

Lemma string_app_nil_r (s : string) : s +:+ "" = s.
Proof. induction s as [|a s IH]; [done|]. rewrite string_app_cons. by rewrite IH. Qed.

Lemma string_rev_app_acc s acc : String.rev_app s acc = String.rev s +:+ acc.
Proof.
  unfold String.rev. revert acc. induction s as [|a s IH]; intros acc; [done|].
  cbn [String.rev_app]. rewrite (IH (String a acc)), (IH (String a "")).
  by rewrite string_app_assoc.
Qed.

Lemma string_rev_cons a s : String.rev (String a s) = String.rev s +:+ String a "".
Proof. unfold String.rev at 1. cbn [String.rev_app]. apply string_rev_app_acc. Qed.

Lemma string_rev_app s1 s2 : String.rev (s1 +:+ s2) = String.rev s2 +:+ String.rev s1.
Proof.
  induction s1 as [|a s1 IH]; [by rewrite string_app_nil_r|].
  rewrite string_app_cons, !string_rev_cons, IH. by rewrite string_app_assoc.
Qed.

Lemma string_rev_involutive s : String.rev (String.rev s) = s.
Proof.
  induction s as [|a s IH]; [done|].
  rewrite string_rev_cons, string_rev_app, IH. done.
Qed.

Lemma blank_app s1 s2 : blank (s1 +:+ s2) = blank s1 && blank s2.
Proof.
  induction s1 as [|a s1 IH]; [done|].
  rewrite string_app_cons. cbn [blank]. by rewrite IH, andb_assoc.
Qed.

Lemma blank_rev s : blank (String.rev s) = blank s.
Proof.
  induction s as [|a s IH]; [done|].
  rewrite string_rev_cons, blank_app, IH. cbn [blank].
  rewrite andb_true_r. apply andb_comm.
Qed.

Lemma trimStart_blank l t : blank l = true → trimStart (l +:+ t) = trimStart t.
Proof.
  induction l as [|a l IH]; [done|]. cbn [blank]. intros H.
  apply andb_true_iff in H as [Ha Hl].
  rewrite string_app_cons. cbn [trimStart]. rewrite Ha. by apply IH.
Qed.

Lemma trimStart_rev_blank l t : blank l = true → trimStart_rev (l +:+ t) = trimStart_rev t.
Proof.
  induction l as [|a l IH]; [done|]. cbn [blank]. intros H.
  apply andb_true_iff in H as [Ha Hl].
  rewrite string_app_cons. cbn [trimStart_rev]. rewrite Ha. by apply IH.
Qed.

Lemma plain_not_ws a :
  (nat_of_ascii a <? 128)%nat && negb (ws1 a) = true →
  ws1 a = false ∧ (∀ b, ws2 a b = false ∧ ws2 b a = false) ∧
  (∀ b c, ws3 a b c = false ∧ ws3 c b a = false).
Proof.
  intros H. apply andb_true_iff in H as [Hlt Hws].
  apply negb_true_iff in Hws. apply Nat.ltb_lt in Hlt.
  split; [done|]. unfold ws2, ws3. split.
  - intros b. split.
    + apply andb_false_iff. left. apply Nat.eqb_neq. lia.
    + apply andb_false_iff. right. apply Nat.eqb_neq. lia.
  - intros b c.
    assert (∀ k, (128 ≤ k)%nat → (nat_of_ascii a =? k)%nat = false) as Hk.
    { intros k Hge. apply Nat.eqb_neq. lia. }
    assert ((128 <=? nat_of_ascii a)%nat = false) as Hle by (apply Nat.leb_gt; lia).
    split.
    + rewrite !Hk by lia. done.
    + rewrite !Hk by lia. rewrite Hle. simpl.
      by rewrite !andb_false_r.
Qed.

Lemma trimStart_plain t : starts_plain t = true → trimStart t = t.
Proof.
  destruct t as [|a r1]; [done|]. cbn [starts_plain trimStart]. intros H.
  destruct (plain_not_ws a H) as (-> & H2 & H3).
  destruct r1 as [|b r2]; [done|]. rewrite (proj1 (H2 b)).
  destruct r2 as [|c r3]; [done|]. by rewrite (proj1 (H3 b c)).
Qed.

Lemma trimStart_rev_plain t : starts_plain t = true → trimStart_rev t = t.
Proof.
  destruct t as [|a r1]; [done|]. cbn [starts_plain trimStart_rev]. intros H.
  destruct (plain_not_ws a H) as (-> & H2 & H3).
  destruct r1 as [|b r2]; [done|]. rewrite (proj2 (H2 b)).
  destruct r2 as [|c r3]; [done|]. by rewrite (proj2 (H3 b c)).
Qed.

Lemma starts_plain_app s t : starts_plain s = true → starts_plain (s +:+ t) = true.
Proof. by destruct s. Qed.

(** [trim] takes away any run of one-byte white space on either side of a
    text that begins and ends with an ASCII character other than white
    space, and nothing of the text itself; a string of white space alone
    is trimmed to the empty string. *)
Theorem trim_padded l cmd r :
  blank l = true → blank r = true →
  (starts_plain cmd = true → starts_plain (String.rev cmd) = true →
     trim (l +:+ cmd +:+ r) = cmd) ∧
  trim l = "".
Proof.
  intros Hl Hr. unfold trim, trimEnd. split.
  - intros Hs He.
    rewrite (trimStart_blank l _ Hl).
    rewrite (trimStart_plain _ (starts_plain_app cmd r Hs)).
    rewrite string_rev_app.
    rewrite trimStart_rev_blank by (by rewrite blank_rev).
    rewrite (trimStart_rev_plain _ He). apply string_rev_involutive.
  - rewrite <- (string_app_nil_r l). by rewrite (trimStart_blank l "" Hl).
Qed.

Lemma trim_padded_witness :
  trim ("  " +:+ "!fix code" +:+ " ") = "!fix code" ∧ trim "  " = "".
Proof.
  destruct (trim_padded "  " "!fix code" " " eq_refl eq_refl) as [H1 H2].
  split; [apply H1; reflexivity|exact H2].
Defined.

(** ** Workspaces *)

(** The button that adds a workspace appends one workspace under the
    next id of the source and makes that id the active one.  The workspace
    takes the answer of the prompt as its name, or [Workspace n] with the
    new number of workspaces when the prompt was cancelled or left empty;
    it has the seven default files and the two empty default collections.
    It is the active workspace when no earlier workspace has its id. *)
Theorem newWorkspace_effects answer is3d st :
  let i := uid_source st (uid_next st) in
  let st' := newWorkspace answer is3d st in
  ∃ p, projects st' = projects st ++ [p] ∧ p_id p = i ∧ activeProjectId st' = i ∧
    p_type p = (if is3d then P3d else P2d) ∧
    p_name p = match answer with
               | Some (String a s) => String a s
               | _ => "Workspace " +:+ pretty (length (projects st) + 1)
               end ∧
    f_name <$> p_files p =
      ["src"; "CodeSpace.cs"; "React Hooks.rh"; "Server Utilities.su";
       "index.html"; "styles.css"; "main.js"] ∧
    p_collections p = {[ "3D Models" := []; "appData" := [] ]} ∧
    p_connected p = [] ∧
    ((∀ q, q ∈ projects st → p_id q ≠ i) → project st' = Some p).
Proof.
  intros i st'. unfold st', newWorkspace.
  set (name := match answer with
               | Some (String a s) => String a s
               | _ => "Workspace " +:+ pretty (length (projects st) + 1)
               end).
  assert (match answer with
          | Some "" | None => "Workspace " +:+ pretty (length (projects st) + 1)
          | Some n => n
          end = name) as -> by (by destruct answer as [[|??]|]).
  pose proof (makeProject_fields name (if is3d then P3d else P2d) st)
    as (Hid & Hname & Hty & Hfiles & Hcolls & Hconn & _).
  pose proof (makeProject_frame name (if is3d then P3d else P2d) st) as (_ & _ & Hps).
  destruct (makeProject name (if is3d then P3d else P2d) st) as [p st1].
  cbn [fst snd] in *. exists p.
  cbn [projects activeProjectId setActiveProjectId setProjects].
  rewrite Hps. split; [done|]. split; [done|]. split; [done|].
  split; [done|]. split; [done|].
  split; [rewrite Hfiles; by rewrite (makeDefaultFiles_list (uid st).2)|].
  split; [done|]. split; [done|].
  intros Hfresh. unfold project.
  cbn [projects activeProjectId setActiveProjectId setProjects].
  rewrite ?Hps. rewrite list_find_app_r.
  2: { apply list_find_None, Forall_forall. intros q Hq. rewrite Hid. by apply Hfresh. }
  cbn [list_find]. by rewrite decide_True.
Qed.

(** The default files of a workspace are a forest exactly when the id
    drawn for the folder [src] differs from the ids drawn for the three
    files inside it. *)
Theorem default_files_forest st :
  let src := uid_source st (uid_next st) in
  let inside := [uid_source st (1 + uid_next st); uid_source st (2 + uid_next st);
                 uid_source st (3 + uid_next st)] in
  forest (makeDefaultFiles st).1 ↔ src ∉ inside.
Proof.
  intros src inside. split.
  - intros Hf Hin. apply (Hf src). apply tc_once.
    unfold inside in Hin. unfold child_of.
    apply elem_of_cons in Hin as [Hin|Hin].
    { eexists (mkFile src "CodeSpace.cs" KFile "// Core scripts" (Some src)).
      split; [|done]. rewrite Hin at 1. cbn. apply elem_of_cons. right.
      apply elem_of_cons. by left. }
    apply elem_of_cons in Hin as [Hin|Hin].
    { eexists (mkFile src "React Hooks.rh" KFile "// Hooks registry" (Some src)).
      split; [|done]. rewrite Hin at 1. cbn. do 2 (apply elem_of_cons; right).
      apply elem_of_cons. by left. }
    apply elem_of_cons in Hin as [Hin|Hin]; [|by apply elem_of_nil in Hin].
    eexists (mkFile src "Server Utilities.su" KFile "// Server utilities" (Some src)).
    split; [|done]. rewrite Hin at 1. cbn. do 3 (apply elem_of_cons; right).
    apply elem_of_cons. by left.
  - intros Hnot. apply (forest_of_rank _ (λ x, if decide (x = src) then 0 else 1)).
    intros f p Hf Hp. cbn in Hf.
    assert (∀ x, x ∈ inside → (if decide (x = src) then 0 else 1) = 1) as Hone.
    { intros x Hx. rewrite decide_False; [done|]. by intros ->. }
    repeat (apply elem_of_cons in Hf as [->|Hf]); simpl in *; simplify_eq;
      try (by apply elem_of_nil in Hf).
    + rewrite decide_True by done. rewrite Hone; [lia|].
      unfold inside. apply elem_of_cons. by left.
    + rewrite decide_True by done. rewrite Hone; [lia|].
      unfold inside. apply elem_of_cons. right. apply elem_of_cons. by left.
    + rewrite decide_True by done. rewrite Hone; [lia|].
      unfold inside. do 2 (apply elem_of_cons; right). apply elem_of_cons. by left.
Qed.

Lemma default_files_forest_witness : forest (makeDefaultFiles (page_with [] ∅)).1.
Proof.
  apply (proj2 (default_files_forest (page_with [] ∅))).
  apply (bool_decide_unpack _). vm_compute. exact I.
Defined.

Lemma newWorkspace_effects_witness :
  let st := page_with small_tree ∅ in
  let i := uid_source st (uid_next st) in
  let st' := newWorkspace None true st in
  ∃ p, projects st' = projects st ++ [p] ∧ p_id p = i ∧ activeProjectId st' = i ∧
    p_type p = P3d ∧ p_name p = "Workspace 2" ∧ project st' = Some p.
Proof.
  intros st i st'.
  destruct (newWorkspace_effects None true st)
    as (p & Hps & Hid & Hact & Hty & Hname & _ & _ & _ & Hproj).
  exists p. split; [exact Hps|]. split; [exact Hid|]. split; [exact Hact|].
  split; [exact Hty|]. split; [exact Hname|].
  apply Hproj. intros q Hq. apply list_elem_of_singleton in Hq as ->. discriminate.
Defined.

(** The button that deletes a workspace removes every workspace with the
    id of the active one and keeps the others in their order; the first of
    them becomes the active workspace.  When every workspace has the id of
    the active one and there is more than one, the handler queues the
    empty list and throws, as nothing remains to activate. *)
Theorem deleteWorkspace_effects st pr :
  project st = Some pr → length (projects st) ≠ 1 →
  ((∃ q, q ∈ projects st ∧ p_id q ≠ p_id pr) →
     ∃ st' r, deleteWorkspace st = Returns st' ∧
       projects st' = filter (λ p, p_id p ≠ p_id pr) (projects st) ∧
       (∀ q, q ∈ projects st' ↔ q ∈ projects st ∧ p_id q ≠ p_id pr) ∧
       projects st' `sublist_of` projects st ∧
       head (projects st') = Some r ∧ activeProjectId st' = p_id r ∧
       project st' = Some r) ∧
  ((∀ q, q ∈ projects st → p_id q = p_id pr) →
     deleteWorkspace st = Throws (setProjects [] st)).
Proof.
  intros Hpr Hlen. unfold deleteWorkspace. rewrite decide_False by done.
  rewrite Hpr. split.
  - intros (q & Hq & Hne).
    assert (q ∈ filter (λ p, p_id p ≠ p_id pr) (projects st)) as Hin
      by (by apply list_elem_of_filter).
    destruct (filter (λ p, p_id p ≠ p_id pr) (projects st)) as [|r rest] eqn:E;
      [by apply elem_of_nil in Hin|].
    exists (setActiveProjectId (p_id r) (setProjects (r :: rest) st)), r.
    split; [done|]. cbn [projects setActiveProjectId setProjects activeProjectId].
    split; [done|]. split; [|split; [|split; [done|split; [done|]]]].
    + intros x. rewrite <- E, list_elem_of_filter. tauto.
    + rewrite <- E. apply sublist_filter.
    + unfold project.
      cbn [projects setActiveProjectId setProjects activeProjectId list_find].
      by rewrite decide_True.
  - intros Hall.
    assert (filter (λ p, p_id p ≠ p_id pr) (projects st) = []) as ->; [|done].
    apply filter_none. intros q Hq Hne. by apply Hne, Hall.
Qed.

Lemma deleteWorkspace_effects_witness :
  let st := two_small_workspaces in
  let pr := mkProject "w0rkspc2" "Second" P3d nested_folders [] [] ∅ [] in
  ∃ st' r, deleteWorkspace st = Returns st' ∧
    projects st' = filter (λ p, p_id p ≠ p_id pr) (projects st) ∧
    (∀ q, q ∈ projects st' ↔ q ∈ projects st ∧ p_id q ≠ p_id pr) ∧
    projects st' `sublist_of` projects st ∧
    head (projects st') = Some r ∧ activeProjectId st' = p_id r ∧
    project st' = Some r.
Proof.
  intros st pr.
  apply (proj1 (deleteWorkspace_effects st pr eq_refl ltac:(discriminate))).
  exists (mkProject "w0rkspc1" "Main Workspace" P2d small_tree [] [] ∅ []).
  split; [apply elem_of_cons; by left|discriminate].
Defined.

Lemma dedupe_acc (acc l : list string) :
  let r := foldl (λ acc x, if decide (x ∈ acc) then acc else acc ++ [x]) acc l in
  (NoDup acc → NoDup r) ∧ (∀ x, x ∈ r ↔ x ∈ acc ∨ x ∈ l) ∧
  ((∀ x, x ∈ l → x ∈ acc) → r = acc).
Proof.
  revert acc. induction l as [|y l IH]; intros acc; simpl.
  - split; [done|]. split; [|done]. intros x. rewrite elem_of_nil. tauto.
  - destruct (decide (y ∈ acc)) as [Hy|Hy].
    + destruct (IH acc) as (Hnd & Hin & Hsame). split; [done|]. split.
      * intros x. rewrite Hin, elem_of_cons. split; [tauto|].
        intros [?|[->|?]]; auto.
      * intros Hall. apply Hsame. intros x Hx. apply Hall. apply elem_of_cons. auto.
    + destruct (IH (acc ++ [y])) as (Hnd & Hin & Hsame). split; [|split].
      * intros Hacc. apply Hnd. apply NoDup_app. split; [done|].
        split; [|apply NoDup_singleton].
        intros x Hx Hx'. apply list_elem_of_singleton in Hx' as ->. done.
      * intros x. rewrite Hin, elem_of_app, list_elem_of_singleton, elem_of_cons. tauto.
      * intros Hall. exfalso. apply Hy, Hall. apply elem_of_cons. auto.
Qed.

Lemma dedupe_NoDup l : NoDup (dedupe l).
Proof. apply (dedupe_acc [] l). constructor. Qed.

Lemma elem_of_dedupe l x : x ∈ dedupe l ↔ x ∈ l.
Proof.
  unfold dedupe. rewrite (proj1 (proj2 (dedupe_acc [] l)) x), elem_of_nil. tauto.
Qed.

Lemma dedupe_app l1 l2 :
  dedupe (l1 ++ l2)
  = foldl (λ acc x, if decide (x ∈ acc) then acc else acc ++ [x]) (dedupe l1) l2.
Proof. unfold dedupe. by rewrite foldl_app. Qed.

Lemma dedupe_acc_fixed (acc l : list string) :
  NoDup (acc ++ l) →
  foldl (λ acc x, if decide (x ∈ acc) then acc else acc ++ [x]) acc l = acc ++ l.
Proof.
  revert acc. induction l as [|x l IH]; intros acc Hnd; [by rewrite app_nil_r|].
  cbn [foldl]. rewrite decide_False.
  - rewrite IH; [by rewrite <- app_assoc|]. by rewrite <- app_assoc.
  - apply NoDup_app in Hnd as (_ & Hdisj & _). intros Hx.
    apply (Hdisj x Hx). apply elem_of_cons. auto.
Qed.

Lemma dedupe_fixed l : NoDup l → dedupe l = l.
Proof. intros Hnd. apply (dedupe_acc_fixed [] l Hnd). Qed.

Lemma dedupe_snoc_again l t :
  dedupe (dedupe (l ++ [t]) ++ [t]) = dedupe (l ++ [t]).
Proof.
  rewrite dedupe_app. rewrite (dedupe_fixed _ (dedupe_NoDup _)). simpl.
  rewrite decide_True; [done|]. apply elem_of_dedupe, elem_of_app. right.
  by apply list_elem_of_singleton.
Qed.

(** [Connect] links the active workspace to the first workspace with
    another id and to nothing when there is none.  The list of connected
    ids never holds an id twice and never the id of the workspace itself
    unless it was there before; what was connected stays connected, and a
    second click changes nothing more. *)
Theorem connectWorkspace_effects st pr :
  project st = Some pr →
  ((∀ q, q ∈ projects st → p_id q = p_id pr) → connectWorkspace st = st) ∧
  (∀ j target, list_find (λ p, p_id p ≠ p_id pr) (projects st) = Some (j, target) →
     ∃ pr', project (connectWorkspace st) = Some pr' ∧
       p_connected pr' = dedupe (p_connected pr ++ [p_id target]) ∧
       NoDup (p_connected pr') ∧
       (∀ x, x ∈ p_connected pr' ↔ x ∈ p_connected pr ∨ x = p_id target) ∧
       p_id target ≠ p_id pr ∧
       p_files pr' = p_files pr ∧
       ∃ pr'', project (connectWorkspace (connectWorkspace st)) = Some pr'' ∧
               p_connected pr'' = p_connected pr').
Proof.
  intros Hpr. split.
  - intros Hall. unfold connectWorkspace. rewrite Hpr.
    destruct (list_find _ _) as [[j t]|] eqn:E; [|done].
    apply list_find_Some in E as (Hj & Hne & _).
    exfalso. apply Hne, Hall. by eapply list_elem_of_lookup_2.
  - intros j target Hfind.
    set (cb := λ p : Project,
      with_connected (dedupe (p_connected p ++ [p_id target])) p).
    assert (connectWorkspace st = patchProject cb st) as Hc.
    { unfold connectWorkspace. by rewrite Hpr, Hfind. }
    assert (project (patchProject cb st) = Some (cb pr)) as Hp'.
    { rewrite project_patchProject by done. by rewrite Hpr. }
    rewrite Hc. exists (cb pr). split; [done|]. split; [done|].
    split; [apply dedupe_NoDup|]. split.
    { intros x. simpl. rewrite elem_of_dedupe, elem_of_app, list_elem_of_singleton. done. }
    apply list_find_Some in Hfind as (Hj & Hne & Hfirst).
    split; [done|]. split; [done|].
    assert (list_find (λ p, p_id p ≠ p_id (cb pr)) (projects (patchProject cb st))
            = Some (j, if decide (p_id target = p_id pr) then cb target else target))
      as Hfind2.
    { unfold patchProject. rewrite Hpr. cbn [projects setProjects].
      rewrite list_find_fmap. simpl.
      erewrite (list_find_ext _ (λ p, p_id p ≠ p_id pr)).
      2: { intros p. unfold compose. simpl. case_decide; done. }
      assert (list_find (λ p, p_id p ≠ p_id pr) (projects st) = Some (j, target)) as ->.
      { by apply list_find_Some. }
      done. }
    rewrite decide_False in Hfind2 by done.
    exists (with_connected (dedupe (p_connected (cb pr) ++ [p_id target])) (cb pr)).
    split.
    + unfold connectWorkspace at 1. rewrite Hp', Hfind2.
      rewrite project_patchProject by done. by rewrite Hp'.
    + simpl. apply dedupe_snoc_again.
Qed.

Lemma connectWorkspace_effects_witness :
  let st := two_small_workspaces in
  let pr := mkProject "w0rkspc2" "Second" P3d nested_folders [] [] ∅ [] in
  let target := mkProject "w0rkspc1" "Main Workspace" P2d small_tree [] [] ∅ [] in
  ∃ pr', project (connectWorkspace st) = Some pr' ∧
    p_connected pr' = dedupe (p_connected pr ++ [p_id target]) ∧
    NoDup (p_connected pr') ∧
    (∀ x, x ∈ p_connected pr' ↔ x ∈ p_connected pr ∨ x = p_id target) ∧
    p_id target ≠ p_id pr ∧
    p_files pr' = p_files pr ∧
    ∃ pr'', project (connectWorkspace (connectWorkspace st)) = Some pr'' ∧
            p_connected pr'' = p_connected pr'.
Proof.
  intros st pr target.
  apply (proj2 (connectWorkspace_effects st pr eq_refl) 0 target). reflexivity.
Defined.

(** ** Preview *)

Lemma first_content_app ext files extra :
  (∃ f, f ∈ files ∧ endsWith (f_name f) ext = true) →
  first_content ext (files ++ extra) = first_content ext files.
Proof.
  intros (f & Hf & He). unfold first_content.
  destruct (list_find_elem_of (λ f, endsWith (f_name f) ext = true) files f Hf He)
    as [[i g] Hg].
  by rewrite (list_find_app_l _ _ _ _ _ Hg), Hg.
Qed.

Lemma first_content_none ext files :
  (∀ f, f ∈ files → endsWith (f_name f) ext = false) → first_content ext files = "".
Proof.
  intros Hnone. unfold first_content.
  assert (list_find (λ f, endsWith (f_name f) ext = true) files = None) as ->; [|done].
  apply list_find_None, Forall_forall. intros f Hf. rewrite (Hnone f Hf). done.
Qed.

(** The preview embeds the content of the first node whose name ends in
    [.css], in [.html] and in [.js]; a kind without such a node contributes
    an empty section.  Once the list has a node of each kind, nodes added
    after them do not change the preview. *)
Theorem preview_first_of_each files :
  ((∀ f, f ∈ files → endsWith (f_name f) ".css" = false ∧
                      endsWith (f_name f) ".html" = false ∧
                      endsWith (f_name f) ".js" = false) →
     preview files =
       "<!doctype html><html><head><style></style></head><body><script></script></body></html>") ∧
  (∀ i j k c h s,
     list_find (λ f, endsWith (f_name f) ".css" = true) files = Some (i, c) →
     list_find (λ f, endsWith (f_name f) ".html" = true) files = Some (j, h) →
     list_find (λ f, endsWith (f_name f) ".js" = true) files = Some (k, s) →
     (preview files =
        "<!doctype html><html><head><style>" +:+ f_content c +:+
        "</style></head><body>" +:+ f_content h +:+
        "<script>" +:+ f_content s +:+ "</script></body></html>") ∧
     ∀ extra, preview (files ++ extra) = preview files).
Proof.
  split.
  - intros Hnone. unfold preview.
    rewrite !first_content_none; [done|intros f Hf; by apply Hnone..].
  - intros i j k c h s Hc Hh Hs. split.
    + unfold preview, first_content. by rewrite Hc, Hh, Hs.
    + intros extra. unfold preview.
      apply list_find_Some in Hc as (Hc & Hce & _).
      apply list_find_Some in Hh as (Hh & Hhe & _).
      apply list_find_Some in Hs as (Hs & Hse & _).
      rewrite !first_content_app; [done|..].
      * exists s. split; [by eapply list_elem_of_lookup_2|done].
      * exists h. split; [by eapply list_elem_of_lookup_2|done].
      * exists c. split; [by eapply list_elem_of_lookup_2|done].
Qed.

Lemma preview_first_of_each_witness :
  let files := (makeDefaultFiles (page_with [] ∅)).1 in
  preview files =
    "<!doctype html><html><head><style>" +:+
    "body{font-family:Inter,sans-serif;background:#111827;color:#e5e7eb}" +:+
    "</style></head><body>" +:+ "<h1>CodeFlow IDE v1</h1>" +:+
    "<script>" +:+ "console.log('CodeFlow v1 loaded')" +:+ "</script></body></html>" ∧
  ∀ extra, preview (files ++ extra) = preview files.
Proof.
  intros files.
  apply (proj2 (preview_first_of_each files) 5 4 6
    (mkFile "x7k2m105" "styles.css" KFile
       "body{font-family:Inter,sans-serif;background:#111827;color:#e5e7eb}" None)
    (mkFile "x7k2m104" "index.html" KFile "<h1>CodeFlow IDE v1</h1>" None)
    (mkFile "x7k2m106" "main.js" KFile "console.log('CodeFlow v1 loaded')" None));
    vm_compute; reflexivity.
Defined.

(** ** File tree *)

Lemma forest_filter (P : FileItem → Prop) `{∀ f, Decision (P f)} files :
  forest files → forest (filter P files).
Proof.
  intros Hf x Hx. apply (Hf x). revert Hx. generalize x at 1 3. intros y Hy.
  induction Hy as [a b Hab|a b c Hab _ IH].
  - apply tc_once. destruct Hab as (f & Hin & Hid & Hp).
    apply list_elem_of_filter in Hin as [_ Hin]. exists f. eauto.
  - eapply tc_l; [|exact IH]. destruct Hab as (f & Hin & Hid & Hp).
    apply list_elem_of_filter in Hin as [_ Hin]. exists f. eauto.
Qed.

Section tree_closure.
Context (localeCompare : string → string → Z) (fl : list FileItem).

Local Abbreviation rows_of := (tree_rows localeCompare).

Lemma tree_rows_block fuel pid depth rows :
  rows_of (S fuel) fl pid depth = Some rows →
  ∀ r, r ∈ rows ↔
    ∃ x, x ∈ fl ∧ f_parentId x = pid ∧
      (r = mkRow x (label depth x) ∨
       f_kind x = KFolder ∧
       ∃ rest, rows_of fuel fl (Some (f_id x)) (S depth) = Some rest ∧ r ∈ rest).
Proof.
  simpl. intros Hrows r.
  apply fmap_Some in Hrows as (yss & Hyss & ->). apply mapM_Some in Hyss.
  rewrite list_elem_of_join. split.
  - intros (ys & Hr & Hys).
    destruct (Forall2_elem_of_r _ _ _ _ Hyss Hys) as (x & Hx & Hg).
    apply elem_of_sort, list_elem_of_filter in Hx as [Hp Hx].
    exists x. split; [done|]. split; [done|].
    destruct (f_kind x) eqn:Hk.
    + simplify_eq. apply list_elem_of_singleton in Hr as ->. by left.
    + apply bind_Some in Hg as (rest & Hrest & [= <-]).
      apply elem_of_cons in Hr as [->|Hr]; [by left|right]. eauto.
  - intros (x & Hx & Hp & Hr).
    assert (x ∈ sort (compareRows localeCompare) (filter (λ f, f_parentId f = pid) fl))
      as Hx'.
    { apply elem_of_sort, list_elem_of_filter. done. }
    destruct (Forall2_elem_of_l _ _ _ _ Hyss Hx') as (ys & Hys & Hg).
    exists ys. split; [|done].
    destruct (f_kind x) eqn:Hk.
    + simplify_eq. destruct Hr as [->|[? _]]; [|done]. apply elem_of_cons. by left.
    + apply bind_Some in Hg as (rest & Hrest & [= <-]).
      destruct Hr as [->|(_ & rest' & Hrest' & Hr)]; [apply elem_of_cons; by left|].
      rewrite Hrest in Hrest'. simplify_eq. apply elem_of_cons. by right.
Qed.

Lemma tree_rows_sound fuel pid depth rows r :
  rows_of fuel fl pid depth = Some rows → r ∈ rows →
  r_file r ∈ fl ∧
  (f_parentId (r_file r) = pid ∨
   ∃ r', r' ∈ rows ∧ f_kind (r_file r') = KFolder ∧
         f_parentId (r_file r) = Some (f_id (r_file r'))).
Proof.
  revert pid depth rows r. induction fuel as [|n IH]; intros pid depth rows r; [done|].
  intros Hrows Hr. pose proof (tree_rows_block n pid depth rows Hrows) as Hblock.
  apply Hblock in Hr as (x & Hx & Hp & [->|(Hk & rest & Hrest & Hr)]).
  - split; [done|]. by left.
  - destruct (IH _ _ _ _ Hrest Hr) as (Hin & Hpar). split; [done|]. right.
    destruct Hpar as [Hpar|(r' & Hr' & Hk' & Hpar)].
    + exists (mkRow x (label depth x)). split; [|done].
      apply Hblock. exists x. split; [done|]. split; [done|]. by left.
    + exists r'. split; [|done].
      apply Hblock. exists x. split; [done|]. split; [done|]. right. eauto.
Qed.

Lemma tree_rows_complete fuel pid depth rows f :
  rows_of fuel fl pid depth = Some rows → f ∈ fl →
  (f_parentId f = pid ∨
   ∃ r', r' ∈ rows ∧ f_kind (r_file r') = KFolder ∧
         f_parentId f = Some (f_id (r_file r'))) →
  ∃ r, r ∈ rows ∧ r_file r = f.
Proof.
  revert pid depth rows. induction fuel as [|n IH]; intros pid depth rows; [done|].
  intros Hrows Hf Hpar. pose proof (tree_rows_block n pid depth rows Hrows) as Hblock.
  destruct Hpar as [Hpar|(r' & Hr' & Hk' & Hpar)].
  - exists (mkRow f (label depth f)). split; [|done].
    apply Hblock. exists f. split; [done|]. split; [done|]. by left.
  - apply Hblock in Hr' as (x & Hx & Hp & [->|(Hk & rest & Hrest & Hr')]).
    + simpl in *. destruct (f_kind x) eqn:Hkx; [done|].
      assert (is_Some (rows_of n fl (Some (f_id x)) (S depth))) as [rest Hrest].
      { simpl in Hrows. apply fmap_Some in Hrows as (yss & Hyss & _).
        apply mapM_Some in Hyss.
        assert (x ∈ sort (compareRows localeCompare)
                        (filter (λ f, f_parentId f = pid) fl)) as Hx'.
        { apply elem_of_sort, list_elem_of_filter. done. }
        destruct (Forall2_elem_of_l _ _ _ _ Hyss Hx') as (ys & _ & Hg).
        rewrite Hkx in Hg. apply bind_Some in Hg as (rest & Hrest & _). eauto. }
      destruct (IH _ _ _ Hrest Hf (or_introl Hpar)) as (r & Hr & Hrf).
      exists r. split; [|done]. apply Hblock. exists x.
      split; [done|]. split; [done|]. right. eauto.
    + destruct (IH _ _ _ Hrest Hf) as (r & Hr & Hrf).
      { right. eauto. }
      exists r. split; [|done]. apply Hblock. exists x.
      split; [done|]. split; [done|]. right. eauto.
Qed.
End tree_closure.

(** In a forest the tree of a render is defined, and its rows are exactly
    the nodes that match the search text and hang, through folders that
    are listed themselves, from the root: a matching file inside a folder
    that does not match the search text is not shown. *)
Theorem renderTree_lists_closure localeCompare toLowerCase fuel st pr :
  project st = Some pr → forest (p_files pr) → length (p_files pr) < fuel →
  ∃ rows, renderTree localeCompare toLowerCase fuel st = Some rows ∧
    ∀ f, (∃ r, r ∈ rows ∧ r_file r = f) ↔
      f ∈ p_files pr ∧ matches toLowerCase (search st) f = true ∧
      (f_parentId f = None ∨
       ∃ r', r' ∈ rows ∧ f_kind (r_file r') = KFolder ∧
             f_parentId f = Some (f_id (r_file r'))).
Proof.
  intros Hpr Hforest Hfuel.
  rewrite (renderTree_tree_rows _ _ _ _ _ Hpr).
  set (fl := filter (λ f, matches toLowerCase (search st) f = true) (p_files pr)).
  assert (forest fl) as Hfl by (by apply forest_filter).
  assert (length fl < fuel) as Hlen.
  { pose proof (length_filter (λ f, matches toLowerCase (search st) f = true)
                  (p_files pr)). unfold fl. lia. }
  destruct (tree_rows_total localeCompare fl Hfl fuel None 0 Hlen) as [rows Hrows].
  exists rows. split; [done|]. intros f. split.
  - intros (r & Hr & <-).
    destruct (tree_rows_sound localeCompare fl _ _ _ _ _ Hrows Hr) as (Hin & Hpar).
    apply list_elem_of_filter in Hin as [Hm Hin]. done.
  - intros (Hin & Hm & Hpar).
    apply (tree_rows_complete localeCompare fl _ _ _ _ _ Hrows); [|done].
    by apply list_elem_of_filter.
Qed.

Lemma renderTree_lists_closure_witness :
  let st := page_with mixed_tree ∅ in
  let pr := mkProject "w0rkspc1" "Main Workspace" P2d mixed_tree [] [] ∅ [] in
  ∃ rows, renderTree byte_order ascii_lower 7 st = Some rows ∧
    ∀ f, (∃ r, r ∈ rows ∧ r_file r = f) ↔
      f ∈ p_files pr ∧ matches ascii_lower (search st) f = true ∧
      (f_parentId f = None ∨
       ∃ r', r' ∈ rows ∧ f_kind (r_file r') = KFolder ∧
             f_parentId f = Some (f_id (r_file r'))).
Proof.
  intros st pr.
  apply (renderTree_lists_closure byte_order ascii_lower 7 st pr);
    [reflexivity | exact mixed_tree_forest | simpl; lia].
Defined.

(** With the search text [util] the folder [lib] does not match, and the
    file [util.js] inside it is not shown although it matches. *)
Example search_hides_nested_match :
  renderTree byte_order ascii_lower 7
    (mkState Guest [mkProject "w0rkspc1" "Main Workspace" P2d mixed_tree [] [] ∅ []]
       "w0rkspc1" "" [] "util" [] None "" [] sample_ids 0 [] None) = Some [].
Proof. vm_compute. reflexivity. Qed.

(** ** Sync of connected workspaces *)

Lemma sync_into_spec sourceFiles connected src ps : ∀ n,
  let r := (sync_into sourceFiles connected src n ps).1 in
  length r = length ps ∧
  ∀ i p, ps !! i = Some p →
    (p_id p ∉ connected → r !! i = Some p) ∧
    (p_id p ∈ connected → ∃ m, (n ≤ m)%nat ∧
       r !! i = Some (with_files
         (p_files p ++
          zip_with (λ f i, mkFile i (f_name f) (f_kind f) (f_content f) (f_parentId f))
            sourceFiles (src <$> seq m (length sourceFiles))) p)).
Proof.
  induction ps as [|q ps IH]; intros n; [done|]. cbn [sync_into].
  destruct (decide (p_id q ∈ connected)) as [Hq|Hq].
  - specialize (IH (n + length sourceFiles)).
    destruct (sync_into sourceFiles connected src (n + length sourceFiles) ps)
      as [r n'] eqn:Hr. cbn [fst length] in *. destruct IH as [Hlen IH].
    split; [by rewrite Hlen|]. intros [|i] p Hp.
    + simpl in Hp. simplify_eq. split; [done|]. intros _. exists n. split; [lia|done].
    + destruct (IH i p Hp) as [Hout Hin]. split; [done|]. intros Hc.
      destruct (Hin Hc) as (m & Hm & Hlook). exists m. split; [lia|done].
  - specialize (IH n).
    destruct (sync_into sourceFiles connected src n ps) as [r n'] eqn:Hr.
    cbn [fst length] in *. destruct IH as [Hlen IH].
    split; [by rewrite Hlen|]. intros [|i] p Hp.
    + simpl in Hp. simplify_eq. split; [done|]. intros Hc. done.
    + apply (IH i p Hp).
Qed.

Lemma copies_alike (sourceFiles : list FileItem) (ids : list string) :
  length ids = length sourceFiles →
  Forall2 (λ f c, f_name c = f_name f ∧ f_kind c = f_kind f ∧
                  f_content c = f_content f ∧ f_parentId c = f_parentId f)
    sourceFiles
    (zip_with (λ f i, mkFile i (f_name f) (f_kind f) (f_content f) (f_parentId f))
       sourceFiles ids).
Proof.
  revert ids. induction sourceFiles as [|f fs IH]; intros [|i ids] Hlen;
    simpl in *; try done; try (by constructor).
  constructor; [done|]. apply IH. lia.
Qed.

(** [syncConnected] does nothing when the active workspace is connected to
    no other.  Otherwise it logs one entry, leaves the workspaces that are
    not connected as they are, and appends to the files of every connected
    workspace one copy of each source file, in the order of the list.  The
    source files are the nodes of the active workspace at the root and the
    nodes whose parent is the first node named [src]; a copy has the name,
    kind, content and parent id of its original (so the copy of a file of
    [src] still names the folder of the active workspace as its parent). *)
Theorem syncConnected_effects st pr :
  project st = Some pr →
  let srcId := (f_id ∘ snd) <$> list_find (λ x, f_name x = "src") (p_files pr) in
  let sources :=
    filter (λ f, f_parentId f = None ∨ f_parentId f = srcId) (p_files pr) in
  (∀ f, f ∈ sources ↔
        f ∈ p_files pr ∧
        (f_parentId f = None ∨
         ∃ j s, list_find (λ x, f_name x = "src") (p_files pr) = Some (j, s) ∧
                f_parentId f = Some (f_id s))) ∧
  (p_connected pr = [] → syncConnected st = Some st) ∧
  (p_connected pr ≠ [] →
   ∃ st', syncConnected st = Some st' ∧
     length (projects st') = length (projects st) ∧
     (∃ i, logs st' = logs st ++
        [mkEntry i Success "Synced resources to connected workspaces."]) ∧
     ∀ i p, projects st !! i = Some p →
       (p_id p ∉ p_connected pr → projects st' !! i = Some p) ∧
       (p_id p ∈ p_connected pr →
        ∃ copies,
          projects st' !! i = Some (with_files (p_files p ++ copies) p) ∧
          Forall2 (λ f c, f_name c = f_name f ∧ f_kind c = f_kind f ∧
                          f_content c = f_content f ∧ f_parentId c = f_parentId f)
            sources copies)).
Proof.
  intros Hpr srcId sources. split.
  { intros f. unfold sources. rewrite list_elem_of_filter. unfold srcId.
    destruct (list_find (λ x, f_name x = "src") (p_files pr)) as [[j s]|]; simpl.
    - split.
      + intros [[Hn|Hs] Hin]; (split; [done|]); [by left|right; eauto].
      + intros [Hin [Hn|(j' & s' & Heq & Hs)]]; (split; [|done]); [by left|].
        right. by simplify_eq.
    - split.
      + intros [[Hn|Hn] Hin]; (split; [done|]); by left.
      + intros [Hin [Hn|(j' & s' & Heq & Hs)]]; [|done]. split; [by left|done]. }
  change sources with (sync_sources (p_files pr)).
  unfold syncConnected. rewrite Hpr. cbn [mbind option_bind].
  split; [intros Hc; by rewrite decide_True|]. intros Hc.
  rewrite decide_False by done.
  pose proof (sync_into_spec (sync_sources (p_files pr)) (p_connected pr)
                (uid_source st) (projects st) (uid_next st)) as Hspec.
  destruct (sync_into (sync_sources (p_files pr)) (p_connected pr)
              (uid_source st) (uid_next st) (projects st)) as [ps n] eqn:Hsync.
  cbn [fst] in Hspec. destruct Hspec as [Hlen Hspec].
  eexists. split; [done|]. split; [done|]. split; [by eexists|].
  intros i p Hp. destruct (Hspec i p Hp) as [Hout Hin]. split; [done|].
  intros Hmem. destruct (Hin Hmem) as (m & _ & Hlook).
  eexists. split; [exact Hlook|]. apply copies_alike.
  by rewrite length_fmap, length_seq.
Qed.

Lemma syncConnected_effects_witness :
  let st := two_linked_workspaces in
  let pr := mkProject "w0rkspc1" "Main Workspace" P2d small_tree ["w0rkspc2"] [] ∅ [] in
  let srcId := (f_id ∘ snd) <$> list_find (λ x, f_name x = "src") (p_files pr) in
  let sources :=
    filter (λ f, f_parentId f = None ∨ f_parentId f = srcId) (p_files pr) in
  (∀ f, f ∈ sources ↔
        f ∈ p_files pr ∧
        (f_parentId f = None ∨
         ∃ j s, list_find (λ x, f_name x = "src") (p_files pr) = Some (j, s) ∧
                f_parentId f = Some (f_id s))) ∧
  (p_connected pr = [] → syncConnected st = Some st) ∧
  (p_connected pr ≠ [] →
   ∃ st', syncConnected st = Some st' ∧
     length (projects st') = length (projects st) ∧
     (∃ i, logs st' = logs st ++
        [mkEntry i Success "Synced resources to connected workspaces."]) ∧
     ∀ i p, projects st !! i = Some p →
       (p_id p ∉ p_connected pr → projects st' !! i = Some p) ∧
       (p_id p ∈ p_connected pr →
        ∃ copies,
          projects st' !! i = Some (with_files (p_files p ++ copies) p) ∧
          Forall2 (λ f c, f_name c = f_name f ∧ f_kind c = f_kind f ∧
                          f_content c = f_content f ∧ f_parentId c = f_parentId f)
            sources copies)).
Proof.
  intros st pr. apply (syncConnected_effects st pr). reflexivity.
Defined.

(** The scenario of the witness: the second workspace receives copies of
    [src], [main.js] and [index.html] under fresh ids. *)
Example syncConnected_copies :
  ∃ st', syncConnected two_linked_workspaces = Some st' ∧
    (p_files <$> projects st') !! 1 =
      Some (nested_folders ++
        [ mkFile "x7k2m100" "src" KFolder "" None;
          mkFile "x7k2m101" "main.js" KFile "var x = 1" (Some "s0s0s0s0");
          mkFile "x7k2m102" "index.html" KFile "<h1>hi</h1>" None ]).
Proof. eexists. split; [vm_compute; reflexivity|]. by vm_compute. Qed.

(** ** Selection *)

Lemma filter_ne_absent (id : string) (l : list string) :
  id ∉ l → filter (λ x, x ≠ id) l = l.
Proof.
  intros Hid. apply filter_all. apply Forall_forall. intros x Hx ->. done.
Qed.

(** The check box of a row is ticked exactly when the row is selected.
    Changing it flips the membership of that row in the selection and of
    no other, the selection never lists an id twice, and ticking a row and
    unticking it again gives back the selection as it was. *)
Theorem toggleSelected_flips id st :
  NoDup (selectedIds st) →
  let checked := bool_decide (id ∉ selectedIds st) in
  let st' := toggleSelected id checked st in
  NoDup (selectedIds st') ∧
  (id ∈ selectedIds st' ↔ id ∉ selectedIds st) ∧
  (∀ x, x ≠ id → x ∈ selectedIds st' ↔ x ∈ selectedIds st) ∧
  projects st' = projects st ∧
  (id ∉ selectedIds st →
   selectedIds (toggleSelected id false st') = selectedIds st).
Proof.
  intros Hnd checked st'. subst checked st'. unfold toggleSelected.
  destruct (decide (id ∈ selectedIds st)) as [Hin|Hout].
  - rewrite bool_decide_eq_false_2 by (intros Hn; by apply Hn). cbn.
    split; [by apply NoDup_filter|].
    split; [rewrite list_elem_of_filter; split; [intros [Hne _]; done|done]|].
    split; [intros x Hx; rewrite list_elem_of_filter; split; [by intros [_ ?]|by intros ?]|].
    split; [done|]. intros Hn. done.
  - rewrite bool_decide_eq_true_2 by done. cbn.
    split.
    { apply NoDup_app. split; [done|]. split; [|apply NoDup_singleton].
      intros x Hx Hx'. apply list_elem_of_singleton in Hx' as ->. done. }
    split; [rewrite elem_of_app, list_elem_of_singleton;
            split; [intros _; exact Hout|intros _; by right]|].
    split; [intros x Hx; rewrite elem_of_app, list_elem_of_singleton;
            split; [intros [?|?]; done|intros ?; by left]|].
    split; [done|]. intros _.
    rewrite filter_app, filter_ne_absent by done.
    rewrite filter_cons_False by (intros Hne; by apply Hne). rewrite filter_nil.
    by rewrite app_nil_r.
Qed.

Lemma toggleSelected_flips_witness :
  let st := setSelectedIds ["m1m1m1m1"] two_linked_workspaces in
  let id := "h2h2h2h2" in
  let checked := bool_decide (id ∉ selectedIds st) in
  let st' := toggleSelected id checked st in
  NoDup (selectedIds st') ∧
  (id ∈ selectedIds st' ↔ id ∉ selectedIds st) ∧
  (∀ x, x ≠ id → x ∈ selectedIds st' ↔ x ∈ selectedIds st) ∧
  projects st' = projects st ∧
  (id ∉ selectedIds st →
   selectedIds (toggleSelected id false st') = selectedIds st).
Proof.
  intros st id. apply (toggleSelected_flips id st).
  apply NoDup_singleton.
Defined.

(** ** Workspaces are patched one at a time *)

Lemma patchProject_other cb st pr i q :
  project st = Some pr → projects st !! i = Some q → p_id q ≠ p_id pr →
  projects (patchProject cb st) !! i = Some q.
Proof.
  intros Hpr Hq Hne. unfold patchProject. rewrite Hpr.
  cbn [projects setProjects]. rewrite list_lookup_fmap, Hq. simpl.
  by rewrite decide_False.
Qed.

Lemma patchProjectU_other k cb st pr i q :
  project st = Some pr → projects st !! i = Some q → p_id q ≠ p_id pr →
  projects (patchProjectU k cb st) !! i = Some q.
Proof.
  intros Hpr Hq Hne. unfold patchProjectU. rewrite Hpr.
  pose proof (patch_drawing_other k cb (p_id pr) (uid_source st) (uid_next st)
                (projects st) i q Hq Hne) as H.
  by destruct (patch_drawing _ _ _ _ _ _).
Qed.

Lemma project_addLog level message st : project (addLog level message st) = project st.
Proof. done. Qed.

Lemma runTerminal_other st st' pr i q :
  runTerminal st = Some st' → project st = Some pr →
  projects st !! i = Some q → p_id q ≠ p_id pr → projects st' !! i = Some q.
Proof.
  intros Hrun Hpr Hq Hne. unfold runTerminal in Hrun.
  case_decide; [by simplify_eq|].
  apply bind_Some in Hrun as (st2 & Hst2 & Hst').
  apply (inj Some) in Hst'. subst st'. cbn [projects setTermInput].
  repeat case_decide.
  - apply (inj Some) in Hst2. by subst st2.
  - apply (inj Some) in Hst2. by subst st2.
  - destruct (activeFile st) as [af|].
    + apply (inj Some) in Hst2. subst st2.
      change (projects (addLog ?l ?m ?s)) with (projects s).
      apply (patchProject_other _ _ pr); [by rewrite project_addLog|done|done].
    + apply (inj Some) in Hst2. by subst st2.
  - rewrite Hpr in Hst2. cbn [mbind option_bind] in Hst2.
    apply (inj Some) in Hst2. by subst st2.
  - apply (inj Some) in Hst2. by subst st2.
  - apply (inj Some) in Hst2. by subst st2.
Qed.

(** [patchProject] rewrites the workspaces with the id of the active one
    only.  Of the handlers that [step] covers, all but the startup effect,
    the deletion of a workspace and a message from another tab leave a
    workspace with another id what it was, at its place in the list. *)
Theorem step_keeps_other_workspaces a st st' pr :
  step a st = Some st' → project st = Some pr →
  a ≠ Startup → a ≠ DeleteWorkspace → (∀ msg, a ≠ ReceiveMessage msg) →
  ∀ i q, projects st !! i = Some q → p_id q ≠ p_id pr → projects st' !! i = Some q.
Proof.
  intros Hstep Hpr Hs Hd Hm i q Hq Hne.
  pose proof (step_sdk a st st' Hstep) as Hsdk.
  destruct a; cbn [step] in Hstep.
  - by destruct Hs.
  - apply (inj Some) in Hstep. by subst st'.
  - apply (inj Some) in Hstep. subst st'. unfold newWorkspace.
    pose proof (makeProject_frame
      (match answer with
       | Some "" | None => "Workspace " +:+ pretty (length (projects st) + 1)
       | Some n => n
       end) (if is3d then P3d else P2d) st) as (_ & _ & Hps).
    destruct (makeProject _ _ st) as [p st1]. cbn [snd] in Hps.
    cbn [projects setActiveProjectId setProjects]. rewrite Hps.
    by apply lookup_app_l_Some.
  - by destruct Hd.
  - apply (inj Some) in Hstep. by subst st'.
  - apply (inj Some) in Hstep. subst st'. by apply (patchProjectU_other _ _ _ pr).
  - apply (inj Some) in Hstep. subst st'. by apply (patchProjectU_other _ _ _ pr).
  - apply (inj Some) in Hstep. subst st'. unfold openFile. by destruct (f_kind f).
  - apply (inj Some) in Hstep. by subst st'.
  - unfold renameFile in Hstep. rewrite Hpr in Hstep. cbn [mbind option_bind] in Hstep.
    destruct (list_find _ _); [|apply (inj Some) in Hstep; by subst st'].
    destruct answer as [[|c s]|]; [apply (inj Some) in Hstep; by subst st'|
                                   |apply (inj Some) in Hstep; by subst st'].
    apply (inj Some) in Hstep. subst st'. by apply (patchProject_other _ _ pr).
  - unfold moveFile in Hstep. rewrite Hpr in Hstep. cbn [mbind option_bind] in Hstep.
    apply (inj Some) in Hstep. subst st'. by apply (patchProject_other _ _ pr).
  - unfold deleteFile in Hstep. rewrite Hpr in Hstep. cbn [mbind option_bind] in Hstep.
    destruct (descendants fuel (p_files pr) id) as [ds|]; [|done].
    cbn [mbind option_bind] in Hstep. apply (inj Some) in Hstep. subst st'.
    case_decide; cbn [projects setActiveFileId setOpenTabs];
      by apply (patchProject_other _ _ pr).
  - unfold moveSelected in Hstep. rewrite Hpr in Hstep. cbn [mbind option_bind] in Hstep.
    apply (inj Some) in Hstep. by subst st'.
  - apply (inj Some) in Hstep. subst st'. unfold dropIntoFolder.
    destruct (moveTarget st) as [[|c s]|]; [done| |done].
    cbn [projects setMoveTarget setSelectedIds]. by apply (patchProject_other _ _ pr).
  - apply (inj Some) in Hstep. by subst st'.
  - by apply (runTerminal_other st st' pr).
  - apply (inj Some) in Hstep. subst st'. unfold editorChange.
    destruct (activeFile st) as [af|]; [|done]. rewrite Hpr.
    case_decide; cbn [projects postMessage]; by apply (patchProject_other _ _ pr).
  - by destruct (Hm msg).
  - subst st'. by apply (patchProjectU_other _ _ _ pr).
  - subst st'. by apply (patchProject_other _ _ pr).
  - subst st'. by apply (patchProject_other _ _ pr).
Qed.

Lemma step_keeps_other_workspaces_witness :
  let st := two_linked_workspaces in
  let q := mkProject "w0rkspc2" "Second" P3d nested_folders [] [] ∅ [] in
  ∃ st', addDoc (collection "notes" st) {[ "text" := VStr "hi" ]} st
           = Some (RetUndefined, st') ∧
         projects st' !! 1 = Some q.
Proof.
  intros st q. eexists. split; [vm_compute; reflexivity|].
  apply (step_keeps_other_workspaces (AddDoc "notes" {[ "text" := VStr "hi" ]}) st _
           (mkProject "w0rkspc1" "Main Workspace" P2d small_tree ["w0rkspc2"] [] ∅ []));
    [vm_compute; reflexivity | reflexivity | discriminate | discriminate
    | intros; discriminate | reflexivity | discriminate].
Defined.
